(** * GeoAIHub extraction: document segmentation and context windowing

    A shallow embedding of the text pipeline of [scripts/locations]:
    [text_preparation.py] (keyword windows and balanced token chunks),
    [abstract_extractor.py], [table_extractor.py] and [text_extractor.py],
    followed by the percentile filter of [scripts/services/llm.py] and the
    collection loop of [scripts/main.py].

    Conventions of the embedding.
    - Python [int] is [Z]; Python [float] coordinates and fractions are [Q]
      (every finite float is a rational, comparisons are exact; decimal
      constants are read as exact decimals and the rounding of float
      products and logarithms is not modelled).
    - Python [str] is [string]; a character is an 8-bit code point.
    - A raised exception is a value of [result]; [None] is [option].
    - External libraries (tiktoken, PyMuPDF) appear through what they hand to
      the code: a tokenizer is a pair of functions, a page is a record.
    - The language model appears as a function from a part of the text to
      the parsed answer, or to the failure of the request. *)

From Stdlib Require Import ZArith QArith Qround Qabs Lia Lqa List String Ascii Bool.
From Stdlib Require Import Reals Lra.
Import ListNotations.

Set Implicit Arguments.

(* ================================================================== *)
(** ** Python values shared by all modules *)
(* ================================================================== *)

Module Py.

(** The exceptions the modelled code can raise. *)
Inductive exn : Type :=
| ValueError (msg : string)
| TypeError (msg : string)
| IndexError (msg : string).

Inductive result (A : Type) : Type :=
| Ok (a : A)
| Raise (e : exn).

Arguments Ok {A} a.
Arguments Raise {A} e.

Definition bind {A B} (r : result A) (k : A -> result B) : result B :=
  match r with
  | Ok a => k a
  | Raise e => Raise e
  end.

Definition is_ok {A} (r : result A) : bool :=
  match r with Ok _ => true | Raise _ => false end.

(** Index normalisation of a slice bound, as [PySlice_AdjustIndices] does
    for step 1: a negative bound counts from the end, and both bounds are
    clamped to [0, len]. *)
Definition norm_index (len i : Z) : Z :=
  if (i <? 0)%Z then Z.max 0 (i + len) else Z.min i len.

(** [l[a:b]] on a list. *)
Definition slice {A} (l : list A) (a b : Z) : list A :=
  let n := Z.of_nat (List.length l) in
  let a' := norm_index n a in
  let b' := norm_index n b in
  firstn (Z.to_nat (b' - a')) (skipn (Z.to_nat a') l).

(** [s[a:b]] on a string. *)
Definition str_slice (s : string) (a b : Z) : string :=
  string_of_list_ascii (slice (list_ascii_of_string s) a b).

(** [sep.join(parts)]. *)
Definition join (sep : string) (parts : list string) : string :=
  String.concat sep parts.

(** [int(q)] on a float: truncation towards zero. *)
Definition int_of_float (q : Q) : Z :=
  if Qle_bool 0 q then Qfloor q else Qceiling q.

Definition Qltb (x y : Q) : bool := negb (Qle_bool y x).

End Py.

Import Py.

Declare Scope py_scope.
Notation "x <- r ;; k" := (Py.bind r (fun x => k))
  (at level 61, r at next level, right associativity) : py_scope.
Local Open Scope py_scope.

(* ================================================================== *)
(** ** text_preparation.py: the token chunker *)
(* ================================================================== *)

Module Chunker.

Local Open Scope Z_scope.

(** The two environment settings [MAX_TOKENS_PER_PART] and
    [OVERLAP_PERCENTAGE], after [int(...)] and [float(...)]. *)
Record config : Type := Config {
  max_tokens_per_part : Z;
  overlap_percentage : Q
}.

(** [0 <= overlap_percentage < 1] *)
Definition overlap_in_range (f : Q) : bool :=
  Qle_bool 0 f && Qltb f 1.

(** The configurations that pass both validation tests. *)
Definition valid (c : config) : bool :=
  (0 <? max_tokens_per_part c) && overlap_in_range (overlap_percentage c).

Definition err_max : exn := ValueError "max_tokens_per_part must be positive".
Definition err_overlap : exn :=
  ValueError "overlap_percentage must be between 0 and 1".

Section WithTokenizer.

(** [tiktoken.get_encoding("cl100k_base")]: [encode] and [decode]. *)
Variable token : Type.
Variable encode : string -> list token.
Variable decode : list token -> string.

Section Loop.
Variables total_tokens overlap_tokens num_parts balanced_tokens_per_part : Z.

(** The body of [for i in range(num_parts)]: [remaining] counts the
    iterations the range still has to give, [i] is the loop variable.
    Each iteration yields the token range [(start_idx, end_idx)] whose
    slice is decoded and appended to [parts]. *)
Fixpoint part_ranges (remaining : nat) (i start_idx : Z) : list (Z * Z) :=
  match remaining with
  | O => []
  | S remaining' =>
      let end_idx :=
        if i =? num_parts - 1 then total_tokens
        else Z.min (start_idx + balanced_tokens_per_part) total_tokens in
      let start_idx' := Z.max 0 (end_idx - overlap_tokens) in
      (start_idx, end_idx) ::
        (if total_tokens <=? end_idx then []
         else part_ranges remaining' (i + 1) start_idx')
  end.
End Loop.

Definition overlap_tokens_of (c : config) : Z :=
  int_of_float (inject_Z (max_tokens_per_part c) * overlap_percentage c).

Definition num_parts_of (c : config) (total_tokens : Z) : Z :=
  let overlap_tokens := overlap_tokens_of c in
  let effective_tokens_per_part := max_tokens_per_part c - overlap_tokens in
  (total_tokens - overlap_tokens + effective_tokens_per_part - 1)
    / effective_tokens_per_part.

Definition balanced_tokens_per_part_of (c : config) (total_tokens : Z) : Z :=
  let overlap_tokens := overlap_tokens_of c in
  let num_parts := num_parts_of c total_tokens in
  (total_tokens + (num_parts - 1) * overlap_tokens) / num_parts.

(** The token ranges of the parts, for a text longer than the maximum. *)
Definition token_ranges (c : config) (total_tokens : Z) : list (Z * Z) :=
  let num_parts := num_parts_of c total_tokens in
  part_ranges total_tokens (overlap_tokens_of c) num_parts
    (balanced_tokens_per_part_of c total_tokens)
    (Z.to_nat num_parts) 0 0.

(** The token slices [all_tokens[start_idx:end_idx]] of the parts. *)
Definition token_parts (c : config) (all_tokens : list token)
  : list (list token) :=
  map (fun r => slice all_tokens (fst r) (snd r))
      (token_ranges c (Z.of_nat (List.length all_tokens))).

Definition split_text_into_balanced_parts (c : config) (text : string)
  : result (list string) :=
  match text with
  | EmptyString => Ok []
  | _ =>
      if max_tokens_per_part c <=? 0 then Raise err_max
      else if negb (overlap_in_range (overlap_percentage c))
      then Raise err_overlap
      else
        let all_tokens := encode text in
        let total_tokens := Z.of_nat (List.length all_tokens) in
        if total_tokens <=? max_tokens_per_part c then Ok [text]
        else Ok (map decode (token_parts c all_tokens))
  end.

End WithTokenizer.

(** A tokenizer with one token per character, for concrete runs. *)
Definition char_encode (s : string) : list ascii := list_ascii_of_string s.
Definition char_decode (l : list ascii) : string := string_of_list_ascii l.

End Chunker.

(* ================================================================== *)
(** ** The fragment of Python's [re] the code uses *)
(* ================================================================== *)

Module Re.

(** [str.lower()] on one 8-bit code point: A-Z, and the Latin-1 capitals
    192-214 and 216-222, move up by 32. *)
Definition lower_char (c : ascii) : ascii :=
  let n := nat_of_ascii c in
  if ((65 <=? n) && (n <=? 90)
      || (192 <=? n) && (n <=? 214)
      || (216 <=? n) && (n <=? 222))%nat
  then ascii_of_nat (n + 32) else c.

Fixpoint lower (s : string) : string :=
  match s with
  | EmptyString => EmptyString
  | String c s' => String (lower_char c) (lower s')
  end.

(** [\w] on a [str] pattern: alphanumeric code points and the underscore.
    Below 256 these are 0-9, A-Z, a-z, the underscore, the ordinal
    indicators 170 and 186, the micro sign 181, the superscript digits
    178, 179, 185, the fractions 188-190 and the letters 192-255 except
    the multiplication sign 215 and the division sign 247. *)
Definition is_word_char (c : ascii) : bool :=
  let n := nat_of_ascii c in
  ((48 <=? n) && (n <=? 57)
   || (65 <=? n) && (n <=? 90)
   || (97 <=? n) && (n <=? 122)
   || (n =? 95)
   || (n =? 170) || (n =? 181) || (n =? 186)
   || (n =? 178) || (n =? 179) || (n =? 185)
   || (188 <=? n) && (n <=? 190)
   || (192 <=? n) && negb (n =? 215) && negb (n =? 247))%nat.

(** [\d] below 256: the ASCII digits. *)
Definition is_digit (c : ascii) : bool :=
  let n := nat_of_ascii c in ((48 <=? n) && (n <=? 57))%nat.

Definition word_at (t : list ascii) (i : nat) : bool :=
  match nth_error t i with
  | Some c => is_word_char c
  | None => false
  end.

(** [\b] at position [pos]: exactly one of the two neighbours is a word
    character (outside the text counts as a non-word character). *)
Definition boundary (t : list ascii) (pos : nat) : bool :=
  xorb (match pos with O => false | S p => word_at t p end) (word_at t pos).

(** A compiled pattern of the shape [\b(?:k1|k2|...)\b]. *)
Record pattern : Type := Pattern {
  alternatives : list string;
  ignorecase : bool
}.

(** ["|".join(...)] of no keyword is the empty source, whose group holds
    one empty alternative. *)
Definition compile_keywords (keywords : list string) (flag_ignorecase : bool)
  : pattern :=
  Pattern (match keywords with [] => [EmptyString] | _ => keywords end)
          flag_ignorecase.

Definition char_matches (ci : bool) (k c : ascii) : bool :=
  if ci then Ascii.eqb (lower_char k) (lower_char c) else Ascii.eqb k c.

(** The escaped literal [kw] read at the head of [suffix]. *)
Fixpoint literal_at (ci : bool) (kw : list ascii) (suffix : list ascii) : bool :=
  match kw, suffix with
  | [], _ => true
  | k :: kw', c :: suffix' => char_matches ci k c && literal_at ci kw' suffix'
  | _ :: _, [] => false
  end.

Section Matching.
Variable p : pattern.
Variable t : list ascii.

(** One alternative followed by the closing [\b]; [must_advance] rejects
    an empty match (the engine sets it after an empty match at the same
    place). *)
Definition alt_end (pos : nat) (must_advance : bool) (kw : string)
  : option nat :=
  let k := list_ascii_of_string kw in
  let e := (pos + List.length k)%nat in
  if literal_at (ignorecase p) k (skipn pos t)
     && boundary t e
     && (negb must_advance || negb (e =? pos)%nat)
  then Some e else None.

(** Alternatives are tried from left to right. *)
Fixpoint first_alt (pos : nat) (must_advance : bool) (alts : list string)
  : option nat :=
  match alts with
  | [] => None
  | kw :: rest =>
      match alt_end pos must_advance kw with
      | Some e => Some e
      | None => first_alt pos must_advance rest
      end
  end.

(** The end of the match that starts at [pos], if there is one. *)
Definition match_at (pos : nat) (must_advance : bool) : option nat :=
  if boundary t pos then first_alt pos must_advance (alternatives p)
  else None.

(** The scan of [finditer]: positions below [busy] lie inside the last
    match; after an empty match the same position is tried once more
    for a non-empty one. *)
Fixpoint scan (remaining pos busy : nat) : list (nat * nat) :=
  match remaining with
  | O => []
  | S remaining' =>
      if (pos <? busy)%nat then scan remaining' (S pos) busy
      else
        match match_at pos false with
        | None => scan remaining' (S pos) busy
        | Some e =>
            if (e =? pos)%nat then
              match match_at pos true with
              | Some e2 => (pos, pos) :: (pos, e2) :: scan remaining' (S pos) e2
              | None => (pos, pos) :: scan remaining' (S pos) busy
              end
            else (pos, e) :: scan remaining' (S pos) e
        end
  end.
End Matching.

(** Is there a match that starts at [pos]? *)
Definition matches_at (p : pattern) (t : list ascii) (pos : nat) : bool :=
  match match_at p t pos false with Some _ => true | None => false end.

(** [(m.start(), m.end()) for m in p.finditer(text)] *)
Definition finditer (p : pattern) (text : string) : list (Z * Z) :=
  let t := list_ascii_of_string text in
  map (fun m => (Z.of_nat (fst m), Z.of_nat (snd m)))
      (scan p t (S (List.length t)) 0 0).

(** [re.search]: the leftmost match. *)
Definition search (p : pattern) (text : string) : option (Z * Z) :=
  hd_error (finditer p text).

(** [kw] occurs in [text] at [pos] as the pattern reads it: the literal,
    with a word boundary on both sides. *)
Definition occurs_at (ci : bool) (kw : string) (text : string) (pos : nat)
  : bool :=
  let t := list_ascii_of_string text in
  let k := list_ascii_of_string kw in
  boundary t pos && literal_at ci k (skipn pos t)
  && boundary t (pos + List.length k).

End Re.

(* ================================================================== *)
(** ** text_preparation.py: keyword context windows *)
(* ================================================================== *)

Module KeywordContext.

Local Open Scope Z_scope.

(** What a caller may pass as [window]: the default [1200], or
    [os.environ.get("PART_SIZE")], which is [None] or a string. *)
Inductive window_arg : Type :=
| WNone
| WInt (n : Z)
| WStr (s : string).

Record KeywordContextFinder : Type := Finder {
  window : Z;
  pattern : Re.pattern
}.

(** [KeywordContextFinder.__init__] *)
Definition init (keywords : list string) (window : window_arg)
  : KeywordContextFinder :=
  Finder 4000 (Re.compile_keywords keywords true).

(** [context.replace("\n", " ")] *)
Fixpoint replace_newlines (s : string) : string :=
  match s with
  | EmptyString => EmptyString
  | String c s' =>
      String (if Ascii.eqb c "010"%char then " "%char else c)
             (replace_newlines s')
  end.

Section ProcessContexts.
Variable self : KeywordContextFinder.
Variable text : string.

Definition context_of (m : Z * Z) : Z * Z :=
  let text_length := Z.of_nat (String.length text) in
  (Z.max 0 (fst m - window self), Z.min text_length (snd m + window self)).

(** The [for start, end in matches] loop; [current] is
    [(current_start, current_end)], [None] before the first match. *)
Fixpoint sweep (matches : list (Z * Z)) (current : option (Z * Z))
         (contexts : list string) : option (Z * Z) * list string :=
  match matches with
  | [] => (current, contexts)
  | m :: rest =>
      let '(context_start, context_end) := context_of m in
      match current with
      | None => sweep rest (Some (context_start, context_end)) contexts
      | Some (current_start, current_end) =>
          if context_start <=? current_end
          then sweep rest
                 (Some (current_start, Z.max current_end context_end))
                 contexts
          else sweep rest (Some (context_start, context_end))
                 (contexts ++ [str_slice text current_start current_end])
      end
  end.

Definition _process_contexts (matches : list (Z * Z)) : string :=
  let '(current, contexts) := sweep matches None [] in
  let contexts :=
    match current with
    | Some (current_start, current_end) =>
        contexts ++ [str_slice text current_start current_end]
    | None => contexts
    end in
  join " " (map replace_newlines contexts).
End ProcessContexts.

Definition find_contexts (self : KeywordContextFinder) (text : string)
  : string :=
  match text with
  | EmptyString => EmptyString
  | _ =>
      match Re.finditer (pattern self) text with
      | [] => EmptyString
      | matches => _process_contexts self text matches
      end
  end.

Definition keywords : list string :=
  [ "study area"; "study site"; "field area"; "sampling site";
    "sample location";
    "province of"; "district of"; "county of"; "city of"; "town of";
    "village of";
    "basin"; "formation"; "complex"; "range";
    "outcrop at"; "exposed at"; "collected from"; "located in";
    "situated in";
    "region of"; "area of" ]%string.

(** [part_size] is [os.environ.get("PART_SIZE")]. *)
Definition find_text_surrounding_keywords (part_size : option string)
           (text : string) : string :=
  let window := match part_size with Some s => WStr s | None => WNone end in
  find_contexts (init keywords window) text.

(** [split_text_into_parts]: [text] is the pair (abstract, body);
    [append_abstract] is the value of [APPEND_ABSTRACT_TO_CONTEXT]. *)
Definition split_text_into_parts
           (token : Type) (encode : string -> list token)
           (decode : list token -> string)
           (c : Chunker.config) (part_size : option string)
           (append_abstract : string) (text : string * string)
  : result (list string) :=
  let abstract := fst text in
  let text_surrounding_keywords :=
    find_text_surrounding_keywords part_size (snd text) in
  parts <- Chunker.split_text_into_balanced_parts encode decode c
             text_surrounding_keywords ;;
  if String.eqb append_abstract "True"
  then Ok (map (fun part => abstract ++ part)%string parts)
  else Ok parts.

End KeywordContext.

(* ================================================================== *)
(** ** Page layout data handed over by PyMuPDF *)
(* ================================================================== *)

Module Layout.

(** An axis-aligned rectangle [(x0, y0, x1, y1)]. *)
Record rect : Type := Rect { rx0 : Q; ry0 : Q; rx1 : Q; ry1 : Q }.

(** One entry of [page.get_text("words")]: [word[0:4]] is the box,
    [word[4]] the text. *)
Record word : Type := Word { x0 : Q; y0 : Q; x1 : Q; y1 : Q; text : string }.

(** [page.get_text("dict")]: blocks, lines, spans. *)
Record span : Type := Span { span_text : string; span_bbox : rect }.

(** [line_dir] is the optional ["dir"] key of a line. *)
Record line : Type := Line { line_dir : option (Q * Q); line_spans : list span }.

Record block : Type := Block { block_type : Z; block_lines : list line }.

(** One item of a drawing, with the [fitz.Rect] built from its geometry
    for the kinds ["l"] and ["re"]. *)
Inductive drawing_item : Type :=
| ItemLine (r : rect)
| ItemRect (r : rect)
| ItemOther.

Record page : Type := Page {
  page_raw_text : string;               (* page.get_text("text") *)
  page_blocks : list block;             (* page.get_text("dict")["blocks"] *)
  page_drawings : list (list drawing_item);  (* page.get_drawings() *)
  page_width : Q;                       (* page.rect.width *)
  page_height : Q;                      (* page.rect.height *)
  page_number : Z;                      (* page.number *)
  page_words : list word                (* page.get_text("words") *)
}.

(** [needle in hay] *)
Fixpoint contains (needle hay : string) : bool :=
  if String.prefix needle hay then true
  else match hay with
       | EmptyString => false
       | String _ hay' => contains needle hay'
       end.

Definition Qgtb (x y : Q) : bool := Qltb y x.

End Layout.

Import Layout.

(* ================================================================== *)
(** ** abstract_extractor.py *)
(* ================================================================== *)

Module AbstractExtractor.

Local Open Scope Z_scope.

(** The test of [bbox_calculator] between a word and the next one. *)
Definition discontinuity (cur next : word) : bool :=
  let right_x := x1 cur in
  let right_y := y1 cur in
  let left_x := x0 next in
  let left_y := y0 next in
  Qgtb (Qabs (right_x - left_x)) 20 && Qgtb (Qabs (left_y - right_y)) 5.

(** [for i in range(len(bbox) - 1)], from index [i] on. *)
Fixpoint bbox_scan (bbox : list word) (i : Z) : option Z :=
  match bbox with
  | cur :: ((next :: _) as rest) =>
      if discontinuity cur next then Some i else bbox_scan rest (i + 1)
  | _ => None
  end.

Definition bbox_calculator (bbox : list word) : Z :=
  match bbox_scan bbox 0 with
  | Some i => i
  | None => Z.of_nat (List.length bbox) - 1
  end.

(** Method 1: the first word that holds the keyword as a substring. *)
Fixpoint find_keyword_word (keyword : string) (page_text : list word) (i : Z)
  : option Z :=
  match page_text with
  | [] => None
  | w :: rest =>
      if contains (Re.lower keyword) (Re.lower (text w)) then Some i
      else find_keyword_word keyword rest (i + 1)
  end.

(** Method 2: [keyword_length] consecutive words that spell the keyword;
    [count] is what is left of [range(len(page_text) - (keyword_length - 1))]. *)
Fixpoint find_spaced_keyword (keyword : string) (page_text : list word)
         (count : nat) (i : Z) : option Z :=
  match count with
  | O => None
  | S count' =>
      let keyword_length := Z.of_nat (String.length keyword) in
      let potential_keyword :=
        join "" (map (fun w => Re.lower (text w))
                     (slice page_text i (i + keyword_length))) in
      if String.eqb potential_keyword (Re.lower keyword)
      then Some (i + (keyword_length - 1))
      else find_spaced_keyword keyword page_text count' (i + 1)
  end.

Fixpoint find_abstract_start (keywords : list string) (page_text : list word)
  : option Z :=
  match keywords with
  | [] => None
  | keyword :: rest =>
      match find_keyword_word keyword page_text 0 with
      | Some start_idx => Some start_idx
      | None =>
          let keyword_length := Z.of_nat (String.length keyword) in
          let n := Z.of_nat (List.length page_text) - (keyword_length - 1) in
          match find_spaced_keyword keyword page_text (Z.to_nat n) 0 with
          | Some idx => Some idx
          | None => find_abstract_start rest page_text
          end
      end
  end.

Definition abstract_extractor (page_text : list word) : string :=
  match find_abstract_start ["abstract"; "resumen"]%string page_text with
  | Some abstract_start_index =>
      let abstract_text :=
        slice page_text (abstract_start_index + 1)
              (Z.of_nat (List.length page_text)) in
      let abstract_end_idx := bbox_calculator abstract_text in
      join " " (map text (slice abstract_text 0 (abstract_end_idx + 1)))
  | None => EmptyString
  end.

End AbstractExtractor.

(* ================================================================== *)
(** ** table_extractor.py *)
(* ================================================================== *)

Module TableExtractor.

Local Open Scope Z_scope.

(** [\s] below 256. *)
Definition is_space (c : ascii) : bool :=
  let n := nat_of_ascii c in
  ((9 <=? n) && (n <=? 13) || (28 <=? n) && (n <=? 32)
   || (n =? 133) || (n =? 160))%nat.

Fixpoint all_space (s : string) : bool :=
  match s with
  | EmptyString => true
  | String c s' => is_space c && all_space s'
  end.

(** [patterns("table_pattern").fullmatch]: under [fullmatch] both
    alternatives of [^Table \d[:]?\s*$|^Table \d[:]?\s*] accept
    "Table ", one digit, an optional colon, then only white space. *)
Definition table_pattern_fullmatch (s : string) : bool :=
  if String.prefix "Table " s then
    match String.substring 6 (String.length s - 6) s with
    | String d rest =>
        Re.is_digit d
        && match rest with
           | String ":" rest' => all_space rest'
           | _ => all_space rest
           end
    | EmptyString => false
    end
  else false.

(** A table anchor [[span["text"], span["bbox"][1], page.number]]. *)
Record table_coord : Type := TableCoord {
  caption : string;
  caption_y : Q;
  caption_page : Z
}.

(** [line_coordinates]: the list of [[bbox, page.number]], or the string
    ["vertical"] that replaces it. *)
Inductive line_coords : Type :=
| Vertical
| Lines (l : list (rect * Z)).

(** One element of the list [extract_tables] returns: a list that starts
    with four coordinates (followed by the page number when it comes from
    [create_table_bounding_boxes]), or a bare integer. *)
Inductive table_entry : Type :=
| Box (coords : rect) (page : option Z)
| Num (n : Z).

Record counts : Type := Counts {
  horizontal_count : Z;
  vertical_count : Z;
  table_coordinates : list table_coord
}.

Definition dir_is (d : Q * Q) (a b : Q) : bool :=
  Qeq_bool (fst d) a && Qeq_bool (snd d) b.

Section ExtractTableData.
Variable fullmatch : string -> bool.
Variable pg : page.

Definition scan_span (dir_angle : Q * Q) (st : counts) (sp : span) : counts :=
  let st :=
    if dir_is dir_angle 1 0
    then Counts (horizontal_count st + 1) (vertical_count st)
                (table_coordinates st)
    else if dir_is dir_angle 0 (-1)
    then Counts (horizontal_count st) (vertical_count st + 1)
                (table_coordinates st)
    else st in
  if fullmatch (span_text sp)
  then Counts (horizontal_count st) (vertical_count st)
              (table_coordinates st
               ++ [TableCoord (span_text sp) (ry0 (span_bbox sp))
                              (page_number pg)])
  else st.

Definition scan_line (st : counts) (ln : line) : counts :=
  let dir_angle :=
    match line_dir ln with Some d => d | None => (1%Q, 0%Q) end in
  fold_left (scan_span dir_angle) (line_spans ln) st.

Definition scan_block (st : counts) (b : block) : counts :=
  if block_type b =? 0 then fold_left scan_line (block_lines b) st else st.

Definition scan_item (acc : list (rect * Z)) (it : drawing_item)
  : list (rect * Z) :=
  match it with
  | ItemLine r | ItemRect r =>
      let bbox :=
        Rect (rx0 r + (-1)) (ry0 r + (-1)) (rx1 r + 1) (ry1 r + 1) in
      if Qltb 50 (ry0 bbox) && Qltb (ry0 bbox) 720
         && Qltb (Qabs (ry0 bbox - ry1 bbox)) 10
      then acc ++ [(bbox, page_number pg)] else acc
  | ItemOther => acc
  end.

(** The loop over [page.get_text("dict")["blocks"]]. *)
Definition scan_page : counts :=
  fold_left scan_block (page_blocks pg) (Counts 0 0 []).

(** The loop over [page.get_drawings()]. *)
Definition scan_drawings : list (rect * Z) :=
  fold_left (fun acc drawing => fold_left scan_item drawing acc)
            (page_drawings pg) [].

Definition extract_table_data : option (line_coords * list table_coord) :=
  if negb (contains "Table" (page_raw_text pg)) then None
  else
    let st := scan_page in
    let lines := scan_drawings in
    let line_coordinates :=
      if horizontal_count st <? vertical_count st then Vertical
      else Lines lines in
    let truthy :=
      match line_coordinates with
      | Vertical => true
      | Lines [] => false
      | Lines _ => true
      end in
    match table_coordinates st with
    | [] => None
    | _ => if truthy then Some (line_coordinates, table_coordinates st)
           else None
    end.
End ExtractTableData.

(** A [defaultdict(list)] keyed by page number, in insertion order. *)
Fixpoint dict_append {A} (k : Z) (v : A) (d : list (Z * list A))
  : list (Z * list A) :=
  match d with
  | [] => [(k, [v])]
  | (k', vs) :: rest =>
      if k =? k' then (k', vs ++ [v]) :: rest
      else (k', vs) :: dict_append k v rest
  end.

Fixpoint dict_get {A} (k : Z) (d : list (Z * list A)) : list A :=
  match d with
  | [] => []
  | (k', vs) :: rest => if k =? k' then vs else dict_get k rest
  end.

(** [sorted(l, key=...)]: a stable sort, [le a b] being [key a <= key b]. *)
Section Sorted.
Variable A : Type.
Variable le : A -> A -> bool.

Fixpoint insert (x : A) (l : list A) : list A :=
  match l with
  | [] => [x]
  | y :: rest => if le x y then x :: l else y :: insert x rest
  end.

Definition sorted (l : list A) : list A := fold_right insert [] l.
End Sorted.

Definition Qmin' (a b : Q) : Q := if Qle_bool a b then a else b.
Definition Qmax' (a b : Q) : Q := if Qle_bool a b then b else a.

(** The two nested [while] loops that merge rule segments of one page:
    the outer loop opens a group at [line] with [current_y = line[1]], the
    inner loop takes the following lines within [tolerance = 2] of
    [current_y].  [open] is the group being built, as
    [(current_y, min(x1s), max(x2s))]. *)
Fixpoint merge_lines (lines_sorted : list rect) (open : option (Q * Q * Q))
  : list rect :=
  match lines_sorted with
  | [] =>
      match open with
      | Some (current_y, min_x1, max_x2) =>
          [Rect min_x1 current_y max_x2 current_y]
      | None => []
      end
  | next_line :: rest =>
      match open with
      | None => merge_lines rest (Some (ry0 next_line, rx0 next_line, rx1 next_line))
      | Some (current_y, min_x1, max_x2) =>
          if Qle_bool (Qabs (ry0 next_line - current_y)) 2
          then merge_lines rest
                 (Some (current_y, Qmin' min_x1 (rx0 next_line),
                        Qmax' max_x2 (rx1 next_line)))
          else Rect min_x1 current_y max_x2 current_y
               :: merge_lines rest
                    (Some (ry0 next_line, rx0 next_line, rx1 next_line))
      end
  end.

Definition merged_lines_of (lines : list rect) : list rect :=
  merge_lines (sorted (fun a b => Qle_bool (ry0 a) (ry0 b)) lines) None.

(** [for i, table in enumerate(sorted_tables)]: the rules strictly between
    this anchor and the next one ([None] stands for [float("inf")]). *)
Fixpoint boxes_of_page (page_lines : list rect) (pg : Z)
         (sorted_tables : list table_coord) : list (list rect * Z) :=
  match sorted_tables with
  | [] => []
  | table :: rest =>
      let next_y :=
        match rest with t' :: _ => Some (caption_y t') | [] => None end in
      let bbox :=
        filter (fun ln =>
                  Qltb (caption_y table) (ry0 ln)
                  && match next_y with
                     | Some y => Qltb (ry0 ln) y
                     | None => true
                     end) page_lines in
      match bbox with
      | [] => boxes_of_page page_lines pg rest
      | _ => (bbox, pg) :: boxes_of_page page_lines pg rest
      end
  end.

Definition group_table_elements (line_coordinates : list (rect * Z))
           (table_coordinates : list table_coord) : list (list rect * Z) :=
  let tables_by_page :=
    fold_left (fun d t => dict_append (caption_page t) t d)
              table_coordinates [] in
  let lines_by_page :=
    fold_left (fun d ln => dict_append (snd ln) (fst ln) d)
              line_coordinates [] in
  let lines_by_page :=
    map (fun kv => (fst kv, merged_lines_of (snd kv))) lines_by_page in
  flat_map
    (fun kv =>
       let sorted_tables :=
         sorted (fun a b => Qle_bool (caption_y a) (caption_y b)) (snd kv) in
       boxes_of_page (dict_get (fst kv) lines_by_page) (fst kv) sorted_tables)
    tables_by_page.

(** [for rect in sorted_rectangles[1:]]; [current_group] is never empty. *)
Fixpoint group_rectangles (rects : list rect) (current_group : list rect)
         (grouped : list (list rect)) : list (list rect) :=
  match rects with
  | [] =>
      match current_group with
      | [] => grouped
      | _ => grouped ++ [current_group]
      end
  | r :: rest =>
      let last_y :=
        match List.last current_group r with Rect _ y _ _ => y end in
      if Qle_bool (Qabs (ry0 r - last_y)) 3
      then group_rectangles rest (current_group ++ [r]) grouped
      else group_rectangles rest [r] (grouped ++ [current_group])
  end.

Definition rect_key_le (a b : rect) : bool :=
  Qltb (ry0 a) (ry0 b)
  || Qeq_bool (ry0 a) (ry0 b) && Qle_bool (rx0 a) (rx0 b).

Fixpoint create_table_bounding_boxes (rectangles : list (list rect * Z))
  : result (list table_entry) :=
  match rectangles with
  | [] => Ok []
  | (page_rectangles, page_num) :: rest =>
      match sorted rect_key_le page_rectangles with
      | [] => Raise (IndexError "list index out of range")
      | first :: others =>
          let grouped := group_rectangles others [first] [] in
          tail <- create_table_bounding_boxes rest ;;
          match grouped with
          | (g0 :: _) :: _ =>
              match List.last grouped [] with
              | gl :: _ =>
                  Ok (Box (Rect (rx0 g0) (ry0 g0) (rx1 g0) (ry0 gl))
                          (Some page_num) :: tail)
              | [] => Ok tail
              end
          | _ => Ok tail
          end
      end
  end.

(** [extract_tables(page, pattern)]; the comparison of [table_data] with
    the string ["Vertical Page"] is never true of a tuple or [None]. *)
Definition extract_tables (fullmatch : string -> bool) (pg : page)
  : result (option (list table_entry)) :=
  match extract_table_data fullmatch pg with
  | Some (line_coordinates, table_coordinates) =>
      match line_coordinates with
      | Vertical =>
          Ok (Some [Box (Rect 0 0 (page_width pg) (page_height pg)) None;
                    Num (page_number pg)])
      | Lines l =>
          boxes <- create_table_bounding_boxes
                     (group_table_elements l table_coordinates) ;;
          Ok (Some boxes)
      end
  | None => Ok None
  end.

End TableExtractor.

(* ================================================================== *)
(** ** text_extractor.py *)
(* ================================================================== *)

Module TextExtractor.

Import TableExtractor.
Local Open Scope Z_scope.

(** [is_word_inside_any_table]: [table[0:4]] raises on an entry that is
    an integer. *)
Fixpoint is_word_inside_any_table (w : word) (tables : list table_entry)
  : result bool :=
  match tables with
  | [] => Ok false
  | Num _ :: _ => Raise (TypeError "'int' object is not subscriptable")
  | Box table_coords _ :: rest =>
      if Qgtb (x0 w) (rx0 table_coords)
         && Qgtb (y0 w) (ry0 table_coords)
         && Qltb (x1 w) (rx1 table_coords)
         && Qltb (y1 w) (ry1 table_coords)
      then Ok true
      else is_word_inside_any_table w rest
  end.

Fixpoint process_page_with_tables (page_text : list word)
         (tables : list table_entry) (min_y max_y : Q)
  : result (list string) :=
  match page_text with
  | [] => Ok []
  | w :: rest =>
      inside <- is_word_inside_any_table w tables ;;
      tail <- process_page_with_tables rest tables min_y max_y ;;
      Ok (if negb inside && (Qltb min_y (y0 w) && Qltb (y0 w) max_y)
          then text w :: tail else tail)
  end.

Definition min_y_of (page_height : Q) : Q := (page_height * (5 # 100))%Q.
Definition max_y_of (page_height : Q) : Q := (page_height * (95 # 100))%Q.

Definition process_page (pg : page) (page_text : list word)
  : result (list string) :=
  extracted_tables <- extract_tables table_pattern_fullmatch pg ;;
  let min_y := min_y_of (page_height pg) in
  let max_y := max_y_of (page_height pg) in
  match extracted_tables with
  | Some ((_ :: _) as tables) =>
      process_page_with_tables page_text tables min_y max_y
  | _ =>
      Ok (map text
            (filter (fun w => Qltb min_y (y0 w) && Qltb (y0 w) max_y)
                    page_text))
  end.

(** The set literal of [check_ending_keywords], in the order it is
    written.  The order in which the set is iterated does not show in the
    result (see [ending_order_irrelevant]). *)
Definition ending_keywords : list string :=
  [ "acknowledgments"; "author contribution"; "declarations";
    "references" ]%string.

Definition ending_pattern : Re.pattern := Re.Pattern ending_keywords false.

Definition check_ending_keywords (text : list string) : option string :=
  let text_lower := Re.lower (join " " text) in
  match Re.search ending_pattern text_lower with
  | Some (m_start, m_end) =>
      Some (str_slice (join " " text) 0 (m_start + (m_end - m_start)))
  | None => None
  end.

(** Least [k' >= k] with [n <= 1.9 ^ k'], written on integers as
    [n * 10 ^ k' <= 19 ^ k']. *)
Fixpoint log_search (fuel : nat) (k n : Z) : Z :=
  match fuel with
  | O => k
  | S fuel' =>
      if n * 10 ^ k <=? 19 ^ k then k else log_search fuel' (k + 1) n
  end.

(** [ceil(log(n, 1.9))] for [n >= 1]. *)
Definition ceil_log_1_9 (n : Z) : Z := log_search (Z.to_nat n) 0 n.

(** [math.floor(page_number - math.log(page_number, 1.9))], computed on
    integers: [floor(n - x) = n - ceil(x)].  [math.log] raises on a
    non-positive argument. *)
Definition calculate_ignorable_page_threshold (page_number : Z) : result Z :=
  if page_number <=? 0 then Raise (ValueError "math domain error")
  else Ok (page_number - ceil_log_1_9 page_number).

(** [re.sub(r"- ", "", s)] *)
Fixpoint remove_hyphen_space (s : string) : string :=
  match s with
  | EmptyString => EmptyString
  | String c rest =>
      match rest with
      | String c' rest' =>
          if Ascii.eqb c "-" && Ascii.eqb c' " "
          then remove_hyphen_space rest'
          else String c (remove_hyphen_space rest)
      | EmptyString => String c EmptyString
      end
  end.

(** After an opening parenthesis: the number of characters up to and
    including the closing one, when no other parenthesis comes first and
    four digits in a row were read. *)
Fixpoint citation_length (s : string) (run : nat) (seen : bool) (n : nat)
  : option nat :=
  match s with
  | EmptyString => None
  | String c rest =>
      if Ascii.eqb c ")" then (if seen then Some (S n) else None)
      else if Ascii.eqb c "(" then None
      else
        let run' := if Re.is_digit c then S run else O in
        citation_length rest run' (seen || (4 <=? run')%nat) (S n)
  end.

(** [re.sub(r"\([^()]*\d{4}[^()]*\)", "", s)]; [skip] characters of a
    match are still to be dropped. *)
Fixpoint remove_citations (s : string) (skip : nat) : string :=
  match s with
  | EmptyString => EmptyString
  | String c rest =>
      match skip with
      | S skip' => remove_citations rest skip'
      | O =>
          if Ascii.eqb c "(" then
            match citation_length rest 0 false 0 with
            | Some n => remove_citations rest n
            | None => String c (remove_citations rest 0)
            end
          else String c (remove_citations rest 0)
      end
  end.

Definition remove_references (text : list string) : list string :=
  match text with
  | [] => [EmptyString]
  | t0 :: _ => [remove_citations (remove_hyphen_space t0) 0]
  end.

Definition truthy (s : string) : bool :=
  match s with EmptyString => false | _ => true end.

(** What one iteration of the page loop does to the loop. *)
Inductive step : Type :=
| Continue (treated_text : list (list string))
| Break (treated_text : list (list string))
| Abort (e : exn).

(** "Process regular page content": an exception drops the page. *)
Definition regular_step (pg : page) (treated_text : list (list string))
  : step :=
  match process_page pg (page_words pg) with
  | Ok processed_text =>
      let text_content := join " " processed_text in
      if truthy text_content
      then Continue (treated_text ++ [remove_references [text_content]])
      else Continue treated_text
  | Raise _ => Continue treated_text
  end.

(** "Check if we've reached ending sections": [process_page] is called
    outside the inner [try], so its exception leaves the loop. *)
Definition checked_step (pg : page) (treated_text : list (list string))
  : step :=
  match process_page pg (page_words pg) with
  | Raise e => Abort e
  | Ok processed_text =>
      match check_ending_keywords processed_text with
      | Some last_useful_page_text =>
          if truthy last_useful_page_text then
            let last_page_no_references :=
              remove_references [last_useful_page_text] in
            match last_page_no_references with
            | t0 :: _ =>
                if truthy t0
                then Break (treated_text ++ [last_page_no_references])
                else Break treated_text
            | [] => Break treated_text
            end
          else regular_step pg treated_text
      | None => regular_step pg treated_text
      end
  end.

Definition page_step (threshold i : Z) (pg : page)
           (treated_text : list (list string)) : step :=
  if threshold <=? i then checked_step pg treated_text
  else regular_step pg treated_text.

(** [for i in range(1, num_pages)], from page [i] on. *)
Fixpoint pages_loop (threshold i : Z) (pages : list page)
         (treated_text : list (list string))
  : result (list (list string)) :=
  match pages with
  | [] => Ok treated_text
  | pg :: rest =>
      match page_step threshold i pg treated_text with
      | Continue treated_text' => pages_loop threshold (i + 1) rest treated_text'
      | Break treated_text' => Ok treated_text'
      | Abort e => Raise e
      end
  end.

Definition flatten (treated_text : list (list string)) : string :=
  join " "
       (flat_map (fun item =>
                    match item with
                    | t0 :: _ => if truthy t0 then [t0] else []
                    | [] => []
                    end) treated_text).

(** [extract_text]; [opened] is the outcome of [fitz.open(pdf_path)], the
    pages of the document in order. *)
Definition extract_text (opened : result (list page)) : string * string :=
  match opened with
  | Raise _ => (EmptyString, EmptyString)
  | Ok [] => (EmptyString, EmptyString)
  | Ok ((first_page :: body) as doc) =>
      let num_pages := Z.of_nat (List.length doc) in
      match calculate_ignorable_page_threshold num_pages with
      | Raise _ => (EmptyString, EmptyString)
      | Ok threshold =>
          let abstract :=
            AbstractExtractor.abstract_extractor (page_words first_page) in
          match pages_loop threshold 1 body [] with
          | Ok treated_text => (abstract, flatten treated_text)
          | Raise _ => (EmptyString, EmptyString)
          end
      end
  end.

End TextExtractor.

(* ================================================================== *)
(** ** text_extractor.py: get_location_frequencies *)
(* ================================================================== *)

Module Frequencies.

Local Open Scope Z_scope.

(** A [dict] from location names to counts, in insertion order. *)
Definition dict : Type := list (string * Z).

Fixpoint dict_lookup (k : string) (d : dict) : option Z :=
  match d with
  | [] => None
  | (k', v) :: rest => if String.eqb k k' then Some v else dict_lookup k rest
  end.

(** [d[k] = v] *)
Fixpoint dict_set (k : string) (v : Z) (d : dict) : dict :=
  match d with
  | [] => [(k, v)]
  | (k', v') :: rest =>
      if String.eqb k k' then (k', v) :: rest
      else (k', v') :: dict_set k v rest
  end.

(** How the function ends: with the dictionary, with the [KeyError] of
    [frequencies[location] += ...], or with the exception of
    [fitz.open]. *)
Inductive outcome : Type :=
| Frequencies (d : dict)
| KeyError (key : string)
| OpenFailed (e : exn).

(** [{location: 0 for location in locations}] *)
Definition zero_dict (locations : list string) : dict :=
  fold_left (fun d location => dict_set location 0 d) locations [].

(** [len(re.findall(r"\b" + re.escape(location) + r"\b", page_text,
    re.IGNORECASE))] *)
Definition count_matches (location page_text : string) : Z :=
  Z.of_nat (List.length (Re.finditer (Re.Pattern [location] true) page_text)).

(** [for location in locations: frequencies[location] += len(matches)] on
    one page. *)
Fixpoint count_page (page_text : string) (locations : list string)
         (frequencies : dict) : outcome :=
  match locations with
  | [] => Frequencies frequencies
  | location :: rest =>
      match dict_lookup location frequencies with
      | None => KeyError location
      | Some v =>
          count_page page_text rest
            (dict_set location (v + count_matches location page_text)
                      frequencies)
      end
  end.

(** [for page_num in range(doc.page_count)] *)
Fixpoint count_pages (pages : list page) (locations : list string)
         (frequencies : dict) : outcome :=
  match pages with
  | [] => Frequencies frequencies
  | pg :: rest =>
      match count_page (page_raw_text pg) locations frequencies with
      | Frequencies frequencies' => count_pages rest locations frequencies'
      | failure => failure
      end
  end.

(** [get_location_frequencies(locations, pdf_path)]; [opened] is the
    outcome of [fitz.open(pdf_path)]. *)
Definition get_location_frequencies (locations : list string)
           (opened : result (list page)) : outcome :=
  let frequencies := zero_dict locations in
  match opened with
  | Raise e => OpenFailed e
  | Ok pages => count_pages pages locations frequencies
  end.

End Frequencies.

(* ================================================================== *)
(** ** text_preparation.py: prepare_text_for_extraction *)
(* ================================================================== *)

Module Preparation.

Local Open Scope Z_scope.

Section WithTokenizer.
Variable token : Type.
Variable encode : string -> list token.
Variable decode : list token -> string.

(** [total_tokens += len(encoding.encode(part))] over the parts. *)
Definition count_tokens (parts : list string) : Z :=
  fold_left (fun total part => total + Z.of_nat (List.length (encode part)))
            parts 0.

(** [prepare_text_for_extraction(pdf_path)]: the parts and their total
    token count. *)
Definition prepare_text_for_extraction
           (c : Chunker.config) (part_size : option string)
           (append_abstract : string) (opened : result (list page))
  : result (list string * Z) :=
  let text := TextExtractor.extract_text opened in
  prepared_text <- KeywordContext.split_text_into_parts encode decode c
                     part_size append_abstract text ;;
  Ok (prepared_text, count_tokens prepared_text).

End WithTokenizer.

End Preparation.

(* ================================================================== *)
(** ** services/llm.py: the percentile filter of location_extractor *)
(* ================================================================== *)

Module Llm.

Local Open Scope Z_scope.

(** One entry of the ["locations"] list of the model's JSON answer.  A
    field is [None] when its key is absent; scores are integers. *)
Record location : Type := Location {
  location_name : option string;
  location_country : option string;
  importance_score : option Z
}.

Inductive error : Type :=
| KeyError (key : string)
| IndexError (msg : string)
| RequestFailed (msg : string).

Inductive outcome (A : Type) : Type :=
| Done (a : A)
| Failed (e : error).

Arguments Done {A} a.
Arguments Failed {A} e.

(** [[loc["importance_score"] for loc in locations]] *)
Fixpoint all_scores_of (locations : list location) : outcome (list Z) :=
  match locations with
  | [] => Done []
  | loc :: rest =>
      match importance_score loc with
      | None => Failed (KeyError "importance_score")
      | Some s =>
          match all_scores_of rest with
          | Done scores => Done (s :: scores)
          | Failed e => Failed e
          end
      end
  end.

(** [l[k]] with Python's negative indices. *)
Definition index (l : list Z) (k : Z) : outcome Z :=
  let n := Z.of_nat (List.length l) in
  let i := if k <? 0 then k + n else k in
  if (0 <=? i) && (i <? n)
  then Done (nth (Z.to_nat i) l 0)
  else Failed (IndexError "list index out of range").

(** The interpolated percentile of the sorted scores, [n >= 2]. *)
Definition percentile_score (percentile : Z) (sorted_scores : list Z)
  : outcome Q :=
  let n := Z.of_nat (List.length sorted_scores) in
  let index_float := ((inject_Z percentile / 100) * inject_Z (n - 1))%Q in
  let k := Qfloor index_float in
  let f := (index_float - inject_Z k)%Q in
  if n - 1 <=? k then
    match index sorted_scores (n - 1) with
    | Done top => Done (inject_Z top)
    | Failed e => Failed e
    end
  else
    match index sorted_scores k with
    | Failed e => Failed e
    | Done lower =>
        match index sorted_scores (k + 1) with
        | Failed e => Failed e
        | Done upper =>
            Done (inject_Z lower + f * (inject_Z upper - inject_Z lower))%Q
        end
    end.

Definition score_of (loc : location) : Z :=
  match importance_score loc with Some s => s | None => 0 end.

(** The part of [location_extractor] after the JSON answer is parsed:
    [locations] is [data.get("locations", [])], [percentile] is
    [int(PERCENTILE_CUTOFF)]. *)
Definition top_locations (percentile : Z) (locations : list location)
  : outcome (list location) :=
  match locations with
  | [] => Done []
  | _ =>
      match all_scores_of locations with
      | Failed e => Failed e
      | Done all_scores =>
          match all_scores with
          | [] => Done []
          | [_] => Done locations
          | _ =>
              let sorted_scores := TableExtractor.sorted Z.leb all_scores in
              match percentile_score percentile sorted_scores with
              | Failed e => Failed e
              | Done score_threshold =>
                  let score_threshold :=
                    if Qle_bool score_threshold 5 then 5%Q
                    else score_threshold in
                  Done (TableExtractor.sorted
                          (fun a b => score_of b <=? score_of a)
                          (filter (fun loc =>
                                     Qle_bool score_threshold
                                              (inject_Z (score_of loc)))
                                  locations))
              end
          end
      end
  end.

(** [location_extractor(text)]: [answer] is the outcome of the request, the
    parsed ["locations"] list or a failure. *)
Definition location_extractor (percentile : Z)
           (answer : string -> outcome (list location)) (text : string)
  : outcome (list location) :=
  match answer text with
  | Failed e => Failed e
  | Done locations => top_locations percentile locations
  end.

End Llm.

(* ================================================================== *)
(** ** main.py: extract_locations *)
(* ================================================================== *)

Module MainPipeline.

Import Llm.
Local Open Scope Z_scope.

(** [PostPaperLocationData], without the clock reading
    [extraction_time].  A score is [loc.get("importance_score")], [None]
    when the key is absent. *)
Record PostPaperLocationData : Type := LocationData {
  location_names : list string;
  location_frequencies : list Z;
  location_importance_scores : list (option Z);
  location_number : Z
}.

(** The local variables the loop over the parts fills. *)
Record collected : Type := Collected {
  seen_location_names : list string;
  original_location_names : list string;
  display_location_names : list string;
  found_locations : list location;
  importance_scores : list (option Z)
}.

Inductive failure : Type :=
| UnboundLocalError (name : string).

Definition is_seen (name : string) (seen : list string) : bool :=
  existsb (String.eqb name) seen.

(** [for loc in location_names] *)
Definition collect_location (st : collected) (loc : location) : collected :=
  match location_name loc with
  | Some name =>
      if negb (String.eqb name EmptyString)
         && negb (is_seen name (seen_location_names st))
      then
        let location_display :=
          match location_country loc with
          | Some country =>
              if String.eqb country EmptyString then name
              else (name ++ ", " ++ country)%string
          | None => name
          end in
        Collected (name :: seen_location_names st)
                  (original_location_names st ++ [name])
                  (display_location_names st ++ [location_display])
                  (found_locations st ++ [loc])
                  (importance_scores st ++ [importance_score loc])
      else st
  | None => st
  end.

(** [for part in extraction_text]: a failing part is skipped. *)
Definition collect_part (percentile : Z)
           (answer : string -> outcome (list location))
           (st : collected) (part : string) : collected :=
  match location_extractor percentile answer part with
  | Done location_names => fold_left collect_location location_names st
  | Failed _ => st
  end.

(** The whole loop over the parts, from the empty lists. *)
Definition collect_parts (percentile : Z)
           (answer : string -> outcome (list location))
           (extraction_text : list string) : collected :=
  fold_left (collect_part percentile answer) extraction_text
            (Collected [] [] [] [] []).

(** [frequencies_list]: the counts in the order of the names, or a list of
    ones when counting fails. *)
Definition frequencies_list_of (names : list string)
           (opened : result (list page)) : list Z :=
  match Frequencies.get_location_frequencies names opened with
  | Frequencies.Frequencies d =>
      map (fun name =>
             match Frequencies.dict_lookup name d with
             | Some v => v
             | None => 0
             end) names
  | _ => repeat 1 (List.length names)
  end.

(** [extract_locations(paper_path)]: [prepared] is the outcome of
    [prepare_text_for_extraction(paper_path)], [opened] the one of opening
    the file again for the frequencies. *)
Definition extract_locations (percentile : Z)
           (answer : string -> outcome (list location))
           (prepared : result (list string * Z))
           (opened : result (list page))
  : PostPaperLocationData * Z + failure :=
  match prepared with
  | Raise _ => inr (UnboundLocalError "display_location_names")
  | Ok (extraction_text, total_tokens) =>
      let st := collect_parts percentile answer extraction_text in
      let frequencies_list :=
        frequencies_list_of (original_location_names st) opened in
      inl (LocationData (display_location_names st)
                        frequencies_list
                        (importance_scores st)
                        (Z.of_nat (List.length (display_location_names st))),
           total_tokens)
  end.

End MainPipeline.


(* ================================================================== *)
(** ** Predicates and sample inputs used in the statements *)
(* ================================================================== *)

Module Samples.

Local Open Scope Z_scope.

(** Consecutive token ranges: each one starts [overlap] tokens before
    the end of the previous one, whose end is [prev_end]. *)
Fixpoint chained (overlap prev_end : Z) (ranges : list (Z * Z)) : Prop :=
  match ranges with
  | [] => True
  | (s, e) :: rest => s = prev_end - overlap /\ chained overlap e rest
  end.

(** A text of 29 characters. *)
Definition text29 : string := "abcdefghijklmnopqrstuvwxyz012".

(** Two keyword matches close to each other. *)
Definition near_text : string := "The Basin and Range province".

(** Two keyword matches 9002 characters apart: ["basin "], 9000 times
    ["x"], [" basin"]. *)
Definition far_text : string :=
  ("basin " ++ string_of_list_ascii (repeat "x"%char (Z.to_nat 9000))
   ++ " basin")%string.

(** Body words whose boxes follow each other: each box starts within 20
    units of the right edge of the one before (touching boxes do). *)
Fixpoint contiguous (ws : list word) : Prop :=
  match ws with
  | a :: ((b :: _) as rest) =>
      (Qabs (x1 a - x0 b) <= 20)%Q /\ contiguous rest
  | _ => True
  end.

(** A line of text at height 100 to 110: the heading, then ten touching
    body words that end at x = 350. *)
Definition heading : word := Word 50 80 110 90 "Abstract".
Definition body_front : list word :=
  [ Word 50 100 80 110 "We"; Word 80 100 110 110 "map";
    Word 110 100 140 110 "the"; Word 140 100 170 110 "granite";
    Word 170 100 200 110 "outcrops"; Word 200 100 230 110 "of";
    Word 230 100 260 110 "the"; Word 260 100 290 110 "northern";
    Word 290 100 320 110 "river" ].
Definition body_tenth : word := Word 320 100 350 110 "basin.".

(** The next section starts on the following line, at the left margin:
    300 units left of the tenth word, 2 units below its bottom edge. *)
Definition next_line_header : word := Word 50 112 130 122 "Introduction".

(** The next section starts after a blank line: 20 units below. *)
Definition spaced_header : word := Word 50 130 130 140 "Introduction".

(** The spans of the text blocks of a page, each with the direction of
    its line ([(1, 0)] when the line has none). *)
Definition text_spans (pg : page) : list ((Q * Q) * span) :=
  flat_map
    (fun b =>
       if (block_type b =? 0)%Z
       then flat_map
              (fun ln =>
                 map (fun sp =>
                        (match line_dir ln with
                         | Some d => d
                         | None => (1%Q, 0%Q)
                         end, sp))
                     (line_spans ln))
              (block_lines b)
       else [])
    (page_blocks pg).

(** The number of spans written in direction [(a, b)]. *)
Definition count_dir (a b : Q) (spans : list ((Q * Q) * span)) : Z :=
  Z.of_nat
    (List.length (filter (fun ds => TableExtractor.dir_is (fst ds) a b) spans)).

(** The table captions among the spans. *)
Definition captions (fullmatch : string -> bool)
           (spans : list ((Q * Q) * span)) : list ((Q * Q) * span) :=
  filter (fun ds => fullmatch (span_text (snd ds))) spans.

(** All four edges of the word's box strictly inside the table box. *)
Definition strictly_inside (w : word) (r : rect) : Prop :=
  (rx0 r < x0 w /\ ry0 r < y0 w /\ x1 w < rx1 r /\ y1 w < ry1 r)%Q.

(** The rule of the page filter in the words of the specification: the
    vertical position strictly between 5% and 95% of the page height, and
    the box strictly inside no table box. *)
Definition kept (page_height : Q) (boxes : list (rect * option Z)) (w : word)
  : Prop :=
  (page_height * (5 # 100) < y0 w /\ y0 w < page_height * (95 # 100))%Q
  /\ ~ exists b, In b boxes /\ strictly_inside w (fst b).

(** The same rule as a test. *)
Definition inside_box (w : word) (r : rect) : bool :=
  Qgtb (x0 w) (rx0 r) && Qgtb (y0 w) (ry0 r)
  && Qltb (x1 w) (rx1 r) && Qltb (y1 w) (ry1 r).

Definition keep (page_height : Q) (boxes : list (rect * option Z)) (w : word)
  : bool :=
  negb (existsb (fun b => inside_box w (fst b)) boxes)
  && (Qltb (TextExtractor.min_y_of page_height) (y0 w)
      && Qltb (y0 w) (TextExtractor.max_y_of page_height)).

(** Table boxes as [extract_tables] lists them. *)
Definition entries (boxes : list (rect * option Z))
  : list TableExtractor.table_entry :=
  map (fun b => TableExtractor.Box (fst b) (snd b)) boxes.

(** A page of 600 by 800 units with one table box, a word inside it, a
    word that touches its left edge, a word across its right edge and a
    word in the top margin. *)
Definition one_table : list (rect * option Z) :=
  [(Rect 100 200 500 400, Some 3%Z)].
Definition inside_word : word := Word 150 250 200 260 "cell".
Definition touching_word : word := Word 100 250 140 260 "edge".
Definition overlapping_word : word := Word 480 250 520 260 "across".
Definition margin_word : word := Word 150 30 200 40 "header".

(** A page with two captions and horizontal rules below each of them. *)
Definition ruled_page : page :=
  Page "Some text Table 1: data"
       [Block 0 [Line (Some (1, 0)%Q)
                      [Span "Table 1:" (Rect 50 100 90 110);
                       Span "data" (Rect 95 100 120 110)];
                 Line None [Span "Table 2" (Rect 50 400 90 410)]];
        Block 1 []]
       [[ItemLine (Rect 50 120 200 120); ItemLine (Rect 210 121 400 121);
         ItemRect (Rect 50 300 400 301); ItemLine (Rect 50 10 400 10);
         ItemOther; ItemRect (Rect 50 200 60 260)];
        [ItemLine (Rect 40 450 300 450); ItemLine (Rect 40 600 300 600)]]
       600 800 3
       [Word 60 150 80 160 "cell"; Word 60 350 80 360 "body";
        Word 60 500 80 510 "cell2"; Word 60 700 80 710 "tail"].

(** A rotated page: one vertical span that is a table caption. *)
Definition rotated_page : page :=
  Page "Table 1: sample sites"
       [Block 0 [Line (Some (0, -1)%Q) [Span "Table 1:" (Rect 40 700 52 760)];
                 Line (Some (0, -1)%Q) [Span "Site" (Rect 60 700 72 760)];
                 Line None [Span "12" (Rect 300 780 310 790)]]]
       [] 600 800 7
       [Word 40 700 52 760 "Table"; Word 60 700 72 760 "Site"].

(** A late page on which the references begin, and the page after it. *)
Definition references_page : page :=
  Page "Results are promising. References [1] A. Author"
       [] [] 600 800 16
       [ Word 50 100 90 110 "Results"; Word 95 100 120 110 "are";
         Word 125 100 180 110 "promising.";
         Word 50 130 120 140 "References";
         Word 50 150 70 160 "[1]"; Word 75 150 90 160 "A.";
         Word 95 150 140 160 "Author" ].
Definition following_page : page :=
  Page "[2] B. Author" [] [] 600 800 17
       [ Word 50 100 70 110 "[2]"; Word 75 100 90 110 "B.";
         Word 95 100 140 110 "Author" ].

(** A page without tables that carries the given words on one line. *)
Definition text_page (n : Z) (ws : list string) : page :=
  Page "" [] [] 600 800 n (map (fun s => Word 50 100 90 110 s) ws).

(** A document of 20 pages: a title page with an abstract, then pages 1 to
    19; page 10 mentions "References" in passing, page 16 is
    [references_page]. *)
Definition twenty_pages : list page :=
  Page "" [] [] 600 800 0 (heading :: body_front ++ [body_tenth; spaced_header])
  :: map (fun n =>
            if (n =? 10)%Z then text_page n ["See"; "References"; "below."]%string
            else if (n =? 16)%Z then references_page
            else text_page n ["body"]%string)
         [1; 2; 3; 4; 5; 6; 7; 8; 9; 10; 11; 12; 13; 14; 15; 16; 17; 18; 19]%Z.

(** [math.floor(n - math.log(n, 1.9))] read on the real numbers, where
    [math.log(n, 1.9)] is [ln n / ln 1.9]. *)
Definition threshold_formula (n : Z) : Z :=
  Zfloor (IZR n - ln (IZR n) / ln (19 / 10))%R.

(** The text window [text[start - window : end + window]] of a match,
    clipped to the text. *)
Definition window_start (window : Z) (m : Z * Z) : Z :=
  Z.max 0 (fst m - window).
Definition window_end (text : string) (window : Z) (m : Z * Z) : Z :=
  Z.min (Z.of_nat (String.length text)) (snd m + window).

End Samples.

(* ================================================================== *)
(** ** Further predicates used in the statements *)
(* ================================================================== *)

Module Reading.

Local Open Scope Z_scope.

(** The parts put one after the other, the first [overlap] tokens of every
    part after the first left out. *)
Definition strip_overlaps {A : Type} (overlap : Z) (parts : list (list A))
  : list A :=
  match parts with
  | [] => []
  | first :: rest => first ++ flat_map (skipn (Z.to_nat overlap)) rest
  end.

(** Does the character occur in the string? *)
Fixpoint occurs (c : ascii) (s : string) : bool :=
  match s with
  | EmptyString => false
  | String a rest => Ascii.eqb a c || occurs c rest
  end.

(** The regions of [_process_contexts] as intervals: the sweep with the
    open interval [current], on offsets instead of text slices. *)
Fixpoint merge_from (self : KeywordContext.KeywordContextFinder)
         (text : string) (matches : list (Z * Z)) (current : Z * Z)
  : list (Z * Z) :=
  match matches with
  | [] => [current]
  | m :: rest =>
      let c := KeywordContext.context_of self text m in
      if fst c <=? snd current
      then merge_from self text rest (fst current, Z.max (snd current) (snd c))
      else current :: merge_from self text rest c
  end.

Definition merged_regions (self : KeywordContext.KeywordContextFinder)
           (text : string) (matches : list (Z * Z)) : list (Z * Z) :=
  match matches with
  | [] => []
  | m :: rest => merge_from self text rest (KeywordContext.context_of self text m)
  end.

(** The text of a region, as it is put into the result. *)
Definition region_text (text : string) (region : Z * Z) : string :=
  KeywordContext.replace_newlines (str_slice text (fst region) (snd region)).

(** Matches listed by ascending start. *)
Fixpoint starts_ascend (ms : list (Z * Z)) : Prop :=
  match ms with
  | a :: ((b :: _) as rest) => fst a <= fst b /\ starts_ascend rest
  | _ => True
  end.

(** Regions that follow each other with a gap: each one ends before the
    next one starts. *)
Fixpoint separated (regions : list (Z * Z)) : Prop :=
  match regions with
  | a :: ((b :: _) as rest) => snd a < fst b /\ separated rest
  | _ => True
  end.

(** An interval of offsets inside a text of length [len]. *)
Definition within (len : Z) (m : Z * Z) : Prop :=
  0 <= fst m <= snd m /\ snd m <= len.

(** [s] is [t] with some characters deleted. *)
Inductive subseq : string -> string -> Prop :=
| subseq_nil : subseq EmptyString EmptyString
| subseq_keep (c : ascii) (s t : string) :
    subseq s t -> subseq (String c s) (String c t)
| subseq_drop (c : ascii) (s t : string) :
    subseq s t -> subseq s (String c t).

(** Does the string start with [k] digits? *)
Fixpoint starts_with_digits (k : nat) (s : string) : bool :=
  match k with
  | O => true
  | S k' =>
      match s with
      | String c rest => Re.is_digit c && starts_with_digits k' rest
      | EmptyString => false
      end
  end.

(** Does the string hold four digits in a row? *)
Fixpoint has_four_digits (s : string) : bool :=
  starts_with_digits 4 s
  || match s with
     | String _ rest => has_four_digits rest
     | EmptyString => false
     end.

(** Does the string hold no parenthesis? *)
Fixpoint no_parenthesis (s : string) : bool :=
  match s with
  | EmptyString => true
  | String c rest =>
      negb (Ascii.eqb c "(") && negb (Ascii.eqb c ")") && no_parenthesis rest
  end.

(** The words between the margins of a page of the given height. *)
Definition between_margins (page_height : Q) (w : word) : bool :=
  Qltb (TextExtractor.min_y_of page_height) (y0 w)
  && Qltb (y0 w) (TextExtractor.max_y_of page_height).

(** A rotated page one of whose words starts on the left edge of the
    page. *)
Definition rotated_page_with_edge_word : page :=
  Page "Table 1: sample sites"
       [Block 0 [Line (Some (0, -1)%Q) [Span "Table 1:" (Rect 40 700 52 760)]]]
       [] 600 800 1
       [Word 40 700 52 760 "Table"; Word 0 100 12 160 "Site"].

(** A page of plain text that mentions a table in passing. *)
Definition plain_page : page :=
  Page "as shown in Table 2 the samples"
       [Block 0 [Line None [Span "as shown in Table 2 the samples"
                                 (Rect 50 100 300 110)]]]
       [[ItemLine (Rect 50 300 400 300)]] 600 800 4
       [Word 50 20 70 30 "7"; Word 50 100 70 110 "as"; Word 75 100 110 110 "shown";
        Word 50 770 70 780 "footer"].

(** The digit counter of the citation pattern: does a run of four digits
    end somewhere in [s], [run] digits having just been read? *)
Fixpoint reaches_four (run : nat) (s : string) : bool :=
  match s with
  | EmptyString => false
  | String c rest =>
      let run' := if Re.is_digit c then S run else O in
      (4 <=? run')%nat || reaches_four run' rest
  end.

(** The matches of a location name on all pages of a document. *)
Definition total_matches (location : string) (pages : list page) : Z :=
  fold_right (fun pg total =>
                Frequencies.count_matches location (page_raw_text pg) + total)
             0 pages.

(** How many times a name is listed. *)
Definition listed (locations : list string) (location : string) : Z :=
  Z.of_nat (count_occ string_dec locations location).

(** A list in which each element is in relation [le] with the next. *)
Fixpoint ordered {A : Type} (le : A -> A -> bool) (l : list A) : Prop :=
  match l with
  | a :: ((b :: _) as rest) => le a b = true /\ ordered le rest
  | _ => True
  end.

(** Three answers of the model for one part. *)
Definition three_locations : list Llm.location :=
  [ Llm.Location (Some "Lisbon") (Some "Portugal") (Some 9);
    Llm.Location (Some "Europe") None (Some 3);
    Llm.Location (Some "Tagus Basin") (Some EmptyString) (Some 6) ]%string.

(** A document of two pages that names Lisbon three times. *)
Definition lisbon_pages : list page :=
  [ Page "Lisbon and the LISBON area" [] [] 600 800 0 [];
    Page "north of Lisbon; Lisbonne" [] [] 600 800 1 [] ].

(** The lists filled by the loop of [extract_locations] have one entry per
    collected name, no name is collected twice or empty, and the set of
    seen names holds the collected names. *)
Definition well_collected (st : MainPipeline.collected) : Prop :=
  List.length (MainPipeline.display_location_names st)
  = List.length (MainPipeline.original_location_names st)
  /\ List.length (MainPipeline.importance_scores st)
     = List.length (MainPipeline.original_location_names st)
  /\ List.length (MainPipeline.found_locations st)
     = List.length (MainPipeline.original_location_names st)
  /\ NoDup (MainPipeline.original_location_names st)
  /\ ~ In EmptyString (MainPipeline.original_location_names st)
  /\ forall name,
      MainPipeline.is_seen name (MainPipeline.seen_location_names st) = true
      <-> In name (MainPipeline.original_location_names st).

(** A model that answers the first part with [three_locations], the second
    with Lisbon again and one more place, and fails on every other part. *)
Definition sample_answer (part : string)
  : Llm.outcome (list Llm.location) :=
  if String.eqb part "part one" then Llm.Done three_locations
  else if String.eqb part "part two"
       then Llm.Done [ Llm.Location (Some "Lisbon") None (Some 8);
                       Llm.Location (Some "Sintra") (Some "Portugal")
                                    (Some 8) ]%string
       else Llm.Failed (Llm.RequestFailed "timeout").

(** A paper of two pages whose second page holds a keyword. *)
Definition basin_paper : list page :=
  [ Samples.text_page 0 ["Title"]%string;
    Samples.text_page 1 ["the"; "Tagus"; "basin"]%string ].

End Reading.

(* ================================================================== *)
(** * Properties *)
(* ================================================================== *)

(** ** Slices *)

Section SliceFacts.
Local Open Scope Z_scope.
Context {A : Type}.

Lemma norm_index_in_range (len i : Z) :
  0 <= i <= len -> norm_index len i = i.
Proof.
  intros H. unfold norm_index.
  destruct (Z.ltb_spec i 0); lia.
Qed.

Lemma slice_in_range (l : list A) (a b : Z) :
  0 <= a -> a <= b -> b <= Z.of_nat (List.length l) ->
  slice l a b = firstn (Z.to_nat (b - a)) (skipn (Z.to_nat a) l).
Proof.
  intros Ha Hab Hb. unfold slice.
  rewrite !norm_index_in_range by lia. reflexivity.
Qed.

Lemma slice_length (l : list A) (a b : Z) :
  0 <= a -> a <= b -> b <= Z.of_nat (List.length l) ->
  Z.of_nat (List.length (slice l a b)) = b - a.
Proof.
  intros Ha Hab Hb. rewrite slice_in_range by lia.
  rewrite length_firstn, length_skipn. lia.
Qed.

Lemma slice_all (l : list A) : slice l 0 (Z.of_nat (List.length l)) = l.
Proof.
  rewrite slice_in_range by lia.
  rewrite Z.sub_0_r, Nat2Z.id. simpl. apply firstn_all.
Qed.

Lemma slice_prefix (l1 l2 : list A) :
  slice (l1 ++ l2) 0 (Z.of_nat (List.length l1)) = l1.
Proof.
  rewrite slice_in_range by (rewrite ?length_app; lia).
  rewrite Z.sub_0_r, Nat2Z.id. simpl.
  rewrite firstn_app, firstn_all, Nat.sub_diag. simpl. apply app_nil_r.
Qed.
End SliceFacts.

(** ** The token chunker *)

Module ChunkerFacts.
Import Chunker Samples.
Local Open Scope Z_scope.

Lemma overlap_in_range_spec (f : Q) :
  overlap_in_range f = true <-> (0 <= f /\ f < 1)%Q.
Proof.
  unfold overlap_in_range, Qltb.
  rewrite andb_true_iff, negb_true_iff, Qle_bool_iff.
  split; intros [H0 H1]; split; auto.
  - apply Qnot_le_lt. intro H. apply Qle_bool_iff in H. congruence.
  - destruct (Qle_bool 1 f) eqn:E; auto.
    apply Qle_bool_iff in E. exfalso. apply (Qlt_not_le _ _ H1 E).
Qed.

Lemma valid_spec (c : config) :
  valid c = true <->
  0 < max_tokens_per_part c /\ (0 <= overlap_percentage c /\ overlap_percentage c < 1)%Q.
Proof.
  unfold valid. rewrite andb_true_iff, Z.ltb_lt, overlap_in_range_spec.
  tauto.
Qed.

(** [int(max * f)] lies in [0, max) for a valid configuration. *)
Lemma overlap_tokens_bounds (c : config) :
  valid c = true ->
  0 <= overlap_tokens_of c < max_tokens_per_part c.
Proof.
  intros Hv. apply valid_spec in Hv. destruct Hv as [HM [H0 H1]].
  unfold overlap_tokens_of, int_of_float.
  set (M := max_tokens_per_part c) in *.
  set (f := overlap_percentage c) in *.
  assert (HMq : (0 < inject_Z M)%Q).
  { change (inject_Z 0 < inject_Z M)%Q. rewrite <- Zlt_Qlt. exact HM. }
  assert (Hnn : (0 <= inject_Z M * f)%Q).
  { apply Qmult_le_0_compat; auto. apply Qlt_le_weak; auto. }
  assert (Hlt : (inject_Z M * f < inject_Z M)%Q).
  { rewrite <- (Qmult_1_r (inject_Z M)) at 2.
    apply Qmult_lt_l; auto. }
  assert (E : Qle_bool 0 (inject_Z M * f) = true) by (apply Qle_bool_iff; auto).
  rewrite E. split.
  - change 0 with (Qfloor 0). apply Qfloor_resp_le. exact Hnn.
  - rewrite Zlt_Qlt. eapply Qle_lt_trans; [apply Qfloor_le | exact Hlt].
Qed.

Section Arithmetic.
Variables T M o e n b : Z.
Hypothesis Ho : 0 <= o < M.
Hypothesis HT : M < T.
Hypothesis He : e = M - o.
Hypothesis Hn : n = (T - o + e - 1) / e.
Hypothesis Hb : b = (T + (n - 1) * o) / n.

Lemma num_parts_ceiling : T - o <= n * e /\ (n - 1) * e < T - o.
Proof.
  assert (0 < e) by lia.
  pose proof (Z.div_mod (T - o + e - 1) e ltac:(lia)) as Hd.
  pose proof (Z.mod_pos_bound (T - o + e - 1) e ltac:(lia)) as Hm.
  rewrite <- Hn in Hd.
  split; nia.
Qed.

Lemma num_parts_ge_2 : 2 <= n.
Proof.
  pose proof num_parts_ceiling as [H1 H2].
  assert (0 < e) by lia.
  assert (e < T - o) by lia.
  nia.
Qed.

Lemma balanced_bounds : o < b <= M.
Proof.
  pose proof num_parts_ceiling as [H1 H2].
  pose proof num_parts_ge_2 as Hn2.
  assert (0 < e) by lia.
  pose proof (Z.div_mod (T + (n - 1) * o) n ltac:(lia)) as Hd.
  pose proof (Z.mod_pos_bound (T + (n - 1) * o) n ltac:(lia)) as Hm.
  rewrite <- Hb in Hd.
  set (r := (T + (n - 1) * o) mod n) in *.
  assert (Hle : b <= M) by nia.
  split; [|exact Hle].
  assert (n - 1 < T - o) by nia.
  nia.
Qed.
End Arithmetic.

Section LoopFacts.
Variables T o n b : Z.
Hypothesis Ho : 0 <= o < b.

(** The loop from iteration [i] on, entered with tokens left. *)
Lemma part_ranges_spec (remaining : nat) :
  forall i start,
    (0 < remaining)%nat -> i + Z.of_nat remaining = n ->
    0 <= start < T ->
    exists e rest,
      part_ranges T o n b remaining i start = (start, e) :: rest
      /\ snd (last (part_ranges T o n b remaining i start) (0, 0)) = T
      /\ chained o e rest
      /\ Forall (fun r => 0 <= fst r < snd r /\ snd r <= T)
                (part_ranges T o n b remaining i start)
      /\ Forall (fun r => snd r - fst r <= b)
                (removelast (part_ranges T o n b remaining i start)).
Proof.
  induction remaining as [|r IH]; intros i start Hr Hi Hs; [lia|].
  cbn [part_ranges].
  set (e := if i =? n - 1 then T else Z.min (start + b) T).
  assert (He : start < e <= T).
  { subst e. destruct (Z.eqb_spec i (n - 1)); lia. }
  destruct (Z.leb_spec T e) as [Hbrk|Hgo].
  - exists e, []. assert (e = T) by lia.
    repeat split; simpl; auto.
    constructor; [simpl; lia | constructor].
  - assert (Hi' : i <> n - 1).
    { intro Heq. subst e. rewrite (proj2 (Z.eqb_eq _ _) Heq) in Hgo. lia. }
    assert (Ee : e = start + b).
    { subst e. rewrite (proj2 (Z.eqb_neq _ _) Hi') in *. lia. }
    assert (Hmax : Z.max 0 (e - o) = e - o) by lia.
    rewrite Hmax.
    destruct (IH (i + 1) (e - o)) as (e' & rest' & E & Hlast & Hch & Hall & Hrl);
      try lia.
    exists e, ((e - o, e') :: rest').
    rewrite E in *.
    repeat split; auto.
    + constructor; [simpl; lia | exact Hall].
    + cbn [removelast]. constructor; [simpl; lia | exact Hrl].
Qed.
End LoopFacts.

(** The ranges of a text longer than the maximum. *)
Lemma token_ranges_spec (c : config) (T : Z) :
  valid c = true -> max_tokens_per_part c < T ->
  exists e rest,
    token_ranges c T = (0, e) :: rest
    /\ snd (last (token_ranges c T) (0, 0)) = T
    /\ chained (overlap_tokens_of c) e rest
    /\ Forall (fun r => 0 <= fst r < snd r /\ snd r <= T) (token_ranges c T)
    /\ Forall (fun r => snd r - fst r <= max_tokens_per_part c)
              (removelast (token_ranges c T)).
Proof.
  intros Hv HT.
  pose proof (overlap_tokens_bounds c Hv) as Ho.
  unfold token_ranges.
  set (o := overlap_tokens_of c) in *.
  set (n := num_parts_of c T).
  set (b := balanced_tokens_per_part_of c T).
  assert (Hn : 2 <= n).
  { apply (num_parts_ge_2 (T:=T) (M:=max_tokens_per_part c) (o:=o)
             (e:=max_tokens_per_part c - o)); auto. }
  assert (Hb : o < b <= max_tokens_per_part c).
  { apply (balanced_bounds (T:=T) (M:=max_tokens_per_part c) (o:=o)
             (e:=max_tokens_per_part c - o) (n:=n)); auto. }
  assert (Hob : 0 <= o < b) by lia.
  destruct (@part_ranges_spec T o n b Hob (Z.to_nat n) 0 0)
    as (e & rest & E & Hlast & Hch & Hall & Hrl); try lia.
  exists e, rest. repeat split; auto.
  eapply Forall_impl; [|exact Hrl]. simpl. intros; lia.
Qed.



(** [C1] The bound fails on the code: with a maximum of 10 tokens, no
    overlap and a text of 29 tokens, the parts hold 9, 9 and 11 tokens;
    the last part, which takes all remaining tokens, is over the
    maximum. *)
Theorem last_part_exceeds_maximum :
  let c := Config 10 0 in
  valid c = true
  /\ Z.of_nat (List.length (char_encode text29)) = 29
  /\ split_text_into_balanced_parts char_encode char_decode c text29
     = Ok ["abcdefghi"; "jklmnopqr"; "stuvwxyz012"]%string
  /\ map (fun part => Z.of_nat (List.length part))
         (token_parts c (char_encode text29)) = [9; 9; 11]
  /\ Exists (fun part => max_tokens_per_part c < Z.of_nat (List.length part))
            (token_parts c (char_encode text29)).
Proof.
  cbv zeta. repeat split; try (vm_compute; reflexivity).
  apply Exists_exists. exists (char_encode "stuvwxyz012").
  split; [vm_compute; auto | vm_compute; reflexivity].
Qed.

(** Every part but the last one is within the maximum. *)
Lemma parts_before_last_bounded
      (token : Type) (c : config) (all_tokens : list token) :
  valid c = true ->
  max_tokens_per_part c < Z.of_nat (List.length all_tokens) ->
  Forall (fun part => Z.of_nat (List.length part) <= max_tokens_per_part c)
         (removelast (token_parts c all_tokens)).
Proof.
  intros Hv HT.
  destruct (token_ranges_spec c Hv HT) as (e & rest & _ & _ & _ & Ha & Hr).
  unfold token_parts.
  set (rs := token_ranges c (Z.of_nat (List.length all_tokens))) in *.
  clearbody rs. clear e rest.
  induction rs as [|r rs IH]; [constructor|].
  inversion Ha as [|? ? Hr0 Ha']; subst.
  destruct rs as [|r' rs']; [constructor|].
  inversion Hr as [|? ? Hb Hr']; subst.
  change (removelast (map ?f (r :: r' :: rs')))
    with (f r :: removelast (map f (r' :: rs'))).
  constructor; [|apply IH; auto].
  rewrite slice_length; lia.
Qed.

(** The empty text is returned before the configuration is looked at. *)
Lemma empty_text_skips_validation :
  ~ (forall (c : config) (text : string),
        valid c = false ->
        exists e, split_text_into_balanced_parts char_encode char_decode c text
                  = Raise e).
Proof.
  intros H.
  destruct (H (Config 0 (15 # 100)) EmptyString eq_refl) as [e He].
  discriminate He.
Qed.

(** [C2, amended] With an invalid configuration, every non-empty text
    raises [ValueError] before the tokenizer is used (the message is the
    one of the first failed test), the only caller passes the exception
    on unchanged, and the empty text returns the empty list. *)
Theorem invalid_configuration_raises
        (token : Type) (encode : string -> list token)
        (decode : list token -> string) (c : config) (text : string) :
  valid c = false ->
  let error := if max_tokens_per_part c <=? 0 then err_max else err_overlap in
  split_text_into_balanced_parts encode decode c EmptyString = Ok []
  /\ (text <> EmptyString ->
      split_text_into_balanced_parts encode decode c text = Raise error
      /\ forall part_size append_abstract abstract body,
          KeywordContext.find_text_surrounding_keywords part_size body = text ->
          KeywordContext.split_text_into_parts encode decode c part_size
            append_abstract (abstract, body) = Raise error).
Proof.
  intros Hv error. split; [reflexivity|]. intros Hne.
  assert (E : split_text_into_balanced_parts encode decode c text = Raise error).
  { unfold split_text_into_balanced_parts, error.
    destruct text; [congruence|].
    unfold valid in Hv.
    destruct (Z.leb_spec (max_tokens_per_part c) 0); [reflexivity|].
    destruct (Z.ltb_spec 0 (max_tokens_per_part c)); [|lia].
    simpl in Hv. rewrite Hv. reflexivity. }
  split; [exact E|].
  intros part_size append_abstract abstract body Hw.
  unfold KeywordContext.split_text_into_parts. cbn [fst snd].
  rewrite Hw, E. reflexivity.
Qed.

Lemma invalid_configuration_raises_witness :
  split_text_into_balanced_parts char_encode char_decode
    (Config 10 (3 # 2)) text29 = Raise err_overlap
  /\ split_text_into_balanced_parts char_encode char_decode
       (Config (-5) (15 # 100)) text29 = Raise err_max.
Proof.
  split.
  - exact (proj1 (proj2 (@invalid_configuration_raises ascii char_encode
             char_decode (Config 10 (3 # 2)) text29 eq_refl)
             ltac:(discriminate))).
  - exact (proj1 (proj2 (@invalid_configuration_raises ascii char_encode
             char_decode (Config (-5) (15 # 100)) text29 eq_refl)
             ltac:(discriminate))).
Defined.

End ChunkerFacts.

(** ** Keyword context windows *)

Module KeywordContextFacts.
Import KeywordContext Samples.
Local Open Scope Z_scope.

(** The empty text has no word boundary, hence no match. *)
Lemma finditer_empty (p : Re.pattern) : Re.finditer p EmptyString = [].
Proof. reflexivity. Qed.

(** [C4] The constructor stores 4000 whatever window it is given, so two
    finders built from the same keywords with different window arguments
    return the same contexts on every text. *)
Theorem window_argument_is_dead
        (keywords : list string) (text : string) (w1 w2 : window_arg) :
  window (init keywords w1) = 4000
  /\ init keywords w1 = init keywords w2
  /\ find_contexts (init keywords w1) text
     = find_contexts (init keywords w2) text.
Proof. repeat split. Qed.

(** [C8] With no match the result is the empty string.  With exactly two
    matches: when the second window starts at or before the end of the
    first, the result is the one region from the start of the first
    window to the larger of the two ends; otherwise it is the two window
    texts joined by a single space (newlines in the regions are turned
    into spaces). *)
Theorem two_matches_merge_or_join
        (self : KeywordContextFinder) (text : string) :
  (Re.finditer (pattern self) text = [] ->
   find_contexts self text = EmptyString)
  /\ (forall m1 m2 : Z * Z,
        Re.finditer (pattern self) text = [m1; m2] ->
        let w := window self in
        (window_start w m2 <= window_end text w m1 ->
         find_contexts self text
         = replace_newlines
             (str_slice text (window_start w m1)
                        (Z.max (window_end text w m1) (window_end text w m2))))
        /\ (window_end text w m1 < window_start w m2 ->
            find_contexts self text
            = (replace_newlines
                 (str_slice text (window_start w m1) (window_end text w m1))
               ++ " "
               ++ replace_newlines
                    (str_slice text (window_start w m2) (window_end text w m2)))%string)).
Proof.
  split.
  - intros H. unfold find_contexts. destruct text; [reflexivity|].
    rewrite H. reflexivity.
  - intros m1 m2 H w.
    assert (E : find_contexts self text = _process_contexts self text [m1; m2]).
    { unfold find_contexts. destruct text as [|c t].
      - rewrite finditer_empty in H. discriminate.
      - rewrite H. reflexivity. }
    rewrite E. unfold _process_contexts. cbn [sweep]. unfold context_of.
    fold (window_start (window self) m1) (window_end text (window self) m1).
    fold (window_start (window self) m2) (window_end text (window self) m2).
    fold w.
    split; intros Hc.
    + destruct (Z.leb_spec (window_start w m2) (window_end text w m1)); [|lia].
      reflexivity.
    + destruct (Z.leb_spec (window_start w m2) (window_end text w m1)); [lia|].
      reflexivity.
Qed.

Lemma two_matches_merge_or_join_witness :
  find_contexts (init ["basin"; "range"]%string WNone) near_text = near_text
  /\ Z.of_nat (String.length
                 (find_contexts (init ["basin"]%string WNone) far_text))
     = 8011
  /\ find_contexts (init ["basin"]%string WNone) "no keyword here"
     = EmptyString.
Proof.
  split; [|split].
  - destruct (proj2 (two_matches_merge_or_join
                       (init ["basin"; "range"]%string WNone) near_text)
                    (4, 9) (14, 19) ltac:(vm_compute; reflexivity)) as [H _].
    rewrite (H ltac:(vm_compute; discriminate)). vm_compute. reflexivity.
  - destruct (proj2 (two_matches_merge_or_join
                       (init ["basin"]%string WNone) far_text)
                    (0, 5) (9007, 9012) ltac:(vm_compute; reflexivity)) as [_ H].
    rewrite (H ltac:(vm_compute; reflexivity)). vm_compute. reflexivity.
  - apply (proj1 (two_matches_merge_or_join
                    (init ["basin"]%string WNone) "no keyword here")).
    vm_compute. reflexivity.
Defined.

End KeywordContextFacts.

(** ** The abstract extractor *)

Module AbstractFacts.
Import AbstractExtractor Samples.
Local Open Scope Z_scope.

Lemma Qltb_true (x y : Q) : Qltb x y = true <-> (x < y)%Q.
Proof.
  unfold Qltb. rewrite negb_true_iff. split; intros H.
  - apply Qnot_le_lt. intro Hle. apply Qle_bool_iff in Hle. congruence.
  - destruct (Qle_bool y x) eqn:E; auto.
    apply Qle_bool_iff in E. exfalso. apply (Qlt_not_le _ _ H E).
Qed.

Lemma Qltb_false (x y : Q) : Qltb x y = false <-> (y <= x)%Q.
Proof.
  unfold Qltb. rewrite negb_false_iff. apply Qle_bool_iff.
Qed.

Lemma slice_tail {A} (a : A) (l : list A) :
  slice (a :: l) (0 + 1) (Z.of_nat (List.length (a :: l))) = l.
Proof.
  rewrite slice_in_range by (cbn [List.length]; lia).
  cbn [List.length].
  replace (Z.to_nat (0 + 1)) with 1%nat by lia.
  replace (Z.to_nat (Z.of_nat (S (List.length l)) - (0 + 1)))
    with (List.length l) by lia.
  simpl. apply firstn_all.
Qed.

Lemma bbox_scan_step (a b : word) (rest : list word) (i : Z) :
  bbox_scan (a :: b :: rest) i
  = if discontinuity a b then Some i else bbox_scan (b :: rest) (i + 1).
Proof. reflexivity. Qed.

(** The scan passes the body and stops at its last word. *)
Lemma bbox_scan_body (front : list word) (tenth next : word) :
  forall i,
    contiguous (front ++ [tenth]) ->
    discontinuity tenth next = true ->
    bbox_scan (front ++ [tenth; next]) i
    = Some (i + Z.of_nat (List.length front)).
Proof.
  induction front as [|a front IH]; intros i Hc Hd.
  - simpl. rewrite Hd. f_equal. lia.
  - assert (Hstep : exists b rest, (front ++ [tenth] = b :: rest
              /\ front ++ [tenth; next] = b :: rest ++ [next])%list).
    { destruct front as [|b f].
      - exists tenth, []. split; reflexivity.
      - exists b, (f ++ [tenth])%list. split; [reflexivity|].
        simpl. rewrite <- app_assoc. reflexivity. }
    destruct Hstep as (b & rest & E1 & E2).
    change ((a :: front) ++ [tenth; next])%list
      with (a :: (front ++ [tenth; next]))%list.
    change ((a :: front) ++ [tenth])%list
      with (a :: (front ++ [tenth]))%list in Hc.
    pose proof (IH (i + 1)) as IH'.
    rewrite E2 in *. rewrite E1 in *.
    cbn [contiguous] in Hc. destruct Hc as [Hgap Hc].
    rewrite bbox_scan_step.
    assert (Hno : discontinuity a b = false).
    { unfold discontinuity, Qgtb.
      rewrite (proj2 (Qltb_false 20 (Qabs (x1 a - x0 b))) Hgap).
      reflexivity. }
    rewrite Hno. rewrite IH' by auto.
    f_equal. cbn [List.length]. lia.
Qed.

(** The claim as it is written fails: the header of the next section on
    the following line is 300 units left of the tenth word's right edge,
    but only 2 units below its bottom edge, and is taken into the
    abstract. *)
Lemma horizontal_gap_alone_does_not_end_abstract :
  text heading = "Abstract"%string
  /\ List.length (body_front ++ [body_tenth]) = 10%nat
  /\ contiguous (body_front ++ [body_tenth])
  /\ (20 < Qabs (x1 body_tenth - x0 next_line_header))%Q
  /\ abstract_extractor (heading :: body_front ++ [body_tenth; next_line_header])
     = "We map the granite outcrops of the northern river basin. Introduction"%string
  /\ abstract_extractor (heading :: body_front ++ [body_tenth; next_line_header])
     <> join " " (map text (body_front ++ [body_tenth])).
Proof.
  repeat split; vm_compute; congruence.
Qed.

(** [C5, amended] For a word list made of a word "Abstract", body words
    with contiguous boxes, and a next word that is both more than 20
    units away horizontally from the right edge of the last body word
    and more than 5 units away vertically from its bottom edge, the
    extractor returns the body words joined by spaces. *)
Theorem abstract_ends_at_discontinuity
        (head : word) (front : list word) (tenth next : word) :
  text head = "Abstract"%string ->
  contiguous (front ++ [tenth]) ->
  (20 < Qabs (x1 tenth - x0 next))%Q ->
  (5 < Qabs (y0 next - y1 tenth))%Q ->
  abstract_extractor (head :: front ++ [tenth; next])
  = join " " (map text (front ++ [tenth])).
Proof.
  intros Hh Hc Hx Hy.
  assert (Hd : discontinuity tenth next = true).
  { unfold discontinuity, Qgtb.
    rewrite (proj2 (Qltb_true _ _) Hx), (proj2 (Qltb_true _ _) Hy).
    reflexivity. }
  unfold abstract_extractor.
  assert (Hs : find_abstract_start ["abstract"; "resumen"]%string
                 (head :: front ++ [tenth; next]) = Some 0).
  { cbn [find_abstract_start find_keyword_word]. rewrite Hh. reflexivity. }
  rewrite Hs. rewrite slice_tail.
  unfold bbox_calculator. rewrite (@bbox_scan_body front tenth next 0 Hc Hd).
  replace (front ++ [tenth; next])%list
    with ((front ++ [tenth]) ++ [next])%list
    by (rewrite <- app_assoc; reflexivity).
  replace (0 + Z.of_nat (List.length front) + 1)
    with (Z.of_nat (List.length (front ++ [tenth])))
    by (rewrite length_app; cbn [List.length]; lia).
  rewrite slice_prefix. reflexivity.
Qed.

Lemma abstract_ends_at_discontinuity_witness :
  abstract_extractor (heading :: body_front ++ [body_tenth; spaced_header])
  = "We map the granite outcrops of the northern river basin."%string.
Proof.
  rewrite (@abstract_ends_at_discontinuity heading body_front body_tenth
             spaced_header).
  - vm_compute. reflexivity.
  - reflexivity.
  - vm_compute. repeat split; discriminate.
  - vm_compute. reflexivity.
  - vm_compute. reflexivity.
Defined.

End AbstractFacts.

(** ** Tables and the page filter *)

Module PageFilterFacts.
Import TableExtractor TextExtractor Samples AbstractFacts.
Local Open Scope Z_scope.

(** The detector on the ruled sample page: one box per caption, from the
    first rule below the caption to the last one, and the words strictly
    inside a box are filtered out. *)
Lemma tables_of_ruled_page :
  extract_tables table_pattern_fullmatch ruled_page
  = Ok (Some [Box (Rect 49 119 401 299) (Some 3);
              Box (Rect 39 449 301 599) (Some 3)])
  /\ process_page ruled_page (page_words ruled_page)
     = Ok ["body"; "tail"]%string.
Proof. split; vm_compute; reflexivity. Qed.

Lemma inside_box_spec (w : word) (r : rect) :
  inside_box w r = true <-> strictly_inside w r.
Proof.
  unfold inside_box, strictly_inside, Qgtb.
  rewrite !andb_true_iff, !Qltb_true. tauto.
Qed.

Lemma is_word_inside_boxes (w : word) (boxes : list (rect * option Z)) :
  is_word_inside_any_table w (entries boxes)
  = Ok (existsb (fun b => inside_box w (fst b)) boxes).
Proof.
  induction boxes as [|b boxes IH]; [reflexivity|].
  cbn [entries map is_word_inside_any_table existsb].
  fold (entries boxes). fold (inside_box w (fst b)).
  destruct (inside_box w (fst b)); [reflexivity|exact IH].
Qed.

Lemma keep_spec (h : Q) (boxes : list (rect * option Z)) (w : word) :
  keep h boxes w = true <-> kept h boxes w.
Proof.
  unfold keep, kept, min_y_of, max_y_of.
  rewrite !andb_true_iff, !Qltb_true, negb_true_iff.
  split; intros [H1 H2]; split; auto.
  - intros (b & Hin & Hs).
    assert (existsb (fun b => inside_box w (fst b)) boxes = true).
    { apply existsb_exists. exists b. split; auto.
      apply inside_box_spec; auto. }
    congruence.
  - destruct (existsb _ boxes) eqn:E; auto.
    exfalso. apply H2. apply existsb_exists in E.
    destruct E as (b & Hin & Hb). exists b. split; auto.
    apply inside_box_spec; auto.
Qed.

(** [C9] Against a list of table boxes, the page filter returns the texts
    of exactly the words that are kept by the rule: vertical position
    strictly between 5% and 95% of the page height, and box strictly
    inside no table box.  In particular a word with one edge on or
    outside every table box stays when it is between the margins. *)
Theorem page_filter_keeps_exactly
        (page_height : Q) (boxes : list (rect * option Z)) (words : list word) :
  exists keep_word : word -> bool,
    (forall w, keep_word w = true <-> kept page_height boxes w)
    /\ process_page_with_tables words (entries boxes)
         (min_y_of page_height) (max_y_of page_height)
       = Ok (map text (filter keep_word words))
    /\ (forall w,
          (forall b, In b boxes ->
                     (x0 w <= rx0 (fst b) \/ y0 w <= ry0 (fst b)
                      \/ rx1 (fst b) <= x1 w \/ ry1 (fst b) <= y1 w)%Q) ->
          (page_height * (5 # 100) < y0 w /\ y0 w < page_height * (95 # 100))%Q ->
          keep_word w = true).
Proof.
  exists (keep page_height boxes). split; [apply keep_spec|]. split.
  - induction words as [|w words IH]; [reflexivity|].
    cbn [process_page_with_tables filter].
    rewrite is_word_inside_boxes. cbn [bind]. rewrite IH. cbn [bind].
    fold (keep page_height boxes w).
    destruct (keep page_height boxes w); reflexivity.
  - intros w Hedge Hm. apply keep_spec. split; [exact Hm|].
    intros (b & Hin & Hx0 & Hy0 & Hx1 & Hy1).
    destruct (Hedge b Hin) as [H|[H|[H|H]]].
    + exact (Qlt_not_le _ _ Hx0 H).
    + exact (Qlt_not_le _ _ Hy0 H).
    + exact (Qlt_not_le _ _ Hx1 H).
    + exact (Qlt_not_le _ _ Hy1 H).
Qed.

(** The four sample words on the sample page: only the word strictly
    inside the table box and the word in the margin are dropped. *)
Lemma page_filter_on_samples :
  process_page_with_tables
    [inside_word; touching_word; overlapping_word; margin_word]
    (entries one_table) (min_y_of 800) (max_y_of 800)
  = Ok ["edge"; "across"]%string.
Proof. vm_compute. reflexivity. Qed.

Lemma page_filter_keeps_exactly_witness :
  process_page_with_tables [touching_word] (entries one_table)
    (min_y_of 800) (max_y_of 800)
  = Ok ["edge"]%string.
Proof.
  destruct (page_filter_keeps_exactly 800 one_table [touching_word])
    as (keep_word & _ & E & Hedge).
  rewrite E. cbn [filter].
  rewrite (Hedge touching_word).
  - reflexivity.
  - intros b [<-|[]]. left. vm_compute. discriminate.
  - split; vm_compute; reflexivity.
Defined.

(** The scan of the blocks counts the horizontal and the vertical spans
    and collects the captions. *)
Lemma fold_scan_span (fullmatch : string -> bool) (pg : page)
      (spans : list ((Q * Q) * span)) :
  forall st,
    fold_left (fun st ds => scan_span fullmatch pg (fst ds) st (snd ds)) spans st
    = Counts (horizontal_count st + count_dir 1 0 spans)
             (vertical_count st + count_dir 0 (-1) spans)
             (table_coordinates st
              ++ map (fun ds => TableCoord (span_text (snd ds))
                                           (ry0 (span_bbox (snd ds)))
                                           (page_number pg))
                     (captions fullmatch spans)).
Proof.
  unfold count_dir, captions.
  induction spans as [|[d sp] spans IH]; intros [h v tc].
  - cbn. rewrite !Z.add_0_r, app_nil_r. reflexivity.
  - cbn [fold_left fst snd]. rewrite IH. clear IH.
    unfold scan_span. cbn [filter fst snd horizontal_count vertical_count
                             table_coordinates].
    assert (Hex : dir_is d 1 0 = true -> dir_is d 0 (-1) = false).
    { unfold dir_is. intros H. apply andb_true_iff in H as [H _].
      destruct (Qeq_bool (fst d) 0) eqn:E; [|reflexivity].
      apply Qeq_bool_iff in H, E. rewrite H in E. discriminate E. }
    destruct (dir_is d 1 0) eqn:E1.
    + rewrite (Hex eq_refl).
      destruct (fullmatch (span_text sp));
        cbn [horizontal_count vertical_count table_coordinates List.length map];
        rewrite <- ?app_assoc; f_equal; cbn [app]; lia.
    + destruct (dir_is d 0 (-1));
        destruct (fullmatch (span_text sp));
        cbn [horizontal_count vertical_count table_coordinates List.length map];
        rewrite <- ?app_assoc; f_equal; cbn [app]; lia.
Qed.

Lemma fold_left_flat_map {A B S : Type} (f : S -> B -> S) (g : A -> list B)
      (l : list A) :
  forall s,
    fold_left f (flat_map g l) s
    = fold_left (fun s a => fold_left f (g a) s) l s.
Proof.
  induction l as [|a l IH]; intros s; [reflexivity|].
  cbn [flat_map fold_left]. rewrite fold_left_app. apply IH.
Qed.

Lemma fold_left_over_map {A B S : Type} (f : S -> B -> S) (g : A -> B)
      (l : list A) :
  forall s, fold_left f (map g l) s = fold_left (fun s a => f s (g a)) l s.
Proof.
  induction l as [|a l IH]; intros s; [reflexivity|]. cbn. apply IH.
Qed.

Lemma scan_page_spec (fullmatch : string -> bool) (pg : page) :
  scan_page fullmatch pg
  = Counts (count_dir 1 0 (text_spans pg))
           (count_dir 0 (-1) (text_spans pg))
           (map (fun ds => TableCoord (span_text (snd ds))
                                      (ry0 (span_bbox (snd ds)))
                                      (page_number pg))
                (captions fullmatch (text_spans pg))).
Proof.
  transitivity
    (fold_left (fun st ds => scan_span fullmatch pg (fst ds) st (snd ds))
               (text_spans pg) (Counts 0 0 []));
    [|rewrite fold_scan_span; reflexivity].
  unfold scan_page, text_spans.
  rewrite fold_left_flat_map.
  generalize (Counts 0 0 []).
  induction (page_blocks pg) as [|b bs IH]; intros st; [reflexivity|].
  cbn [fold_left]. rewrite <- IH. f_equal.
  unfold scan_block. destruct (block_type b =? 0); [|reflexivity].
  rewrite fold_left_flat_map.
  generalize st. clear.
  induction (block_lines b) as [|ln lns IH]; intros st; [reflexivity|].
  cbn [fold_left]. rewrite <- IH. f_equal.
  unfold scan_line. rewrite fold_left_over_map. reflexivity.
Qed.

(** Against the marker of a rotated page every word is either strictly
    inside the page rectangle, and dropped, or makes the test of the
    second entry raise. *)
Lemma marker_drops_or_raises (words : list word) (w h min_y max_y : Q) (n : Z) :
  process_page_with_tables words [Box (Rect 0 0 w h) None; Num n] min_y max_y
  = Ok []
  \/ exists msg,
      process_page_with_tables words [Box (Rect 0 0 w h) None; Num n]
        min_y max_y = Raise (TypeError msg).
Proof.
  induction words as [|wd words IH]; [left; reflexivity|].
  cbn [process_page_with_tables is_word_inside_any_table rx0 ry0 rx1 ry1].
  destruct (Qgtb (x0 wd) 0 && Qgtb (y0 wd) 0 && Qltb (x1 wd) w && Qltb (y1 wd) h).
  - cbn [bind]. destruct IH as [E|[msg E]]; rewrite E; cbn [bind negb andb].
    + left; reflexivity.
    + right; eexists; reflexivity.
  - right. eexists. reflexivity.
Qed.

(** [C3] On a page whose raw text contains "Table", with at least one
    span that is a table caption and strictly more spans written
    vertically (direction (0, -1)) than horizontally (direction (1, 0)),
    [extract_tables] returns the full-page marker, and no word of the page
    reaches the document body: the page filter returns no word or raises,
    the regular step leaves the collected text unchanged, and the checked
    step leaves it unchanged or ends the extraction with an exception. *)
Theorem vertical_page_is_discarded (pg : page) :
  contains "Table" (page_raw_text pg) = true ->
  count_dir 1 0 (text_spans pg) < count_dir 0 (-1) (text_spans pg) ->
  captions table_pattern_fullmatch (text_spans pg) <> [] ->
  extract_tables table_pattern_fullmatch pg
  = Ok (Some [Box (Rect 0 0 (page_width pg) (page_height pg)) None;
              Num (page_number pg)])
  /\ (forall words,
        process_page pg words = Ok []
        \/ exists msg, process_page pg words = Raise (TypeError msg))
  /\ (forall treated_text,
        regular_step pg treated_text = Continue treated_text)
  /\ (forall treated_text,
        checked_step pg treated_text = Continue treated_text
        \/ exists e, checked_step pg treated_text = Abort e).
Proof.
  intros Ht Hv Ha.
  assert (E : extract_tables table_pattern_fullmatch pg
              = Ok (Some [Box (Rect 0 0 (page_width pg) (page_height pg)) None;
                          Num (page_number pg)])).
  { unfold extract_tables, extract_table_data. rewrite Ht. cbn [negb].
    rewrite scan_page_spec.
    cbn [horizontal_count vertical_count table_coordinates].
    destruct (Z.ltb_spec (count_dir 1 0 (text_spans pg))
                         (count_dir 0 (-1) (text_spans pg))); [|lia].
    destruct (captions table_pattern_fullmatch (text_spans pg));
      [congruence|reflexivity]. }
  assert (P : forall words,
             process_page pg words = Ok []
             \/ exists msg, process_page pg words = Raise (TypeError msg)).
  { intros words. unfold process_page. rewrite E. cbn [bind].
    apply marker_drops_or_raises. }
  split; [exact E|]. split; [exact P|]. split.
  - intros treated. unfold regular_step.
    destruct (P (page_words pg)) as [H|[msg H]]; rewrite H; reflexivity.
  - intros treated. unfold checked_step, regular_step.
    destruct (P (page_words pg)) as [H|[msg H]]; rewrite H.
    + left. reflexivity.
    + right. eexists. reflexivity.
Qed.

Lemma vertical_page_is_discarded_witness :
  extract_tables table_pattern_fullmatch rotated_page
  = Ok (Some [Box (Rect 0 0 600 800) None; Num 7])
  /\ regular_step rotated_page [["earlier page"%string]]
     = Continue [["earlier page"%string]].
Proof.
  destruct (@vertical_page_is_discarded rotated_page)
    as (E & _ & R & _).
  - vm_compute. reflexivity.
  - vm_compute. reflexivity.
  - vm_compute. discriminate.
  - split; [exact E | apply R].
Defined.

End PageFilterFacts.

(** ** The section trimmer: the page threshold *)

Module ThresholdFacts.
Import TextExtractor Samples.

Section IntegerSearch.
Local Open Scope Z_scope.

(** [1.9 ^ m >= m], on integers. *)
Lemma power_dominates (m : nat) :
  (1 <= m)%nat -> Z.of_nat m * 10 ^ Z.of_nat m <= 19 ^ Z.of_nat m.
Proof.
  intros Hm.
  destruct m as [|m]; [lia|]. clear Hm.
  destruct m as [|m]; [vm_compute; discriminate|].
  induction m as [|m IH]; [vm_compute; discriminate|].
  replace (Z.of_nat (S (S (S m)))) with (Z.succ (Z.of_nat (S (S m)))) by lia.
  rewrite !Z.pow_succ_r by lia.
  assert (0 < 10 ^ Z.of_nat (S (S m))) by (apply Z.pow_pos_nonneg; lia).
  assert (2 <= Z.of_nat (S (S m))) by lia.
  nia.
Qed.

Lemma log_search_spec (n : Z) (fuel : nat) :
  forall k,
    0 <= k ->
    (forall j, 0 <= j < k -> 19 ^ j < n * 10 ^ j) ->
    n * 10 ^ (k + Z.of_nat fuel) <= 19 ^ (k + Z.of_nat fuel) ->
    k <= log_search fuel k n
    /\ n * 10 ^ log_search fuel k n <= 19 ^ log_search fuel k n
    /\ forall j, 0 <= j < log_search fuel k n -> 19 ^ j < n * 10 ^ j.
Proof.
  induction fuel as [|fuel IH]; intros k Hk Hbelow Htop.
  - cbn [log_search]. rewrite Z.add_0_r in Htop. repeat split; auto; lia.
  - cbn [log_search].
    destruct (Z.leb_spec (n * 10 ^ k) (19 ^ k)) as [Hle|Hgt].
    + repeat split; auto; lia.
    + destruct (IH (k + 1)) as (H1 & H2 & H3); try lia.
      * intros j Hj. destruct (Z.eq_dec j k) as [->|]; [lia|].
        apply Hbelow. lia.
      * replace (k + 1 + Z.of_nat fuel) with (k + Z.of_nat (S fuel)) by lia.
        exact Htop.
      * repeat split; auto; lia.
Qed.

(** [ceil_log_1_9 n] is the least exponent [k] with [n <= 1.9 ^ k]. *)
Lemma ceil_log_spec (n : Z) :
  1 <= n ->
  0 <= ceil_log_1_9 n
  /\ n * 10 ^ ceil_log_1_9 n <= 19 ^ ceil_log_1_9 n
  /\ forall j, 0 <= j < ceil_log_1_9 n -> 19 ^ j < n * 10 ^ j.
Proof.
  intros Hn. unfold ceil_log_1_9.
  apply log_search_spec; try lia.
  rewrite Z.add_0_l.
  pose proof (@power_dominates (Z.to_nat n) ltac:(lia)) as H.
  rewrite Z2Nat.id in H by lia. rewrite Z2Nat.id by lia. exact H.
Qed.
End IntegerSearch.

Section RealLogarithm.
Local Open Scope R_scope.

Lemma ln_base_pos : 0 < ln (19 / 10).
Proof. rewrite <- ln_1. apply ln_increasing; lra. Qed.

Lemma ratio_pow (m : nat) : (19 / 10) ^ m * 10 ^ m = 19 ^ m.
Proof.
  rewrite <- Rpow_mult_distr. f_equal. lra.
Qed.

Lemma pow_Z_R (a : Z) (m : nat) : IZR (a ^ Z.of_nat m) = IZR a ^ m.
Proof. symmetry. apply pow_IZR. Qed.

Lemma log_upper (n : Z) (m : nat) :
  (1 <= n)%Z ->
  (n * 10 ^ Z.of_nat m <= 19 ^ Z.of_nat m)%Z ->
  ln (IZR n) <= INR m * ln (19 / 10).
Proof.
  intros Hn H. apply IZR_le in H.
  rewrite mult_IZR, !pow_Z_R, <- ratio_pow in H.
  assert (H10 : 0 < 10 ^ m) by (apply pow_lt; lra).
  apply Rmult_le_reg_r in H; [|exact H10].
  rewrite <- ln_pow by lra.
  assert (0 < IZR n) by (apply IZR_lt; lia).
  destruct H as [H|H].
  - left. apply ln_increasing; auto.
  - right. rewrite H. reflexivity.
Qed.

Lemma log_lower (n : Z) (m : nat) :
  (1 <= n)%Z ->
  (19 ^ Z.of_nat m < n * 10 ^ Z.of_nat m)%Z ->
  INR m * ln (19 / 10) < ln (IZR n).
Proof.
  intros Hn H. apply IZR_lt in H.
  rewrite mult_IZR, !pow_Z_R, <- ratio_pow in H.
  assert (H10 : 0 < 10 ^ m) by (apply pow_lt; lra).
  apply Rmult_lt_reg_r in H; [|exact H10].
  rewrite <- ln_pow by lra.
  apply ln_increasing; auto.
  apply pow_lt. lra.
Qed.

(** The integer search computes the real formula. *)
Lemma threshold_is_formula (n : Z) :
  (1 <= n)%Z -> (n - ceil_log_1_9 n)%Z = threshold_formula n.
Proof.
  intros Hn. symmetry. unfold threshold_formula.
  destruct (ceil_log_spec Hn) as (Hk & Hle & Hlt).
  set (k := ceil_log_1_9 n) in *.
  pose proof ln_base_pos as HL.
  set (L := ln (19 / 10)) in *.
  assert (Hup : ln (IZR n) <= IZR k * L).
  { pose proof (@log_upper n (Z.to_nat k) Hn) as H.
    rewrite Z2Nat.id in H by lia.
    rewrite INR_IZR_INZ, Z2Nat.id in H by lia. auto. }
  assert (Hlow : (IZR k - 1) * L < ln (IZR n)).
  { destruct (Z.eq_dec k 0) as [E|E].
    - rewrite E. assert (0 <= ln (IZR n)).
      { rewrite <- ln_1. destruct (Z.eq_dec n 1) as [->|]; [lra|].
        left. apply ln_increasing; [lra|]. apply IZR_lt. lia. }
      nra.
    - pose proof (@log_lower n (Z.to_nat (k - 1)) Hn) as H.
      rewrite Z2Nat.id in H by lia.
      rewrite INR_IZR_INZ, Z2Nat.id, minus_IZR in H by lia.
      apply H. apply Hlt. lia. }
  apply Zfloor_eq. rewrite minus_IZR.
  assert (Hx : ln (IZR n) / L * L = ln (IZR n)) by (field; lra).
  set (x := ln (IZR n) / L) in *.
  assert (Hx1 : x <= IZR k).
  { apply Rmult_le_reg_r with L; [exact HL | lra]. }
  assert (Hx2 : IZR k - 1 < x).
  { apply Rmult_lt_reg_r with L; [exact HL | lra]. }
  lra.
Qed.
End RealLogarithm.

End ThresholdFacts.


(** ** The regular expression search *)

Module ReFacts.
Import Re.

Lemma least_true (f : nat -> bool) (n : nat) :
  f n = true ->
  exists m, (m <= n)%nat /\ f m = true /\ forall q, (q < m)%nat -> f q = false.
Proof.
  intros Hn.
  assert (H : forall k,
             (forall q, (q < k)%nat -> f q = false)
             \/ exists m, (m < k)%nat /\ f m = true
                          /\ forall q, (q < m)%nat -> f q = false).
  { induction k as [|k [IH|IH]].
    - left. intros q Hq. lia.
    - destruct (f k) eqn:E.
      + right. exists k. repeat split; auto.
      + left. intros q Hq.
        destruct (Nat.eq_dec q k) as [->|]; auto. apply IH. lia.
    - right. destruct IH as (m & Hm & Hf & Hl).
      exists m. repeat split; auto. }
  destruct (H n) as [Hall|(m & Hm & Hf & Hl)].
  - exists n. repeat split; auto.
  - exists m. repeat split; auto. lia.
Qed.

Lemma boundary_in_range (t : list ascii) (pos : nat) :
  boundary t pos = true -> (pos <= List.length t)%nat.
Proof.
  intros H. destruct (le_lt_dec pos (List.length t)) as [|Hgt]; auto.
  exfalso. unfold boundary, word_at in H.
  assert (E : nth_error t pos = None) by (apply nth_error_None; lia).
  rewrite E in H. destruct pos as [|q]; [discriminate|].
  assert (E' : nth_error t q = None) by (apply nth_error_None; lia).
  rewrite E' in H. discriminate.
Qed.

Lemma length_list_ascii (s : string) :
  List.length (list_ascii_of_string s) = String.length s.
Proof. induction s; simpl; auto. Qed.

Lemma length_lower (s : string) : String.length (lower s) = String.length s.
Proof. induction s; simpl; auto. Qed.

Section Alternatives.
Variable p : pattern.
Variable t : list ascii.

Lemma first_alt_some (ma : bool) (pos e : nat) (alts : list string) :
  first_alt p t pos ma alts = Some e ->
  exists kw, In kw alts /\ alt_end p t pos ma kw = Some e.
Proof.
  induction alts as [|kw alts IH]; [discriminate|].
  cbn [first_alt]. destruct (alt_end p t pos ma kw) eqn:E.
  - intros H. inversion H; subst. exists kw. split; [left|]; auto.
  - intros H. destruct (IH H) as (kw' & Hin & Hk).
    exists kw'. split; [right|]; auto.
Qed.

Lemma first_alt_none (ma : bool) (pos : nat) (alts : list string) :
  first_alt p t pos ma alts = None ->
  forall kw, In kw alts -> alt_end p t pos ma kw = None.
Proof.
  induction alts as [|kw alts IH]; [intros _ k []|].
  cbn [first_alt]. destruct (alt_end p t pos ma kw) eqn:E; [discriminate|].
  intros H k [<-|Hin]; auto.
Qed.

(** When the alternatives that match at a position all end at the same
    place, only the set of alternatives counts, not their order. *)
Lemma first_alt_order (ma : bool) (pos : nat) (alts1 alts2 : list string) :
  (forall kw, In kw alts1 <-> In kw alts2) ->
  (forall k1 k2 e1 e2,
      In k1 alts1 -> In k2 alts1 ->
      alt_end p t pos ma k1 = Some e1 -> alt_end p t pos ma k2 = Some e2 ->
      e1 = e2) ->
  first_alt p t pos ma alts1 = first_alt p t pos ma alts2.
Proof.
  intros Hsame Huniq.
  destruct (first_alt p t pos ma alts1) as [e1|] eqn:E1;
    destruct (first_alt p t pos ma alts2) as [e2|] eqn:E2; auto.
  - destruct (@first_alt_some ma pos e1 alts1 E1) as (k1 & Hin1 & H1).
    destruct (@first_alt_some ma pos e2 alts2 E2) as (k2 & Hin2 & H2).
    f_equal. apply (Huniq k1 k2); auto. apply Hsame; auto.
  - destruct (@first_alt_some ma pos e1 alts1 E1) as (k1 & Hin1 & H1).
    rewrite (@first_alt_none ma pos alts2 E2 k1) in H1; [discriminate|].
    apply Hsame; auto.
  - destruct (@first_alt_some ma pos e2 alts2 E2) as (k2 & Hin2 & H2).
    rewrite (@first_alt_none ma pos alts1 E1 k2) in H2; [discriminate|].
    apply Hsame; auto.
Qed.

End Alternatives.

Section Search.
Variable p : pattern.
Variable text : string.
Variable t : list ascii.
Hypothesis Ht : t = list_ascii_of_string text.

Lemma alt_end_occurs (pos e : nat) (kw : string) :
  boundary t pos = true ->
  alt_end p t pos false kw = Some e ->
  occurs_at (ignorecase p) kw text pos = true
  /\ e = (pos + String.length kw)%nat.
Proof.
  intros Hb H. unfold alt_end in H. unfold occurs_at. rewrite <- Ht.
  rewrite Hb. cbn [negb orb] in H. rewrite andb_true_r in H.
  destruct (literal_at _ _ _ && boundary t _) eqn:E; [|discriminate].
  apply andb_true_iff in E as [E1 E2]. rewrite E1, E2.
  inversion H. rewrite length_list_ascii. split; reflexivity.
Qed.

Lemma occurs_alt_end (pos : nat) (kw : string) :
  occurs_at (ignorecase p) kw text pos = true ->
  boundary t pos = true
  /\ alt_end p t pos false kw = Some (pos + String.length kw)%nat.
Proof.
  unfold occurs_at, alt_end. rewrite <- Ht. intros H.
  apply andb_true_iff in H as [H H3]. apply andb_true_iff in H as [H1 H2].
  split; auto. rewrite H2, H3. cbn. rewrite length_list_ascii. reflexivity.
Qed.

Lemma occurs_matches (pos : nat) (kw : string) :
  In kw (alternatives p) ->
  occurs_at (ignorecase p) kw text pos = true ->
  matches_at p t pos = true.
Proof.
  intros Hin Ho. apply occurs_alt_end in Ho as [Hb Ha].
  unfold matches_at, match_at. rewrite Hb.
  destruct (first_alt p t pos false (alternatives p)) eqn:E; auto.
  rewrite (@first_alt_none p t false pos (alternatives p) E kw Hin) in Ha. discriminate.
Qed.

Lemma matches_occurs (pos : nat) :
  matches_at p t pos = true ->
  exists kw, In kw (alternatives p)
             /\ occurs_at (ignorecase p) kw text pos = true
             /\ match_at p t pos false = Some (pos + String.length kw)%nat.
Proof.
  unfold matches_at, match_at.
  destruct (boundary t pos) eqn:Hb; [|discriminate].
  destruct (first_alt p t pos false (alternatives p)) as [e|] eqn:E;
    [|discriminate].
  intros _. destruct (@first_alt_some p t false pos e (alternatives p) E) as (kw & Hin & Ha).
  destruct (@alt_end_occurs pos e kw Hb Ha) as [Ho ->].
  exists kw. auto.
Qed.

(** The head of the scan is the first position with a match. *)
Lemma scan_head (p0 e : nat) :
  match_at p t p0 false = Some e ->
  (forall q, (q < p0)%nat -> matches_at p t q = false) ->
  forall remaining pos,
    (pos <= p0)%nat -> (p0 < pos + remaining)%nat ->
    hd_error (scan p t remaining pos 0) = Some (p0, e).
Proof.
  intros Hm Hbefore.
  induction remaining as [|r IH]; intros pos Hle Hlt; [lia|].
  cbn [scan]. replace (pos <? 0)%nat with false by reflexivity.
  destruct (Nat.eq_dec pos p0) as [->|Hne].
  - rewrite Hm. destruct (Nat.eqb_spec e p0) as [->|].
    + destruct (match_at p t p0 true); reflexivity.
    + reflexivity.
  - assert (Hq : matches_at p t pos = false) by (apply Hbefore; lia).
    unfold matches_at in Hq.
    destruct (match_at p t pos false); [discriminate|].
    apply IH; lia.
Qed.

(** [re.search] returns the leftmost occurrence of an alternative. *)
Lemma search_leftmost (kw : string) (pos : nat) :
  In kw (alternatives p) ->
  occurs_at (ignorecase p) kw text pos = true ->
  exists kw0 pos0,
    In kw0 (alternatives p)
    /\ occurs_at (ignorecase p) kw0 text pos0 = true
    /\ (pos0 <= pos)%nat
    /\ (forall kw' pos',
          In kw' (alternatives p) ->
          occurs_at (ignorecase p) kw' text pos' = true ->
          (pos0 <= pos')%nat)
    /\ (pos0 + String.length kw0 <= String.length text)%nat
    /\ search p text
       = Some (Z.of_nat pos0, Z.of_nat (pos0 + String.length kw0)).
Proof.
  intros Hin Ho.
  destruct (least_true (matches_at p t) pos (@occurs_matches pos kw Hin Ho))
    as (pos0 & Hle & Hm & Hleast).
  destruct (@matches_occurs pos0 Hm) as (kw0 & Hin0 & Ho0 & Hat).
  exists kw0, pos0. repeat split; auto.
  - intros kw' pos' Hin' Ho'.
    destruct (le_lt_dec pos0 pos') as [|Hlt]; auto.
    pose proof (@occurs_matches pos' kw' Hin' Ho') as Hm'.
    rewrite (Hleast _ Hlt) in Hm'. discriminate.
  - unfold occurs_at in Ho0. rewrite <- Ht in Ho0.
    apply andb_true_iff in Ho0 as [_ Hb].
    apply boundary_in_range in Hb.
    rewrite Ht in Hb. rewrite !length_list_ascii in Hb. exact Hb.
  - unfold search, finditer. rewrite <- Ht.
    assert (Hr : (pos0 <= List.length t)%nat).
    { apply boundary_in_range. unfold matches_at, match_at in Hm.
      destruct (boundary t pos0); [reflexivity|discriminate]. }
    pose proof (@scan_head pos0 _ Hat Hleast (S (List.length t)) 0
                          ltac:(lia) ltac:(lia)) as Hh.
    destruct (scan p t (S (List.length t)) 0 0) as [|m ms];
      [discriminate|].
    cbn in Hh. inversion Hh; subst m. reflexivity.
Qed.
End Search.

(** Two patterns that match alike at every position find the same
    matches. *)
Lemma scan_ext (p1 p2 : pattern) (t : list ascii) :
  (forall pos ma, match_at p1 t pos ma = match_at p2 t pos ma) ->
  forall remaining pos busy,
    scan p1 t remaining pos busy = scan p2 t remaining pos busy.
Proof.
  intros H. induction remaining as [|r IH]; intros pos busy; [reflexivity|].
  cbn [scan]. rewrite !H.
  destruct (pos <? busy)%nat; [apply IH|].
  destruct (match_at p2 t pos false) as [e|]; [|apply IH].
  destruct (e =? pos)%nat.
  - destruct (match_at p2 t pos true); rewrite IH; reflexivity.
  - rewrite IH. reflexivity.
Qed.

End ReFacts.

(** ** The section trimmer: ending keywords and the page loop *)

Module TrimmerFacts.
Import TextExtractor Samples ThresholdFacts ReFacts.
Local Open Scope Z_scope.

Lemma regular_step_continues (pg : page) (treated_text : list (list string)) :
  exists treated_text', regular_step pg treated_text = Continue treated_text'.
Proof.
  unfold regular_step.
  destruct (process_page pg (page_words pg)) as [processed|e].
  - destruct (truthy (join " " processed)); eexists; reflexivity.
  - eexists; reflexivity.
Qed.

Lemma threshold_of_20 : threshold_formula 20 = 15.
Proof.
  rewrite <- threshold_is_formula by lia. vm_compute. reflexivity.
Qed.



(** The ending phrases exclude each other at any place of a text. *)
Lemma ending_literal_unique (s : list ascii) (k1 k2 : string) :
  In k1 ending_keywords -> In k2 ending_keywords ->
  Re.literal_at false (list_ascii_of_string k1) s = true ->
  Re.literal_at false (list_ascii_of_string k2) s = true ->
  k1 = k2.
Proof.
  intros H1 H2 L1 L2.
  destruct s as [|c1 [|c2 s]];
    [destruct H1 as [<-|[<-|[<-|[<-|[]]]]]; discriminate L1
    |destruct H1 as [<-|[<-|[<-|[<-|[]]]]]; cbn in L1;
     rewrite ?andb_false_r in L1; discriminate L1|].
  destruct H1 as [<-|[<-|[<-|[<-|[]]]]];
    destruct H2 as [<-|[<-|[<-|[<-|[]]]]];
    try reflexivity; exfalso;
    cbn [list_ascii_of_string Re.literal_at Re.char_matches] in L1, L2;
    apply andb_true_iff in L1 as [A1 L1];
    apply andb_true_iff in L2 as [A2 L2];
    apply andb_true_iff in L1 as [B1 _];
    apply andb_true_iff in L2 as [B2 _];
    apply Ascii.eqb_eq in A1, A2, B1, B2; congruence.
Qed.

(** The set literal is iterated in an order the code does not fix: any
    order of the four phrases gives the same search result. *)
Lemma ending_order_irrelevant (alts : list string) (text : string) :
  (forall kw, In kw alts <-> In kw ending_keywords) ->
  Re.search (Re.Pattern alts false) text = Re.search ending_pattern text.
Proof.
  intros Hsame. unfold Re.search, Re.finditer. do 2 f_equal.
  apply scan_ext. intros pos ma. unfold Re.match_at.
  destruct (Re.boundary (list_ascii_of_string text) pos); [|reflexivity].
  cbn [Re.alternatives ending_pattern].
  change (Re.first_alt (Re.Pattern alts false))
    with (Re.first_alt ending_pattern).
  apply first_alt_order; [exact Hsame|].
  intros k1 k2 e1 e2 Hin1 Hin2 A1 A2.
  apply Hsame in Hin1. apply Hsame in Hin2.
  unfold Re.alt_end in A1, A2.
  destruct (Re.literal_at _ (list_ascii_of_string k1) _) eqn:L1;
    [|discriminate A1].
  destruct (Re.literal_at _ (list_ascii_of_string k2) _) eqn:L2;
    [|discriminate A2].
  cbn [Re.ignorecase ending_pattern] in L1, L2.
  pose proof (ending_literal_unique _ Hin1 Hin2 L1 L2) as ->.
  destruct (_ && _); [|discriminate A1]. congruence.
Qed.

(** The whole extraction on the sample document of 20 pages: the phrase
    on page 10 is before the threshold and does not stop anything, the one
    on page 16 cuts that page and ends the extraction. *)
Lemma extract_text_on_twenty_pages :
  extract_text (Ok twenty_pages)
  = ("We map the granite outcrops of the northern river basin.",
     "body body body body body body body body body See References below. body body body body body Results are promising. References")%string.
Proof. vm_compute. reflexivity. Qed.

Lemma truthy_slice (s : string) (e : nat) :
  (1 <= e <= String.length s)%nat ->
  truthy (str_slice s 0 (Z.of_nat e)) = true.
Proof.
  intros He. unfold str_slice.
  rewrite slice_in_range by (rewrite ?length_list_ascii; lia).
  rewrite Z.sub_0_r, Nat2Z.id. cbn [Z.to_nat skipn].
  destruct s as [|c s]; [simpl in He; lia|].
  destruct e as [|e]; [lia|]. reflexivity.
Qed.

Lemma ending_keyword_nonempty (kw : string) :
  In kw ending_keywords -> (1 <= String.length kw)%nat.
Proof.
  intros [<-|[<-|[<-|[<-|[]]]]]; simpl; lia.
Qed.



End TrimmerFacts.

(** ** The token chunker: size, number and contents of the parts *)

Module ChunkerParts.
Import Chunker Samples Reading ChunkerFacts.
Local Open Scope Z_scope.

(** The range of part [j]. *)
Lemma part_ranges_closed (T o n b : Z) (remaining : nat) :
  forall i,
    0 <= i -> i + Z.of_nat remaining = n -> 0 <= o <= b ->
    (forall j, i <= j < n - 1 -> j * (b - o) + b < T) ->
    (n - 1) * (b - o) < T ->
    part_ranges T o n b remaining i (i * (b - o))
    = map (fun k => let j := i + Z.of_nat k in
                    (j * (b - o), if j =? n - 1 then T else j * (b - o) + b))
          (seq 0 remaining).
Proof.
  induction remaining as [|r IH]; intros i Hi Hn Ho Hgo Hlast; [reflexivity|].
  cbn [part_ranges seq map]. cbn zeta. rewrite Z.add_0_r.
  destruct (Z.eqb_spec i (n - 1)) as [E|E].
  - destruct (Z.leb_spec T T); [|lia].
    assert (r = 0%nat) by lia. subst r. reflexivity.
  - assert (Hlt : i * (b - o) + b < T) by (apply Hgo; lia).
    rewrite Z.min_l by lia.
    destruct (Z.leb_spec T (i * (b - o) + b)); [lia|].
    replace (Z.max 0 (i * (b - o) + b - o)) with ((i + 1) * (b - o)) by nia.
    f_equal.
    rewrite IH; try lia.
    + rewrite <- seq_shift, map_map. apply map_ext. intros k.
      cbn zeta. replace (i + 1 + Z.of_nat k) with (i + Z.of_nat (S k)) by lia.
      reflexivity.
    + intros j Hj. apply Hgo. lia.
Qed.

Section Balanced.
Variables (c : config) (T : Z).
Hypothesis Hv : valid c = true.
Hypothesis HT : max_tokens_per_part c < T.

Lemma balanced_facts :
  let o := overlap_tokens_of c in
  let n := num_parts_of c T in
  let b := balanced_tokens_per_part_of c T in
  let r := (T + (n - 1) * o) mod n in
  0 <= o < b /\ b <= max_tokens_per_part c /\ 2 <= n
  /\ 0 <= r < n /\ T = n * b + r - (n - 1) * o.
Proof.
  intros o n b r.
  pose proof (overlap_tokens_bounds c Hv) as Ho. fold o in Ho.
  assert (Hn : 2 <= n).
  { apply (num_parts_ge_2 (T:=T) (M:=max_tokens_per_part c) (o:=o)
             (e:=max_tokens_per_part c - o)); auto. }
  assert (Hb : o < b <= max_tokens_per_part c).
  { apply (balanced_bounds (T:=T) (M:=max_tokens_per_part c) (o:=o)
             (e:=max_tokens_per_part c - o) (n:=n)); auto. }
  pose proof (Z.div_mod (T + (n - 1) * o) n ltac:(lia)) as Hd.
  pose proof (Z.mod_pos_bound (T + (n - 1) * o) n ltac:(lia)) as Hm.
  fold r in Hd, Hm.
  change ((T + (n - 1) * o) / n) with b in Hd.
  repeat split; try lia.
Qed.

(** The ranges in closed form: part [j] starts at [j * (balanced - overlap)]
    and holds [balanced] tokens, but for the last one, which ends at the
    last token. *)
Lemma token_ranges_closed :
  let o := overlap_tokens_of c in
  let n := num_parts_of c T in
  let b := balanced_tokens_per_part_of c T in
  token_ranges c T
  = map (fun k => let j := Z.of_nat k in
                  (j * (b - o), if j =? n - 1 then T else j * (b - o) + b))
        (seq 0 (Z.to_nat n)).
Proof.
  intros o n b.
  destruct balanced_facts as (Ho & Hb & Hn & Hr & HTeq).
  fold o n b in Ho, Hb, Hn, Hr, HTeq.
  set (r := (T + (n - 1) * o) mod n) in *.
  unfold token_ranges. fold o n b.
  change 0 with (0 * (b - o)) at 2.
  rewrite (@part_ranges_closed T o n b (Z.to_nat n) 0);
    [reflexivity | lia | lia | lia | intros j Hj; nia | nia].
Qed.
End Balanced.

Lemma split_long_text
      (token : Type) (encode : string -> list token)
      (decode : list token -> string) (c : config) (text : string) :
  text <> EmptyString -> valid c = true ->
  max_tokens_per_part c < Z.of_nat (List.length (encode text)) ->
  split_text_into_balanced_parts encode decode c text
  = Ok (map decode (token_parts c (encode text))).
Proof.
  intros Hne Hv HT.
  pose proof Hv as Hv'. apply valid_spec in Hv' as [HM Hf].
  assert (Hr : overlap_in_range (overlap_percentage c) = true)
    by (apply overlap_in_range_spec; exact Hf).
  unfold split_text_into_balanced_parts.
  destruct text as [|ch text']; [congruence|].
  destruct (Z.leb_spec (max_tokens_per_part c) 0); [lia|].
  rewrite Hr. cbn [negb].
  destruct (Z.leb_spec (Z.of_nat (List.length (encode (String ch text'))))
                       (max_tokens_per_part c)); [lia|reflexivity].
Qed.





Lemma slice_skip_overlap {A : Type} (l : list A) (o e e' : Z) :
  0 <= o <= e -> e <= e' -> e' <= Z.of_nat (List.length l) ->
  skipn (Z.to_nat o) (slice l (e - o) e') = slice l e e'.
Proof.
  intros Ho He He'. rewrite !slice_in_range by lia.
  rewrite skipn_firstn_comm, skipn_skipn.
  f_equal; [lia|]. f_equal. lia.
Qed.

Lemma firstn_plus {A : Type} (p q : nat) (l : list A) :
  firstn (p + q) l = (firstn p l ++ firstn q (skipn p l))%list.
Proof.
  revert l. induction p as [|p IH]; intros l; [reflexivity|].
  destruct l as [|x l]; [cbn; rewrite firstn_nil; reflexivity|].
  cbn. f_equal. apply IH.
Qed.

Lemma slice_append {A : Type} (l : list A) (a b d : Z) :
  0 <= a -> a <= b -> b <= d -> d <= Z.of_nat (List.length l) ->
  (slice l a b ++ slice l b d)%list = slice l a d.
Proof.
  intros Ha Hab Hbd Hd. rewrite !slice_in_range by lia.
  replace (Z.to_nat (d - a)) with (Z.to_nat (b - a) + Z.to_nat (d - b))%nat by lia.
  rewrite firstn_plus. f_equal. rewrite skipn_skipn.
  do 2 f_equal. lia.
Qed.

(** Ranges that are chained by the overlap tile the token sequence. *)
Lemma chained_slices_tile {A : Type} (l : list A) (o : Z) (rest : list (Z * Z)) :
  forall a e,
    0 <= o -> 0 <= a -> a <= e -> e <= Z.of_nat (List.length l) ->
    chained o e rest ->
    Forall (fun r => 0 <= fst r /\ fst r + o <= snd r
                     /\ snd r <= Z.of_nat (List.length l)) rest ->
    (slice l a e
     ++ flat_map (skipn (Z.to_nat o))
                 (map (fun r => slice l (fst r) (snd r)) rest))%list
    = slice l a (snd (last ((a, e) :: rest) (0, 0))).
Proof.
  induction rest as [|[s e'] rest IH]; intros a e Ho Ha Hae He Hc Hall.
  - cbn. apply app_nil_r.
  - cbn [chained] in Hc. destruct Hc as [-> Hc].
    inversion Hall as [|? ? H1 Hall']; subst. cbn [fst snd] in H1.
    cbn [map flat_map fst snd].
    rewrite slice_skip_overlap by lia.
    rewrite app_assoc, slice_append by lia.
    rewrite (IH a e' Ho Ha ltac:(lia) ltac:(lia) Hc Hall').
    f_equal. destruct rest; reflexivity.
Qed.

Lemma ranges_longer_than_overlap (c : config) (T : Z) :
  valid c = true -> max_tokens_per_part c < T ->
  Forall (fun r => 0 <= fst r /\ fst r + overlap_tokens_of c <= snd r
                   /\ snd r <= T)
         (token_ranges c T).
Proof.
  intros Hv HT.
  destruct (@balanced_facts c T Hv HT) as (Ho & Hb & Hn & Hr & HTeq).
  rewrite (@token_ranges_closed c T Hv HT). cbn zeta in *.
  set (o := overlap_tokens_of c) in *.
  set (n := num_parts_of c T) in *.
  set (b := balanced_tokens_per_part_of c T) in *.
  set (r := (T + (n - 1) * o) mod n) in *.
  apply Forall_forall. intros rg Hin.
  apply in_map_iff in Hin as (k & <- & Hk). apply in_seq in Hk.
  cbn [fst snd].
  destruct (Z.eqb_spec (Z.of_nat k) (n - 1)); nia.
Qed.



End ChunkerParts.

(** ** Keyword context windows: the regions of the result *)

Module ContextRegions.
Import KeywordContext Samples Reading ReFacts KeywordContextFacts.
Local Open Scope Z_scope.

(** The matches of [finditer] lie inside the text, and their starts
    ascend. *)
Lemma scan_facts (p : Re.pattern) (t : list ascii) (remaining : nat) :
  forall pos busy,
    Forall (fun m => (pos <= fst m <= snd m)%nat
                     /\ (snd m <= List.length t)%nat)
           (Re.scan p t remaining pos busy)
    /\ starts_ascend
         (map (fun m => (Z.of_nat (fst m), Z.of_nat (snd m)))
              (Re.scan p t remaining pos busy)).
Proof.
  assert (Hend : forall pos ma e,
             Re.match_at p t pos ma = Some e ->
             (pos <= e <= List.length t)%nat).
  { intros pos ma e H. unfold Re.match_at in H.
    destruct (Re.boundary t pos); [|discriminate].
    apply first_alt_some in H as (kw & _ & H).
    unfold Re.alt_end in H.
    destruct (Re.literal_at _ _ _ && Re.boundary t _ && _) eqn:E; [|discriminate].
    inversion H; subst e.
    apply andb_true_iff in E as [E _]. apply andb_true_iff in E as [_ E].
    apply boundary_in_range in E. lia. }
  assert (Hmono : forall r pos busy,
             Forall (fun m => (S pos <= fst m <= snd m)%nat
                              /\ (snd m <= List.length t)%nat)
                    (Re.scan p t r (S pos) busy) ->
             Forall (fun m => (pos <= fst m <= snd m)%nat
                              /\ (snd m <= List.length t)%nat)
                    (Re.scan p t r (S pos) busy)).
  { intros r pos busy H. eapply Forall_impl; [|exact H]. cbn. intros; lia. }
  assert (Hhead : forall (a : nat * nat) l pos,
             (fst a <= pos)%nat ->
             Forall (fun m => (S pos <= fst m <= snd m)%nat
                              /\ (snd m <= List.length t)%nat) l ->
             starts_ascend (map (fun m => (Z.of_nat (fst m), Z.of_nat (snd m))) l) ->
             starts_ascend
               (map (fun m => (Z.of_nat (fst m), Z.of_nat (snd m))) (a :: l))).
  { intros a l pos Ha Hl Hs. destruct l as [|b l]; [exact I|].
    cbn [map starts_ascend fst snd]. split; [|exact Hs].
    inversion Hl; subst. lia. }
  induction remaining as [|r IH]; intros pos busy; [split; constructor|].
  cbn [Re.scan].
  destruct (IH (S pos) busy) as [IHb IHs].
  destruct (pos <? busy)%nat; [split; auto|].
  destruct (Re.match_at p t pos false) as [e|] eqn:E; [|split; auto].
  pose proof (Hend _ _ _ E) as He.
  destruct (Nat.eqb_spec e pos) as [->|Hne].
  - destruct (Re.match_at p t pos true) as [e2|] eqn:E2.
    + pose proof (Hend _ _ _ E2) as He2.
      destruct (IH (S pos) e2) as [IHb2 IHs2].
      split.
      * constructor; [cbn; lia|]. constructor; [cbn; lia|]. auto.
      * change (starts_ascend
                  ((Z.of_nat pos, Z.of_nat pos)
                   :: map (fun m => (Z.of_nat (fst m), Z.of_nat (snd m)))
                          ((pos, e2) :: Re.scan p t r (S pos) e2))).
        cbn [map starts_ascend fst snd]. split; [lia|].
        apply (Hhead (pos, e2) _ pos); auto.
    + split.
      * constructor; [cbn; lia|]. auto.
      * apply (Hhead (pos, pos) _ pos); auto.
  - destruct (IH (S pos) e) as [IHb2 IHs2].
    split.
    + constructor; [cbn; lia|]. auto.
    + apply (Hhead (pos, e) _ pos); auto.
Qed.

Lemma finditer_facts (p : Re.pattern) (text : string) :
  Forall (fun m => 0 <= fst m <= snd m
                   /\ snd m <= Z.of_nat (String.length text))
         (Re.finditer p text)
  /\ starts_ascend (Re.finditer p text).
Proof.
  unfold Re.finditer.
  destruct (scan_facts p (list_ascii_of_string text)
              (S (List.length (list_ascii_of_string text))) 0 0) as [Hb Hs].
  split; [|exact Hs].
  apply Forall_forall. intros m Hin.
  apply in_map_iff in Hin as (m0 & <- & Hin).
  rewrite Forall_forall in Hb. specialize (Hb m0 Hin).
  rewrite length_list_ascii in Hb. cbn [fst snd]. lia.
Qed.

(** The sweep on text slices and the sweep on intervals agree. *)
Lemma sweep_regions (self : KeywordContextFinder) (text : string)
      (matches : list (Z * Z)) :
  forall current contexts,
    (let '(current', contexts') :=
       sweep self text matches (Some current) contexts in
     match current' with
     | Some (a, b) => contexts' ++ [str_slice text a b]
     | None => contexts'
     end)%list
    = (contexts
       ++ map (fun r => str_slice text (fst r) (snd r))
              (merge_from self text matches current))%list.
Proof.
  induction matches as [|m rest IH]; intros [a b] contexts.
  - reflexivity.
  - cbn [sweep merge_from].
    destruct (context_of self text m) as [cs ce] eqn:E. cbn [fst snd].
    destruct (cs <=? b).
    + apply IH.
    + rewrite IH. cbn [map fst snd]. rewrite <- app_assoc. reflexivity.
Qed.

Lemma process_contexts_regions (self : KeywordContextFinder) (text : string)
      (matches : list (Z * Z)) :
  _process_contexts self text matches
  = join " " (map (region_text text) (merged_regions self text matches)).
Proof.
  unfold _process_contexts, merged_regions.
  destruct matches as [|m rest]; [reflexivity|].
  cbn [sweep]. destruct (context_of self text m) as [cs ce] eqn:E.
  pose proof (sweep_regions self text rest (cs, ce) []) as H.
  destruct (sweep self text rest (Some (cs, ce)) []) as [cur ctxs].
  cbn [app] in H. rewrite H. rewrite map_map. reflexivity.
Qed.

Lemma find_contexts_regions (self : KeywordContextFinder) (text : string) :
  find_contexts self text
  = join " " (map (region_text text)
                  (merged_regions self text (Re.finditer (pattern self) text))).
Proof.
  unfold find_contexts. destruct text as [|ch text'].
  - rewrite finditer_empty. reflexivity.
  - destruct (Re.finditer (pattern self) (String ch text')) eqn:E;
      [reflexivity|].
    apply process_contexts_regions.
Qed.

Lemma occurs_append (c : ascii) (s1 s2 : string) :
  occurs c (s1 ++ s2) = occurs c s1 || occurs c s2.
Proof.
  induction s1 as [|a s1 IH]; [reflexivity|].
  cbn. rewrite IH, orb_assoc. reflexivity.
Qed.

Lemma occurs_join (c : ascii) (sep : string) (parts : list string) :
  occurs c sep = false ->
  (forall s, In s parts -> occurs c s = false) ->
  occurs c (join sep parts) = false.
Proof.
  intros Hsep. induction parts as [|s parts IH]; intros H; [reflexivity|].
  unfold join in *. cbn [String.concat].
  destruct parts as [|s' parts]; [apply H; left; reflexivity|].
  rewrite !occurs_append, Hsep, (H s (or_introl eq_refl)). cbn [orb].
  apply IH. intros x Hx. apply H. right. exact Hx.
Qed.

Lemma replace_newlines_clean (s : string) :
  occurs "010" (replace_newlines s) = false.
Proof.
  induction s as [|a s IH]; [reflexivity|].
  cbn [replace_newlines occurs]. rewrite IH, orb_false_r.
  destruct (Ascii.eqb a "010") eqn:E; [reflexivity|exact E].
Qed.

(** [X4] The result of [find_contexts] holds no newline character,
    whatever the keywords and the text. *)
Theorem contexts_hold_no_newline
        (self : KeywordContextFinder) (text : string) :
  occurs "010" (find_contexts self text) = false.
Proof.
  rewrite find_contexts_regions. apply occurs_join; [reflexivity|].
  intros s Hs. apply in_map_iff in Hs as (r & <- & _).
  apply replace_newlines_clean.
Qed.

Section Regions.
Variable self : KeywordContextFinder.
Variable text : string.
Hypothesis Hw : 0 <= window self.

Lemma context_of_facts (m : Z * Z) :
  within (Z.of_nat (String.length text)) m ->
  within (Z.of_nat (String.length text)) (context_of self text m)
  /\ fst (context_of self text m) <= fst m
  /\ snd m <= snd (context_of self text m).
Proof.
  unfold within, context_of. cbn [fst snd]. intros H. lia.
Qed.

Lemma context_of_mono (m m' : Z * Z) :
  fst m <= fst m' ->
  fst (context_of self text m) <= fst (context_of self text m').
Proof. unfold context_of. cbn [fst snd]. lia. Qed.

Lemma ascend_head_least (m : Z * Z) (rest : list (Z * Z)) :
  starts_ascend (m :: rest) ->
  Forall (fun m' => fst m <= fst m') rest /\ starts_ascend rest.
Proof.
  revert m. induction rest as [|b rest IH]; intros m H; [split; constructor|].
  cbn [starts_ascend] in H. destruct H as [Hab Hs].
  destruct (IH b Hs) as [Hall Hs'].
  split; [|exact Hs]. constructor; [exact Hab|].
  eapply Forall_impl; [|exact Hall]. cbn. intros; lia.
Qed.

(** The regions, from an open interval on: the first region starts where
    the open interval starts and reaches at least its end; the regions lie
    in the text and are separated; every window read so far or still to
    come lies in one region. *)
Lemma merge_from_facts (matches : list (Z * Z)) :
  forall current,
    within (Z.of_nat (String.length text)) current ->
    Forall (within (Z.of_nat (String.length text))) matches ->
    starts_ascend matches ->
    Forall (fun m => fst current <= fst (context_of self text m)) matches ->
    exists r0 rs,
      merge_from self text matches current = r0 :: rs
      /\ fst r0 = fst current /\ snd current <= snd r0
      /\ Forall (within (Z.of_nat (String.length text))) (r0 :: rs)
      /\ separated (r0 :: rs)
      /\ forall m, In m matches ->
                   exists r, In r (r0 :: rs)
                             /\ fst r <= fst (context_of self text m)
                             /\ snd (context_of self text m) <= snd r.
Proof.
  induction matches as [|m rest IH]; intros current Hc Hin Hasc Hlow.
  - exists current, []. split; [reflexivity|]. split; [reflexivity|].
    split; [lia|]. split; [constructor; [exact Hc|constructor]|].
    split; [exact I|]. intros m [].
  - inversion Hin as [|? ? Hm Hin']; subst.
    inversion Hlow as [|? ? Hlm Hlow']; subst.
    destruct (@ascend_head_least _ _ Hasc) as [Hleast Hasc'].
    destruct (@context_of_facts _ Hm) as (Hcm & Hcs & Hce).
    cbn [merge_from]. cbn zeta.
    destruct (Z.leb_spec (fst (context_of self text m)) (snd current)) as [Hle|Hgt].
    + destruct (IH (fst current, Z.max (snd current) (snd (context_of self text m))))
        as (r0 & rs & E & H0 & H1 & Hall & Hsep & Hcov); auto.
      { unfold within in *. cbn [fst snd]. lia. }
      exists r0, rs. cbn [fst snd] in *.
      split; [exact E|]. split; [exact H0|]. split; [lia|].
      split; [exact Hall|]. split; [exact Hsep|].
      intros m' [<-|Hin1]; [|apply Hcov; exact Hin1].
      exists r0. split; [left; reflexivity|]. lia.
    + destruct (IH (context_of self text m))
        as (r0 & rs & E & H0 & H1 & Hall & Hsep & Hcov); auto.
      { eapply Forall_impl; [|exact Hleast]. cbn.
        intros m' Hmm'. apply context_of_mono. exact Hmm'. }
      exists current, (r0 :: rs). rewrite E.
      split; [reflexivity|]. split; [reflexivity|]. split; [lia|].
      split; [constructor; auto|].
      split; [cbn [separated]; split; [lia|exact Hsep]|].
      intros m' [<-|Hin1].
      * exists r0. split; [right; left; reflexivity|]. lia.
      * destruct (Hcov m' Hin1) as (r & Hr & Hr1 & Hr2).
        exists r. split; [right; exact Hr|]. lia.
Qed.

Lemma merged_regions_facts (matches : list (Z * Z)) :
  Forall (within (Z.of_nat (String.length text))) matches ->
  starts_ascend matches ->
  Forall (within (Z.of_nat (String.length text)))
         (merged_regions self text matches)
  /\ separated (merged_regions self text matches)
  /\ forall m, In m matches ->
               exists r, In r (merged_regions self text matches)
                         /\ fst r <= fst (context_of self text m)
                         /\ snd (context_of self text m) <= snd r.
Proof.
  intros Hin Hasc. unfold merged_regions.
  destruct matches as [|m rest].
  - split; [constructor|]. split; [exact I|]. intros m [].
  - inversion Hin as [|? ? Hm Hin']; subst.
    destruct (@ascend_head_least _ _ Hasc) as [Hleast Hasc'].
    destruct (@context_of_facts _ Hm) as (Hcm & Hcs & Hce).
    destruct (@merge_from_facts rest (context_of self text m))
      as (r0 & rs & E & H0 & H1 & Hall & Hsep & Hcov); auto.
    { eapply Forall_impl; [|exact Hleast]. cbn.
      intros m' Hmm'. apply context_of_mono. exact Hmm'. }
    rewrite E. split; [exact Hall|]. split; [exact Hsep|].
    intros m' [<-|Hin1]; [|apply Hcov; exact Hin1].
    exists r0. split; [left; reflexivity|]. lia.
Qed.
End Regions.

(** [X5] The result of [find_contexts] is made of regions of the text,
    joined by single spaces, that lie inside the text, are listed from left
    to right and never touch or overlap: each region ends before the next
    one starts. *)
Theorem context_regions_are_separated
        (keywords : list string) (w : window_arg) (text : string) :
  let self := init keywords w in
  let regions :=
    merged_regions self text (Re.finditer (pattern self) text) in
  find_contexts self text = join " " (map (region_text text) regions)
  /\ Forall (within (Z.of_nat (String.length text))) regions
  /\ separated regions.
Proof.
  intros self regions.
  destruct (finditer_facts (pattern self) text) as [Hin Hasc].
  destruct (@merged_regions_facts self text ltac:(cbn; lia) _ Hin Hasc)
    as (Hall & Hsep & _).
  split; [apply find_contexts_regions|]. split; assumption.
Qed.

(** [X6] No keyword occurrence is lost: for every match of a keyword, the
    whole window of 4000 characters on either side of it (clipped to the
    text) lies inside one region of the result. *)
Theorem every_match_window_is_kept
        (keywords : list string) (w : window_arg) (text : string) (m : Z * Z) :
  let self := init keywords w in
  In m (Re.finditer (pattern self) text) ->
  exists region,
    In region (merged_regions self text (Re.finditer (pattern self) text))
    /\ fst region <= Z.max 0 (fst m - 4000)
    /\ Z.min (Z.of_nat (String.length text)) (snd m + 4000) <= snd region.
Proof.
  intros self Hm.
  destruct (finditer_facts (pattern self) text) as [Hin Hasc].
  destruct (@merged_regions_facts self text ltac:(cbn; lia) _ Hin Hasc)
    as (_ & _ & Hcov).
  exact (Hcov m Hm).
Qed.

Lemma every_match_window_is_kept_witness :
  exists region,
    In region
       (merged_regions (init ["basin"]%string WNone) far_text
          (Re.finditer (pattern (init ["basin"]%string WNone)) far_text))
    /\ fst region <= 5007 /\ 9012 <= snd region.
Proof.
  destruct (@every_match_window_is_kept ["basin"]%string WNone far_text
              (9007, 9012)) as (region & Hin & H1 & H2).
  - vm_compute. right. left. reflexivity.
  - exists region. split; [exact Hin|]. split.
    + etransitivity; [exact H1|]. vm_compute. discriminate.
    + etransitivity; [|exact H2]. vm_compute. discriminate.
Defined.

(** [X7] A text of at most 4000 characters that holds a keyword comes back
    whole, with its newlines turned into spaces. *)
Theorem short_text_is_kept_whole
        (keywords : list string) (w : window_arg) (text : string) :
  Z.of_nat (String.length text) <= 4000 ->
  Re.finditer (pattern (init keywords w)) text <> [] ->
  find_contexts (init keywords w) text = replace_newlines text.
Proof.
  intros Hlen Hne.
  set (self := init keywords w) in *.
  rewrite find_contexts_regions.
  destruct (finditer_facts (pattern self) text) as [Hin _].
  assert (Hwhole : forall m,
             within (Z.of_nat (String.length text)) m ->
             context_of self text m = (0, Z.of_nat (String.length text))).
  { intros m Hm. unfold within in Hm. unfold context_of.
    cbn [window self init]. f_equal; lia. }
  assert (Hmerge : forall ms,
             Forall (within (Z.of_nat (String.length text))) ms ->
             merge_from self text ms (0, Z.of_nat (String.length text))
             = [(0, Z.of_nat (String.length text))]).
  { induction ms as [|m ms IH]; intros Hms; [reflexivity|].
    inversion Hms as [|? ? Hm Hms']; subst.
    cbn [merge_from]. rewrite (Hwhole m Hm). cbn [fst snd].
    destruct (Z.leb_spec 0 (Z.of_nat (String.length text))); [|lia].
    rewrite Z.max_id. apply IH. exact Hms'. }
  unfold merged_regions.
  destruct (Re.finditer (pattern self) text) as [|m ms]; [congruence|].
  inversion Hin as [|? ? Hm Hms]; subst.
  rewrite (Hwhole m Hm), (Hmerge ms Hms).
  cbn [map join String.concat]. unfold region_text. cbn [fst snd].
  f_equal. unfold str_slice. rewrite <- length_list_ascii, slice_all.
  apply string_of_list_ascii_of_string.
Qed.

Lemma short_text_is_kept_whole_witness :
  find_contexts (init ["basin"; "range"]%string WNone) near_text = near_text.
Proof.
  rewrite (@short_text_is_kept_whole ["basin"; "range"]%string WNone near_text).
  - reflexivity.
  - vm_compute. discriminate.
  - vm_compute. discriminate.
Defined.

End ContextRegions.

(** ** The text extractor: ending keywords, failures, references *)

Module ExtractorMore.
Import TableExtractor TextExtractor Samples Reading ReFacts ThresholdFacts
       PageFilterFacts TrimmerFacts.
Local Open Scope Z_scope.

Lemma scan_none (p : Re.pattern) (t : list ascii) :
  (forall pos, Re.matches_at p t pos = false) ->
  forall remaining pos busy, Re.scan p t remaining pos busy = [].
Proof.
  intros H. induction remaining as [|r IH]; intros pos busy; [reflexivity|].
  cbn [Re.scan]. destruct (pos <? busy)%nat; [apply IH|].
  specialize (H pos). unfold Re.matches_at in H.
  destruct (Re.match_at p t pos false); [discriminate|apply IH].
Qed.

(** [X8] [check_ending_keywords] returns [None] exactly when none of the
    four ending phrases occurs between word boundaries in the lower-cased
    text. *)
Theorem no_ending_keyword_no_cut (processed_text : list string) :
  check_ending_keywords processed_text = None
  <-> (forall kw pos,
          In kw ending_keywords ->
          Re.occurs_at false kw (Re.lower (join " " processed_text)) pos = false).
Proof.
  split.
  - intros Hnone kw pos Hin.
    destruct (Re.occurs_at false kw (Re.lower (join " " processed_text)) pos)
      eqn:Ho; [|reflexivity].
    destruct (@search_leftmost ending_pattern
                (Re.lower (join " " processed_text)) _ eq_refl kw pos Hin Ho)
      as (kw0 & pos0 & _ & _ & _ & _ & _ & Hs).
    unfold check_ending_keywords in Hnone. rewrite Hs in Hnone. discriminate.
  - intros Hno. unfold check_ending_keywords, Re.search, Re.finditer.
    rewrite scan_none; [reflexivity|].
    intros pos.
    destruct (Re.matches_at ending_pattern
                (list_ascii_of_string (Re.lower (join " " processed_text))) pos)
      eqn:Hm; [|reflexivity].
    destruct (@matches_occurs ending_pattern
                (Re.lower (join " " processed_text)) _ eq_refl pos Hm)
      as (kw & Hin & Ho & _).
    cbn [Re.ignorecase Re.alternatives ending_pattern] in Hin, Ho.
    rewrite (Hno kw pos Hin) in Ho. discriminate.
Qed.



Lemma log_search_bound (n : Z) (fuel : nat) :
  forall k, log_search fuel k n <= k + Z.of_nat fuel.
Proof.
  induction fuel as [|fuel IH]; intros k; cbn [log_search]; [lia|].
  destruct (n * 10 ^ k <=? 19 ^ k); [lia|].
  specialize (IH (k + 1)). lia.
Qed.

(** [X10] For a document of at least two pages the threshold is a page
    index from 0 to [n - 2]: whatever the length of the document, its last
    page is checked for ending keywords, and so is the page before it
    unless that is the first page, which the loop never visits. *)
Theorem threshold_leaves_last_two_pages (n : Z) :
  2 <= n ->
  exists threshold,
    calculate_ignorable_page_threshold n = Ok threshold
    /\ 0 <= threshold <= n - 2.
Proof.
  intros Hn. exists (n - ceil_log_1_9 n).
  split.
  - unfold calculate_ignorable_page_threshold.
    destruct (Z.leb_spec n 0); [lia|reflexivity].
  - destruct (@ceil_log_spec n ltac:(lia)) as (Hk & Hle & Hlt).
    pose proof (log_search_bound n (Z.to_nat n) 0) as Hub.
    fold (ceil_log_1_9 n) in Hub.
    set (k := ceil_log_1_9 n) in *.
    assert (2 <= k).
    { destruct (Z.eq_dec k 0) as [E|E0]; [rewrite E in Hle; cbn in Hle; lia|].
      destruct (Z.eq_dec k 1) as [E|E1]; [rewrite E in Hle; cbn in Hle; lia|].
      lia. }
    lia.
Qed.

Lemma threshold_leaves_last_two_pages_witness :
  exists threshold,
    calculate_ignorable_page_threshold 5 = Ok threshold
    /\ 0 <= threshold <= 3.
Proof.
  exact (@threshold_leaves_last_two_pages 5 ltac:(lia)).
Defined.

(** [X11] Without a caption there is no table: on a page whose raw text
    does not contain "Table", or none of whose spans is a table caption,
    [extract_tables] returns [None] whatever rules are drawn on the page,
    and [process_page] returns the texts of exactly the words between the
    margins, without raising. *)
Theorem no_caption_no_table (pg : page) (words : list word) :
  contains "Table" (page_raw_text pg) = false
  \/ captions table_pattern_fullmatch (text_spans pg) = [] ->
  extract_tables table_pattern_fullmatch pg = Ok None
  /\ process_page pg words
     = Ok (map text (filter (between_margins (page_height pg)) words)).
Proof.
  intros H.
  assert (E : extract_tables table_pattern_fullmatch pg = Ok None).
  { unfold extract_tables, extract_table_data.
    destruct H as [H|H].
    - rewrite H. reflexivity.
    - destruct (contains "Table" (page_raw_text pg)); [|reflexivity].
      cbn [negb]. rewrite scan_page_spec. cbn [table_coordinates].
      rewrite H. reflexivity. }
  split; [exact E|].
  unfold process_page. rewrite E. reflexivity.
Qed.

Lemma no_caption_no_table_witness :
  process_page plain_page (page_words plain_page) = Ok ["as"; "shown"]%string.
Proof.
  destruct (@no_caption_no_table plain_page (page_words plain_page)) as [_ E].
  - right. vm_compute. reflexivity.
  - rewrite E. vm_compute. reflexivity.
Defined.

Lemma subseq_refl (s : string) : subseq s s.
Proof. induction s; constructor; auto. Qed.

Lemma subseq_trans (s t u : string) : subseq s t -> subseq t u -> subseq s u.
Proof.
  intros Hst Htu. revert s Hst.
  induction Htu as [|c t u Htu IH|c t u Htu IH]; intros s Hst.
  - exact Hst.
  - inversion Hst; subst.
    + apply subseq_keep. apply IH. assumption.
    + apply subseq_drop. apply IH. assumption.
  - apply subseq_drop. apply IH. exact Hst.
Qed.

Lemma remove_hyphen_space_subseq (s : string) :
  subseq (remove_hyphen_space s) s
  /\ forall c, subseq (remove_hyphen_space (String c s)) (String c s).
Proof.
  induction s as [|c' s [IH1 IH2]].
  - split; [constructor|]. intros c. cbn. apply subseq_refl.
  - split; [apply IH2|].
    intros c. cbn [remove_hyphen_space].
    destruct (Ascii.eqb c "-" && Ascii.eqb c' " ").
    + apply subseq_drop. apply subseq_drop. exact IH1.
    + apply subseq_keep. apply IH2.
Qed.

Lemma remove_citations_subseq (s : string) :
  forall skip, subseq (remove_citations s skip) s.
Proof.
  induction s as [|c s IH]; intros skip; [constructor|].
  cbn [remove_citations]. destruct skip as [|skip].
  - destruct (Ascii.eqb c "(").
    + destruct (citation_length s 0 false 0).
      * apply subseq_drop. apply IH.
      * apply subseq_keep. apply IH.
    + apply subseq_keep. apply IH.
  - apply subseq_drop. apply IH.
Qed.

(** [X12] [remove_references] only deletes: it returns a list of exactly
    one string, and for a non-empty input list that string is the first
    element with some characters left out, in the same order. *)
Theorem remove_references_only_deletes (t0 : string) (others : list string) :
  exists cleaned,
    remove_references (t0 :: others) = [cleaned]
    /\ subseq cleaned t0
    /\ (String.length cleaned <= String.length t0)%nat.
Proof.
  exists (remove_citations (remove_hyphen_space t0) 0).
  split; [reflexivity|].
  assert (H : subseq (remove_citations (remove_hyphen_space t0) 0) t0).
  { eapply subseq_trans; [apply remove_citations_subseq|].
    apply remove_hyphen_space_subseq. }
  split; [exact H|].
  clear - H. induction H; cbn; lia.
Qed.

Lemma citation_length_inner (inner rest : string) :
  no_parenthesis inner = true ->
  forall run seen n,
    citation_length (inner ++ String ")" rest) run seen n
    = if seen || reaches_four run inner
      then Some (S (n + String.length inner)) else None.
Proof.
  induction inner as [|c inner IH]; intros Hnp run seen n.
  - cbn. rewrite orb_false_r, Nat.add_0_r. reflexivity.
  - cbn [no_parenthesis] in Hnp.
    apply andb_true_iff in Hnp as [Hc Hnp].
    apply andb_true_iff in Hc as [Hc1 Hc2].
    apply negb_true_iff in Hc1, Hc2.
    cbn [append citation_length reaches_four String.length].
    rewrite Hc1, Hc2. rewrite (IH Hnp).
    rewrite orb_assoc, Nat.add_succ_r. reflexivity.
Qed.

Lemma starts_with_digits_fewer (k k' : nat) (s : string) :
  (k <= k')%nat -> starts_with_digits k' s = true ->
  starts_with_digits k s = true.
Proof.
  revert k' s. induction k as [|k IH]; intros k' s Hk H; [reflexivity|].
  destruct k' as [|k']; [lia|].
  cbn [starts_with_digits] in *. destruct s as [|c s]; [discriminate|].
  apply andb_true_iff in H as [Hc H]. rewrite Hc. cbn.
  apply (IH k'); [lia|exact H].
Qed.

Lemma has_four_digits_absorbs (s : string) :
  starts_with_digits 4 s || has_four_digits s = has_four_digits s.
Proof.
  destruct s as [|c s]; [reflexivity|].
  cbn [has_four_digits]. rewrite orb_assoc, orb_diag. reflexivity.
Qed.

Lemma starts_with_digits_cons (k : nat) (c : ascii) (s : string) :
  starts_with_digits (S k) (String c s)
  = Re.is_digit c && starts_with_digits k s.
Proof. reflexivity. Qed.

Lemma has_four_digits_cons (c : ascii) (s : string) :
  has_four_digits (String c s)
  = starts_with_digits 4 (String c s) || has_four_digits s.
Proof. reflexivity. Qed.

Lemma reaches_four_cons (run : nat) (c : ascii) (s : string) :
  reaches_four run (String c s)
  = (4 <=? (if Re.is_digit c then S run else O))%nat
    || reaches_four (if Re.is_digit c then S run else O) s.
Proof. reflexivity. Qed.

Lemma reaches_four_spec (s : string) :
  forall run,
    (run <= 3)%nat ->
    reaches_four run s = starts_with_digits (4 - run) s || has_four_digits s.
Proof.
  induction s as [|c s IH]; intros run Hrun.
  - destruct (4 - run)%nat eqn:E; [lia|]. reflexivity.
  - rewrite reaches_four_cons, has_four_digits_cons.
    replace (4 - run)%nat with (S (3 - run)) by lia.
    rewrite !starts_with_digits_cons.
    destruct (Re.is_digit c) eqn:Hd; cbn [andb].
    + destruct (Nat.eq_dec run 3) as [->|Hne]; [reflexivity|].
      replace (4 <=? S run)%nat with false by (symmetry; apply Nat.leb_gt; lia).
      rewrite (IH (S run)) by lia. cbn [orb].
      replace (4 - S run)%nat with (3 - run)%nat by lia.
      destruct (starts_with_digits (3 - run) s) eqn:E1; [reflexivity|].
      destruct (starts_with_digits 3 s) eqn:E3; [|reflexivity].
      rewrite (@starts_with_digits_fewer (3 - run) 3 s) in E1;
        [discriminate|lia|exact E3].
    + replace (4 <=? 0)%nat with false by reflexivity.
      rewrite (IH 0%nat) by lia. cbn [orb Nat.sub].
      apply has_four_digits_absorbs.
Qed.

Lemma remove_citations_skips (s1 s2 : string) :
  remove_citations (s1 ++ s2) (String.length s1) = remove_citations s2 0.
Proof. induction s1 as [|c s1 IH]; [reflexivity|]. cbn. exact IH. Qed.

Lemma remove_citations_plain (inner s : string) :
  no_parenthesis inner = true ->
  remove_citations (inner ++ s) 0 = (inner ++ remove_citations s 0)%string.
Proof.
  induction inner as [|c inner IH]; intros Hnp; [reflexivity|].
  cbn [no_parenthesis] in Hnp.
  apply andb_true_iff in Hnp as [Hc Hnp].
  apply andb_true_iff in Hc as [Hc1 _]. apply negb_true_iff in Hc1.
  cbn [append remove_citations]. rewrite Hc1, (IH Hnp). reflexivity.
Qed.

(** [X13] A parenthetical group without inner parentheses is removed
    exactly when it holds four digits in a row: "(Smith, 2001)" goes,
    "(see Fig. 2)" stays; the text after the group is treated in the same
    way. *)
Theorem citation_removed_iff_four_digits (inner rest : string) :
  no_parenthesis inner = true ->
  remove_citations (String "(" (inner ++ String ")" rest)) 0
  = if has_four_digits inner
    then remove_citations rest 0
    else String "(" (inner ++ String ")" (remove_citations rest 0)).
Proof.
  intros Hnp. cbn [remove_citations]. cbn [Ascii.eqb Bool.eqb andb].
  rewrite (citation_length_inner inner rest Hnp). cbn [orb Nat.add].
  rewrite reaches_four_spec by lia. cbn [Nat.sub].
  rewrite has_four_digits_absorbs.
  destruct (has_four_digits inner).
  - replace (inner ++ String ")" rest)%string
      with ((inner ++ ")") ++ rest)%string.
    + replace (S (String.length inner))
        with (String.length (inner ++ ")")%string).
      * apply remove_citations_skips.
      * clear. induction inner; cbn; auto.
    + clear. induction inner; cbn; [reflexivity|]. f_equal. assumption.
  - f_equal. rewrite (remove_citations_plain inner _ Hnp).
    f_equal.
Qed.

Lemma citation_removed_iff_four_digits_witness :
  remove_references ["(Smith, 2001) found it (see Fig. 2)"%string]
  = [" found it (see Fig. 2)"%string].
Proof.
  cbn [remove_references].
  change (remove_hyphen_space "(Smith, 2001) found it (see Fig. 2)")
    with (String "(" ("Smith, 2001" ++ String ")" " found it (see Fig. 2)")).
  rewrite (@citation_removed_iff_four_digits "Smith, 2001"
             " found it (see Fig. 2)" eq_refl).
  vm_compute. reflexivity.
Defined.

End ExtractorMore.

(** ** Location frequencies and the prepared text *)

Module FrequencyFacts.
Import Frequencies Preparation Samples Reading.
Local Open Scope Z_scope.

Lemma lookup_set (k k' : string) (v : Z) (d : dict) :
  dict_lookup k (dict_set k' v d)
  = if String.eqb k k' then Some v else dict_lookup k d.
Proof.
  induction d as [|[k0 v0] d IH]; cbn [dict_set dict_lookup].
  - reflexivity.
  - destruct (String.eqb_spec k' k0) as [->|Hne].
    + cbn [dict_lookup]. destruct (String.eqb k k0); reflexivity.
    + cbn [dict_lookup]. rewrite IH.
      destruct (String.eqb_spec k k0) as [->|]; [|reflexivity].
      destruct (String.eqb_spec k0 k'); [congruence|reflexivity].
Qed.

Lemma zero_dict_lookup (locations : list string) (k : string) :
  dict_lookup k (zero_dict locations)
  = if in_dec string_dec k locations then Some 0 else None.
Proof.
  unfold zero_dict.
  assert (H : forall d,
             dict_lookup k (fold_left (fun d l => dict_set l 0 d) locations d)
             = if in_dec string_dec k locations then Some 0
               else dict_lookup k d).
  { induction locations as [|l ls IH]; intros d; [reflexivity|].
    cbn [fold_left]. rewrite IH, lookup_set.
    destruct (in_dec string_dec k ls) as [Hin|Hnin];
      destruct (in_dec string_dec k (l :: ls)) as [Hin'|Hnin'];
      try reflexivity.
    - exfalso. apply Hnin'. right. exact Hin.
    - destruct Hin' as [->|Hin']; [|contradiction].
      rewrite String.eqb_refl. reflexivity.
    - destruct (String.eqb_spec k l) as [->|]; [|reflexivity].
      exfalso. apply Hnin'. left. reflexivity. }
  rewrite H. destruct (in_dec string_dec k locations); reflexivity.
Qed.

(** One page adds, to every listed name, its matches on the page once per
    listing; no key is missing. *)
Lemma count_page_spec (page_text : string) (locations : list string) :
  forall d,
    (forall l, In l locations -> dict_lookup l d <> None) ->
    exists d',
      count_page page_text locations d = Frequencies d'
      /\ forall k,
          dict_lookup k d'
          = option_map (fun v => v + listed locations k
                                     * count_matches k page_text)
                       (dict_lookup k d).
Proof.
  induction locations as [|l ls IH]; intros d Hall.
  - exists d. split; [reflexivity|]. intros k. unfold listed.
    cbn [count_occ Z.of_nat]. rewrite Z.mul_0_l.
    destruct (dict_lookup k d); cbn [option_map];
      [rewrite Z.add_0_r|]; reflexivity.
  - cbn [count_page].
    destruct (dict_lookup l d) as [v|] eqn:E;
      [|exfalso; apply (Hall l); [left; reflexivity|exact E]].
    destruct (IH (dict_set l (v + count_matches l page_text) d))
      as (d' & Hd' & Hlook).
    { intros l' Hin. rewrite lookup_set.
      destruct (String.eqb l' l); [discriminate|].
      apply Hall. right. exact Hin. }
    exists d'. split; [exact Hd'|].
    intros k. rewrite Hlook, lookup_set. unfold listed.
    cbn [count_occ].
    destruct (String.eqb_spec k l) as [->|Hne].
    + rewrite E. destruct (string_dec l l); [|congruence].
      cbn [option_map]. f_equal. lia.
    + destruct (string_dec l k); [congruence|]. reflexivity.
Qed.

Lemma count_pages_spec (pages : list page) (locations : list string) :
  forall d,
    (forall l, In l locations -> dict_lookup l d <> None) ->
    exists d',
      count_pages pages locations d = Frequencies d'
      /\ forall k,
          dict_lookup k d'
          = option_map (fun v => v + listed locations k * total_matches k pages)
                       (dict_lookup k d).
Proof.
  induction pages as [|pg pages IH]; intros d Hall.
  - exists d. split; [reflexivity|]. intros k.
    cbn [total_matches fold_right]. rewrite Z.mul_0_r.
    destruct (dict_lookup k d); cbn [option_map];
      [rewrite Z.add_0_r|]; reflexivity.
  - cbn [count_pages].
    destruct (count_page_spec (page_raw_text pg) locations d Hall)
      as (d1 & E1 & H1).
    rewrite E1.
    destruct (IH d1) as (d' & E' & H').
    { intros l Hin. rewrite H1. specialize (Hall l Hin).
      destruct (dict_lookup l d); [discriminate|congruence]. }
    exists d'. split; [exact E'|].
    intros k. rewrite H', H1. cbn [total_matches fold_right].
    fold (total_matches k pages).
    destruct (dict_lookup k d); cbn [option_map]; [f_equal; lia|reflexivity].
Qed.

(** [X14] On a document that opens, [get_location_frequencies] returns a
    dictionary whose keys are the listed names; the value of a name is its
    number of whole-word, case-insensitive matches on all pages, multiplied
    by the number of times the name is listed.  A name listed once gets
    exactly its number of matches; no [KeyError] is raised. *)
Theorem frequencies_are_totals (locations : list string) (pages : list page) :
  exists d,
    get_location_frequencies locations (Ok pages) = Frequencies d
    /\ (forall location,
           In location locations ->
           dict_lookup location d
           = Some (listed locations location * total_matches location pages))
    /\ (forall location,
           ~ In location locations -> dict_lookup location d = None).
Proof.
  unfold get_location_frequencies.
  destruct (count_pages_spec pages locations (zero_dict locations))
    as (d & E & H).
  { intros l Hin. rewrite zero_dict_lookup.
    destruct (in_dec string_dec l locations); [discriminate|contradiction]. }
  exists d. split; [exact E|]. split.
  - intros l Hin. rewrite H, zero_dict_lookup.
    destruct (in_dec string_dec l locations); [|contradiction]. reflexivity.
  - intros l Hnin. rewrite H, zero_dict_lookup.
    destruct (in_dec string_dec l locations); [contradiction|]. reflexivity.
Qed.

Lemma frequencies_are_totals_witness :
  exists d,
    get_location_frequencies ["Lisbon"; "Tagus"; "Lisbon"]%string
                             (Ok lisbon_pages) = Frequencies d
    /\ dict_lookup "Lisbon" d = Some 6
    /\ dict_lookup "Tagus" d = Some 0
    /\ dict_lookup "Porto" d = None.
Proof.
  destruct (frequencies_are_totals ["Lisbon"; "Tagus"; "Lisbon"]%string
                                   lisbon_pages) as (d & E & Hin & Hout).
  exists d. split; [exact E|]. split; [|split].
  - rewrite Hin; [vm_compute; reflexivity|left; reflexivity].
  - rewrite Hin; [vm_compute; reflexivity|right; left; reflexivity].
  - apply Hout. intros [H|[H|[H|[]]]]; discriminate.
Defined.

End FrequencyFacts.

(** ** Sorting *)

Section SortedFacts.
Import TableExtractor Reading.
Variable A : Type.
Variable le : A -> A -> bool.

Lemma insert_in (x y : A) (l : list A) :
  In y (insert le x l) <-> y = x \/ In y l.
Proof.
  induction l as [|z l IH]; cbn [insert].
  - cbn. intuition.
  - destruct (le x z); cbn [In]; [intuition|].
    rewrite IH. intuition.
Qed.

Lemma sorted_in (y : A) (l : list A) : In y (sorted le l) <-> In y l.
Proof.
  induction l as [|x l IH]; [reflexivity|].
  unfold sorted in *. cbn [fold_right]. rewrite insert_in, IH. cbn.
  intuition.
Qed.

Lemma insert_length (x : A) (l : list A) :
  List.length (insert le x l) = S (List.length l).
Proof.
  induction l as [|z l IH]; [reflexivity|].
  cbn [insert]. destruct (le x z); cbn [List.length]; [reflexivity|].
  rewrite IH. reflexivity.
Qed.

Lemma sorted_length (l : list A) :
  List.length (sorted le l) = List.length l.
Proof.
  induction l as [|x l IH]; [reflexivity|].
  unfold sorted in *. cbn [fold_right]. rewrite insert_length, IH.
  reflexivity.
Qed.

Hypothesis le_total : forall a b, le a b = false -> le b a = true.

Lemma insert_ordered (x : A) (l : list A) :
  ordered le l -> ordered le (insert le x l).
Proof.
  induction l as [|y l IH]; intros Ho; [exact I|].
  cbn [insert]. destruct (le x y) eqn:Exy.
  - cbn [ordered]. split; [exact Exy|exact Ho].
  - destruct l as [|z l].
    + cbn [insert ordered]. split; [apply le_total; exact Exy|exact I].
    + cbn [ordered] in Ho. destruct Ho as [Hyz Ho].
      specialize (IH Ho). cbn [insert] in *.
      destruct (le x z) eqn:Exz.
      * cbn [ordered]. split; [apply le_total; exact Exy|].
        split; [exact Exz|exact Ho].
      * split; [exact Hyz|exact IH].
Qed.

Lemma sorted_ordered (l : list A) : ordered le (sorted le l).
Proof.
  induction l as [|x l IH]; [exact I|].
  unfold sorted in *. cbn [fold_right]. apply insert_ordered. exact IH.
Qed.
End SortedFacts.

(** ** The percentile filter and the collection of locations *)

Module LocationFacts.
Import Llm MainPipeline TableExtractor Samples Reading FrequencyFacts.
Local Open Scope Z_scope.

Lemma all_scores_spec (locations : list location) (scores : list Z) :
  all_scores_of locations = Done scores ->
  scores = map score_of locations
  /\ Forall (fun loc => importance_score loc = Some (score_of loc)) locations.
Proof.
  revert scores. induction locations as [|loc locs IH]; intros scores H.
  - inversion H. split; [reflexivity|constructor].
  - cbn [all_scores_of] in H.
    destruct (importance_score loc) as [s|] eqn:E; [|discriminate].
    destruct (all_scores_of locs) as [rest|] eqn:Er; [|discriminate].
    inversion H; subst. destruct (IH rest eq_refl) as [-> Hall].
    assert (Es : score_of loc = s) by (unfold score_of; rewrite E; reflexivity).
    split.
    + cbn [map]. rewrite Es. reflexivity.
    + constructor; [rewrite Es; exact E|exact Hall].
Qed.

Lemma all_scores_present (locations : list location) :
  Forall (fun loc => importance_score loc <> None) locations ->
  all_scores_of locations = Done (map score_of locations).
Proof.
  induction 1 as [|loc locs Hloc _ IH]; [reflexivity|].
  cbn [all_scores_of map]. rewrite IH.
  unfold score_of. destruct (importance_score loc); [reflexivity|congruence].
Qed.

Lemma top_locations_failed (percentile : Z) (locations : list location)
      (e : error) :
  all_scores_of locations = Failed e ->
  top_locations percentile locations = Failed e.
Proof.
  intros H. destruct locations as [|l0 ls]; [discriminate|].
  unfold top_locations. rewrite H. reflexivity.
Qed.

Lemma top_locations_many (percentile : Z) (locations : list location) :
  (2 <= List.length locations)%nat ->
  Forall (fun loc => importance_score loc <> None) locations ->
  top_locations percentile locations
  = match percentile_score percentile
            (sorted Z.leb (map score_of locations)) with
    | Failed e => Failed e
    | Done thr =>
        Done (sorted (fun a b => score_of b <=? score_of a)
                (filter (fun loc =>
                           Qle_bool (if Qle_bool thr 5 then 5%Q else thr)
                                    (inject_Z (score_of loc)))
                        locations))
    end.
Proof.
  intros Hlen Hall.
  pose proof (all_scores_present Hall) as Es.
  destruct locations as [|l0 [|l1 rest]]; [cbn in Hlen; lia|cbn in Hlen; lia|].
  unfold top_locations. rewrite Es. reflexivity.
Qed.

Lemma top_locations_scored (percentile : Z) (locations top : list location) :
  top_locations percentile locations = Done top ->
  forall loc, In loc top ->
              In loc locations /\ importance_score loc <> None.
Proof.
  intros H.
  destruct (all_scores_of locations) as [scores|e] eqn:Es;
    [|rewrite (top_locations_failed percentile locations Es) in H; discriminate].
  destruct (all_scores_spec _ Es) as [_ Hsome].
  assert (Hall : Forall (fun loc => importance_score loc <> None) locations).
  { eapply Forall_impl; [|exact Hsome]. cbn. intros loc E. rewrite E.
    discriminate. }
  assert (Hsub : forall loc, In loc top -> In loc locations).
  { destruct locations as [|l0 [|l1 rest]] eqn:El.
    - inversion H. intros loc [].
    - unfold top_locations in H. rewrite (all_scores_present Hall) in H.
      inversion H. auto.
    - rewrite <- El in *.
      rewrite (@top_locations_many percentile locations) in H;
        [|rewrite El; cbn; lia|exact Hall].
      destruct (percentile_score percentile _); [|discriminate].
      inversion H. intros loc Hin. apply sorted_in in Hin.
      apply filter_In in Hin as [Hin _]. exact Hin. }
  intros loc Hin. split; [apply Hsub; exact Hin|].
  rewrite Forall_forall in Hall. apply Hall. apply Hsub. exact Hin.
Qed.

(** [X15] With two or more answers, every location that
    [location_extractor] keeps has a score of at least 5, whatever the
    percentile; the kept locations are among the answers and are listed by
    descending score. *)
Theorem kept_locations_score_at_least_five
        (percentile : Z) (locations top : list location) :
  (2 <= List.length locations)%nat ->
  top_locations percentile locations = Done top ->
  Forall (fun loc => exists s, importance_score loc = Some s /\ 5 <= s) top
  /\ ordered (fun a b => score_of b <=? score_of a) top
  /\ (forall loc, In loc top -> In loc locations).
Proof.
  intros Hlen H.
  destruct (all_scores_of locations) as [scores|e] eqn:Es;
    [|rewrite (top_locations_failed percentile locations Es) in H; discriminate].
  destruct (all_scores_spec _ Es) as [_ Hsome].
  assert (Hall : Forall (fun loc => importance_score loc <> None) locations).
  { eapply Forall_impl; [|exact Hsome]. cbn. intros loc E. rewrite E.
    discriminate. }
  rewrite (top_locations_many percentile Hlen Hall) in H.
  destruct (percentile_score percentile _) as [thr|]; [|discriminate].
  inversion H as [Htop]. clear H.
  set (thr' := if Qle_bool thr 5 then 5%Q else thr) in *.
  assert (Hthr : (5 <= thr')%Q).
  { subst thr'. destruct (Qle_bool thr 5) eqn:E; [apply Qle_refl|].
    apply Qlt_le_weak. apply Qnot_le_lt. intro Hc.
    apply Qle_bool_iff in Hc. congruence. }
  split; [|split].
  - apply Forall_forall. intros loc Hin.
    apply sorted_in in Hin. apply filter_In in Hin as [Hin Hq].
    rewrite Forall_forall in Hsome. exists (score_of loc).
    split; [apply Hsome; exact Hin|].
    apply Qle_bool_iff in Hq.
    rewrite Zle_Qle. eapply Qle_trans; [exact Hthr|exact Hq].
  - apply sorted_ordered. intros a b Hab.
    apply Z.leb_gt in Hab. apply Z.leb_le. lia.
  - intros loc Hin. apply sorted_in in Hin.
    apply filter_In in Hin as [Hin _]. exact Hin.
Qed.

Lemma kept_locations_score_at_least_five_witness :
  top_locations 70 three_locations
  = Done [ Location (Some "Lisbon") (Some "Portugal") (Some 9) ]%string
  /\ Forall (fun loc => exists s, importance_score loc = Some s /\ 5 <= s)
            [ Location (Some "Lisbon") (Some "Portugal") (Some 9) ]%string.
Proof.
  split; [vm_compute; reflexivity|].
  exact (proj1 (@kept_locations_score_at_least_five 70 three_locations
                  [ Location (Some "Lisbon") (Some "Portugal") (Some 9) ]%string
                  ltac:(cbn; lia) ltac:(vm_compute; reflexivity))).
Defined.

Lemma index_in_range (l : list Z) (k : Z) :
  0 <= k < Z.of_nat (List.length l) ->
  exists v, index l k = Done v /\ In v l.
Proof.
  intros Hk. unfold index.
  destruct (Z.ltb_spec k 0); [lia|].
  destruct (Z.leb_spec 0 k); [|lia].
  destruct (Z.ltb_spec k (Z.of_nat (List.length l))); [|lia].
  cbn [andb]. eexists. split; [reflexivity|].
  apply nth_In. lia.
Qed.

Lemma interpolation_bounded (lower upper top : Z) (f : Q) :
  lower <= top -> upper <= top -> (0 <= f)%Q -> (f < 1)%Q ->
  (inject_Z lower + f * (inject_Z upper - inject_Z lower) <= inject_Z top)%Q.
Proof.
  intros Hl Hu H0 H1.
  rewrite Zle_Qle in Hl, Hu.
  Lqa.nra.
Qed.

Lemma percentile_score_bounded (percentile top : Z) (scores : list Z) :
  0 <= percentile <= 100 ->
  (2 <= List.length scores)%nat ->
  (forall s, In s scores -> s <= top) ->
  exists thr, percentile_score percentile scores = Done thr
              /\ (thr <= inject_Z top)%Q.
Proof.
  intros Hp Hlen Htop. unfold percentile_score.
  set (n := Z.of_nat (List.length scores)).
  assert (Hn : 2 <= n) by (subst n; lia).
  set (x := ((inject_Z percentile / 100) * inject_Z (n - 1))%Q).
  assert (Hx0 : (0 <= x)%Q).
  { subst x. apply Qmult_le_0_compat.
    - apply Qle_shift_div_l; [reflexivity|].
      rewrite Qmult_0_l. change 0%Q with (inject_Z 0).
      rewrite <- Zle_Qle. lia.
    - change 0%Q with (inject_Z 0). rewrite <- Zle_Qle. lia. }
  assert (Hk0 : 0 <= Qfloor x).
  { change 0 with (Qfloor 0). apply Qfloor_resp_le. exact Hx0. }
  destruct (Z.leb_spec (n - 1) (Qfloor x)) as [Hhi|Hlo].
  - destruct (@index_in_range scores (n - 1)) as (v & -> & Hv);
      [subst n; lia|].
    exists (inject_Z v). split; [reflexivity|].
    rewrite <- Zle_Qle. apply Htop. exact Hv.
  - destruct (@index_in_range scores (Qfloor x)) as (lower & -> & Hlower);
      [subst n; lia|].
    destruct (@index_in_range scores (Qfloor x + 1)) as (upper & -> & Hupper);
      [subst n; lia|].
    eexists. split; [reflexivity|].
    apply interpolation_bounded.
    + apply Htop. exact Hlower.
    + apply Htop. exact Hupper.
    + pose proof (Qfloor_le x). Lqa.lra.
    + pose proof (Qlt_floor x) as Hf. rewrite inject_Z_plus in Hf.
      change (inject_Z 1) with 1%Q in Hf. Lqa.lra.
Qed.



(** [X17] One answer without a score fails the whole filter with the
    [KeyError] of the missing key, whatever the other answers are; a
    single answer that carries a score is returned as it is, also when
    its score is below 5. *)
Theorem missing_score_fails_filter
        (percentile : Z) (locations : list location) (loc : location) :
  (In loc locations -> importance_score loc = None ->
   top_locations percentile locations = Failed (KeyError "importance_score"))
  /\ (importance_score loc <> None ->
      top_locations percentile [loc] = Done [loc]).
Proof.
  split.
  - intros Hin Hnone. apply top_locations_failed.
    induction locations as [|a l IH]; [destruct Hin|].
    cbn [all_scores_of]. destruct Hin as [->|Hin].
    + rewrite Hnone. reflexivity.
    + destruct (importance_score a); [|reflexivity].
      rewrite (IH Hin). reflexivity.
  - intros Hs. unfold top_locations. cbn [all_scores_of].
    destruct (importance_score loc); [reflexivity|congruence].
Qed.

Lemma missing_score_fails_filter_witness :
  top_locations 70 [ Location (Some "Lisbon") None (Some 9);
                     Location (Some "Porto") None None ]%string
  = Failed (KeyError "importance_score")
  /\ top_locations 70 [ Location (Some "Europe") None (Some 3) ]%string
     = Done [ Location (Some "Europe") None (Some 3) ]%string.
Proof.
  split.
  - apply (proj1 (missing_score_fails_filter 70
                    [ Location (Some "Lisbon") None (Some 9);
                      Location (Some "Porto") None None ]%string
                    (Location (Some "Porto") None None)%string)).
    + right. left. reflexivity.
    + reflexivity.
  - apply (proj2 (missing_score_fails_filter 70 []
                    (Location (Some "Europe") None (Some 3))%string)).
    discriminate.
Defined.

End LocationFacts.

(** ** main.py: the collection loop and the prepared text *)

Module PipelineFacts.
Import Chunker KeywordContext TextExtractor Frequencies Preparation Llm
       MainPipeline Samples Reading ReFacts FrequencyFacts.
Local Open Scope Z_scope.

Lemma NoDup_snoc {A : Type} (l : list A) (x : A) :
  NoDup l -> ~ In x l -> NoDup (l ++ [x]).
Proof.
  induction 1 as [|a l Ha Hl IH]; intros Hx.
  - cbn. constructor; [intros []|constructor].
  - cbn [app]. constructor.
    + rewrite in_app_iff. intros [H|[H|[]]]; [contradiction|].
      apply Hx. left. symmetry. exact H.
    + apply IH. intros H. apply Hx. right. exact H.
Qed.

Lemma empty_lists_well_collected : well_collected (Collected [] [] [] [] []).
Proof.
  unfold well_collected. cbn.
  repeat split; auto; try constructor; try discriminate; intros [].
Qed.

Lemma collect_location_keeps (st : collected) (loc : location) :
  well_collected st -> well_collected (collect_location st loc).
Proof.
  intros Hst. pose proof Hst as (Hd & Hs & Hf & Hnd & Hne & Hseen).
  unfold collect_location.
  destruct (location_name loc) as [name|]; [|exact Hst].
  destruct (String.eqb_spec name EmptyString) as [->|Hname];
    cbn [negb andb]; [exact Hst|].
  destruct (is_seen name (seen_location_names st)) eqn:E;
    cbn [negb]; [exact Hst|].
  assert (Hnew : ~ In name (original_location_names st)).
  { intros Hin. apply Hseen in Hin. congruence. }
  unfold well_collected.
  cbn [display_location_names original_location_names importance_scores
       found_locations seen_location_names].
  rewrite !length_app. cbn [List.length].
  repeat split.
  - lia.
  - lia.
  - lia.
  - apply NoDup_snoc; assumption.
  - rewrite in_app_iff. intros [H|[H|[]]]; [contradiction|].
    apply Hname. exact H.
  - unfold is_seen. cbn [existsb]. intros H.
    apply orb_true_iff in H as [H|H].
    + apply String.eqb_eq in H. subst name0.
      apply in_or_app. right. left. reflexivity.
    + apply in_or_app. left. apply Hseen. exact H.
  - unfold is_seen. cbn [existsb]. intros H.
    apply in_app_or in H as [H|[H|[]]].
    + apply Hseen in H. unfold is_seen in H. rewrite H. apply orb_true_r.
    + subst name0. rewrite String.eqb_refl. reflexivity.
Qed.

Lemma collect_part_keeps (percentile : Z)
      (answer : string -> outcome (list location))
      (st : collected) (part : string) :
  well_collected st -> well_collected (collect_part percentile answer st part).
Proof.
  intros Hst. unfold collect_part.
  destruct (location_extractor percentile answer part) as [locs|]; [|exact Hst].
  revert st Hst. induction locs as [|loc locs IH]; intros st Hst; [exact Hst|].
  cbn [fold_left]. apply IH. apply collect_location_keeps. exact Hst.
Qed.

Lemma collect_parts_well (percentile : Z)
      (answer : string -> outcome (list location)) (parts : list string) :
  well_collected (collect_parts percentile answer parts).
Proof.
  unfold collect_parts.
  generalize empty_lists_well_collected.
  generalize (Collected [] [] [] [] []).
  induction parts as [|part parts IH]; intros st Hst; [exact Hst|].
  cbn [fold_left]. apply IH. apply collect_part_keeps. exact Hst.
Qed.

(** Only answers that passed the filter are collected, and these carry a
    score. *)
Lemma collect_parts_scored (percentile : Z)
      (answer : string -> outcome (list location)) (parts : list string) :
  Forall (fun s => s <> None)
         (importance_scores (collect_parts percentile answer parts)).
Proof.
  unfold collect_parts.
  assert (Hloc : forall locs st,
             Forall (fun loc => importance_score loc <> None) locs ->
             Forall (fun s : option Z => s <> None) (importance_scores st) ->
             Forall (fun s : option Z => s <> None)
                    (importance_scores (fold_left collect_location locs st))).
  { induction locs as [|loc locs IH]; intros st Hlocs Hst; [exact Hst|].
    inversion Hlocs as [|? ? Hloc Hlocs']; subst.
    cbn [fold_left]. apply IH; [exact Hlocs'|].
    unfold collect_location.
    destruct (location_name loc) as [name|]; [|exact Hst].
    destruct (negb (String.eqb name EmptyString) && negb (is_seen name _));
      [|exact Hst].
    cbn [importance_scores]. apply Forall_app. split; [exact Hst|].
    constructor; [exact Hloc|constructor]. }
  assert (Hinit : Forall (fun s : option Z => s <> None)
                         (importance_scores (Collected [] [] [] [] [])))
    by constructor.
  revert Hinit. generalize (Collected [] [] [] [] []).
  induction parts as [|part parts IH]; intros st Hst; [exact Hst|].
  cbn [fold_left]. apply IH. unfold collect_part, location_extractor.
  destruct (answer part) as [locations|]; [|exact Hst].
  destruct (top_locations percentile locations) as [top|] eqn:Et; [|exact Hst].
  apply Hloc; [|exact Hst].
  apply Forall_forall. intros loc Hin.
  exact (proj2 (LocationFacts.top_locations_scored percentile locations Et
                  loc Hin)).
Qed.

Lemma frequencies_list_length (names : list string)
      (opened : result (list page)) :
  List.length (frequencies_list_of names opened) = List.length names.
Proof.
  unfold frequencies_list_of.
  destruct (get_location_frequencies names opened);
    [apply length_map|apply repeat_length|apply repeat_length].
Qed.


(** [X19] No name is collected twice, however often the parts repeat it,
    so every frequency of the result is the plain number of matches of its
    name on the pages of the document; when the document does not open,
    every frequency is 1. *)
Theorem each_name_is_counted_once
        (percentile : Z) (answer : string -> outcome (list location))
        (parts : list string) (tokens : Z) :
  let names :=
    original_location_names (collect_parts percentile answer parts) in
  NoDup names
  /\ (forall pages, exists data,
         extract_locations percentile answer (Ok (parts, tokens)) (Ok pages)
         = inl (data, tokens)
         /\ location_frequencies data
            = map (fun name => total_matches name pages) names)
  /\ (forall e, exists data,
         extract_locations percentile answer (Ok (parts, tokens)) (Raise e)
         = inl (data, tokens)
         /\ location_frequencies data
            = repeat 1 (List.length names)).
Proof.
  intros names.
  destruct (collect_parts_well percentile answer parts)
    as (_ & _ & _ & Hnd & _ & _).
  fold names in Hnd.
  split; [exact Hnd|]. split.
  - intros pages. eexists. split; [reflexivity|].
    cbn [location_frequencies]. fold names.
    unfold frequencies_list_of, get_location_frequencies.
    destruct (count_pages_spec pages names (zero_dict names)) as (d & E & H).
    { intros l Hin. rewrite zero_dict_lookup.
      destruct (in_dec string_dec l names); [discriminate|contradiction]. }
    rewrite E. apply map_ext_in. intros name Hin.
    rewrite H, zero_dict_lookup.
    destruct (in_dec string_dec name names); [|contradiction].
    cbn [option_map]. unfold listed.
    rewrite (proj1 (NoDup_count_occ' string_dec names) Hnd name Hin).
    lia.
  - intros e. eexists. split; reflexivity.
Qed.

(** A run of the loop on three parts: the second part repeats Lisbon, the
    third request fails. *)
Example extract_locations_on_three_parts :
  extract_locations 70 sample_answer
    (Ok (["part one"; "part two"; "part three"]%string, 12))
    (Ok lisbon_pages)
  = inl (LocationData ["Lisbon, Portugal"; "Sintra, Portugal"]%string
                      [3; 0] [Some 9; Some 8] 2, 12).
Proof. vm_compute. reflexivity. Qed.

Lemma invalid_configuration_error
      (token : Type) (encode : string -> list token)
      (decode : list token -> string) (c : config) (text : string) :
  valid c = false -> text <> EmptyString ->
  exists e, split_text_into_balanced_parts encode decode c text = Raise e.
Proof.
  intros Hv Hne. unfold split_text_into_balanced_parts.
  destruct text; [congruence|].
  unfold valid in Hv.
  destruct (Z.leb_spec (max_tokens_per_part c) 0); [eexists; reflexivity|].
  destruct (Z.ltb_spec 0 (max_tokens_per_part c)); [|lia].
  cbn [andb] in Hv. rewrite Hv. eexists. reflexivity.
Qed.

(** [X20] With an invalid chunking configuration and a paper in which the
    keyword search finds some text, the exception of the preparation is
    caught, but the lists of names were never created: [extract_locations]
    ends with [UnboundLocalError] instead of returning a result. *)
Theorem failed_preparation_leaves_names_unbound
        (token : Type) (encode : string -> list token)
        (decode : list token -> string) (c : config)
        (part_size : option string) (append_abstract : string)
        (opened opened' : result (list page))
        (percentile : Z) (answer : string -> outcome (list location)) :
  valid c = false ->
  find_text_surrounding_keywords part_size (snd (extract_text opened))
  <> EmptyString ->
  extract_locations percentile answer
    (prepare_text_for_extraction encode decode c part_size append_abstract
                                 opened)
    opened'
  = inr (UnboundLocalError "display_location_names").
Proof.
  intros Hv Hne.
  destruct (@invalid_configuration_error token encode decode c _ Hv Hne)
    as [e He].
  unfold prepare_text_for_extraction, split_text_into_parts.
  rewrite He. reflexivity.
Qed.

Lemma failed_preparation_leaves_names_unbound_witness :
  extract_locations 70 sample_answer
    (prepare_text_for_extraction char_encode char_decode
       (Config 0 (15 # 100)) None "True" (Ok basin_paper))
    (Ok basin_paper)
  = inr (UnboundLocalError "display_location_names").
Proof.
  apply failed_preparation_leaves_names_unbound.
  - reflexivity.
  - vm_compute. discriminate.
Defined.

Lemma no_occurrence_no_match (p : Re.pattern) (text : string) :
  (forall kw pos,
      In kw (Re.alternatives p) ->
      Re.occurs_at (Re.ignorecase p) kw text pos = false) ->
  Re.finditer p text = [].
Proof.
  intros Hno. unfold Re.finditer.
  rewrite ExtractorMore.scan_none; [reflexivity|].
  intros pos.
  destruct (Re.matches_at p (list_ascii_of_string text) pos) eqn:Hm;
    [|reflexivity].
  destruct (@matches_occurs p text _ eq_refl pos Hm) as (kw & Hin & Ho & _).
  rewrite (Hno kw pos Hin) in Ho. discriminate.
Qed.

Lemma no_match_no_occurrence (p : Re.pattern) (text : string) :
  Re.finditer p text = [] ->
  forall kw pos,
    In kw (Re.alternatives p) ->
    Re.occurs_at (Re.ignorecase p) kw text pos = false.
Proof.
  intros Hnil kw pos Hin.
  destruct (Re.occurs_at (Re.ignorecase p) kw text pos) eqn:Ho; [|reflexivity].
  destruct (@search_leftmost p text _ eq_refl kw pos Hin Ho)
    as (kw0 & pos0 & _ & _ & _ & _ & _ & Hs).
  unfold Re.search in Hs. rewrite Hnil in Hs. discriminate.
Qed.

(** [X21] A paper in whose body no keyword occurs between word boundaries
    yields no part and no token, for every configuration, also an invalid
    one; [extract_locations] then returns the empty result without
    consulting the model, and whether or not the document opens for
    counting. *)
Theorem paper_without_keyword_yields_nothing
        (token : Type) (encode : string -> list token)
        (decode : list token -> string) (c : config)
        (part_size : option string) (append_abstract : string)
        (opened : result (list page)) :
  (forall kw pos,
      In kw keywords ->
      Re.occurs_at true kw (snd (extract_text opened)) pos = false) ->
  prepare_text_for_extraction encode decode c part_size append_abstract opened
  = Ok ([], 0)
  /\ forall percentile answer opened',
      extract_locations percentile answer
        (prepare_text_for_extraction encode decode c part_size
                                     append_abstract opened)
        opened'
      = inl (LocationData [] [] [] 0, 0).
Proof.
  intros Hno.
  assert (E : prepare_text_for_extraction encode decode c part_size
                append_abstract opened = Ok ([], 0)).
  { unfold prepare_text_for_extraction, split_text_into_parts,
      find_text_surrounding_keywords, find_contexts.
    assert (En : Re.finditer
                   (pattern (init keywords
                               match part_size with
                               | Some s => WStr s
                               | None => WNone
                               end))
                   (snd (extract_text opened)) = []).
    { apply no_occurrence_no_match. exact Hno. }
    rewrite En.
    destruct (snd (extract_text opened)); cbn [bind];
      unfold split_text_into_balanced_parts; cbn [bind];
      destruct (String.eqb append_abstract "True"); reflexivity. }
  split; [exact E|].
  intros percentile answer opened'. rewrite E.
  unfold extract_locations, collect_parts. cbn [fold_left].
  cbn [original_location_names display_location_names importance_scores
       List.length Z.of_nat].
  unfold frequencies_list_of.
  destruct (get_location_frequencies [] opened'); reflexivity.
Qed.

Lemma paper_without_keyword_yields_nothing_witness :
  prepare_text_for_extraction char_encode char_decode
    (Config 0 (15 # 100)) None "True" (Ok twenty_pages)
  = Ok ([], 0).
Proof.
  apply (@paper_without_keyword_yields_nothing ascii char_encode char_decode
           (Config 0 (15 # 100)) None "True" (Ok twenty_pages)).
  apply (@no_match_no_occurrence (Re.Pattern keywords true)).
  vm_compute. reflexivity.
Defined.

End PipelineFacts.

(** ** The table extractor: boxes, captions and failures *)

Module TableFacts.
Import TableExtractor TextExtractor Samples Reading AbstractFacts
       PageFilterFacts.
Local Open Scope Z_scope.

Lemma fold_left_invariant {S B : Type} (P : S -> Prop) (f : S -> B -> S)
      (l : list B) :
  (forall s b, In b l -> P s -> P (f s b)) ->
  forall s, P s -> P (fold_left f l s).
Proof.
  induction l as [|b l IH]; intros Hstep s Hs; [exact Hs|].
  cbn [fold_left]. apply IH.
  - intros s' b' Hin. apply Hstep. right. exact Hin.
  - apply Hstep; [left; reflexivity|exact Hs].
Qed.

(** Every rule that [extract_table_data] keeps starts between 50 and 720
    and belongs to the page. *)
Lemma scan_item_in (pg : page) (it : drawing_item) (acc : list (rect * Z))
      (ln : rect * Z) :
  In ln (scan_item pg acc it) ->
  In ln acc
  \/ ((50 < ry0 (fst ln))%Q /\ (ry0 (fst ln) < 720)%Q
      /\ snd ln = page_number pg).
Proof.
  assert (H : forall r,
             In ln (let bbox := Rect (rx0 r + (-1)) (ry0 r + (-1))
                                     (rx1 r + 1) (ry1 r + 1) in
                    if Qltb 50 (ry0 bbox) && Qltb (ry0 bbox) 720
                       && Qltb (Qabs (ry0 bbox - ry1 bbox)) 10
                    then acc ++ [(bbox, page_number pg)] else acc) ->
             In ln acc
             \/ ((50 < ry0 (fst ln))%Q /\ (ry0 (fst ln) < 720)%Q
                 /\ snd ln = page_number pg)).
  { intros r. cbv zeta.
    destruct (Qltb 50 _ && Qltb _ 720 && Qltb _ 10) eqn:E; [|auto].
    intros Hin. apply in_app_or in Hin as [Hin|[<-|[]]]; [auto|].
    right. apply andb_true_iff in E as [E _].
    apply andb_true_iff in E as [E1 E2].
    apply Qltb_true in E1, E2. cbn [fst snd]. auto. }
  destruct it as [r|r|]; cbn [scan_item]; [apply H|apply H|auto].
Qed.

Lemma scan_drawings_in (pg : page) (ln : rect * Z) :
  In ln (scan_drawings pg) ->
  (50 < ry0 (fst ln))%Q /\ (ry0 (fst ln) < 720)%Q
  /\ snd ln = page_number pg.
Proof.
  unfold scan_drawings. intros Hin.
  pose (P := fun acc : list (rect * Z) =>
               forall l, In l acc ->
                         (50 < ry0 (fst l))%Q /\ (ry0 (fst l) < 720)%Q
                         /\ snd l = page_number pg).
  assert (HP : P (fold_left
                    (fun acc drawing => fold_left (scan_item pg) drawing acc)
                    (page_drawings pg) [])).
  { apply fold_left_invariant; [|intros l []].
    intros acc drawing _ Hacc.
    apply fold_left_invariant; [|exact Hacc].
    intros acc' it _ Hacc' l Hl.
    apply scan_item_in in Hl as [Hl|Hl]; [apply Hacc'; exact Hl|exact Hl]. }
  apply HP. exact Hin.
Qed.

(** The [defaultdict]: values are appended under their own key. *)
Lemma dict_append_values {A : Type} (P : Z -> A -> Prop) (k : Z) (v : A)
      (d : list (Z * list A)) :
  P k v ->
  Forall (fun kv => Forall (P (fst kv)) (snd kv)) d ->
  Forall (fun kv => Forall (P (fst kv)) (snd kv)) (dict_append k v d).
Proof.
  intros Hv. induction 1 as [|[k' vs] d Hkv Hd IH]; cbn [dict_append].
  - constructor; [|constructor]. cbn. constructor; [exact Hv|constructor].
  - destruct (Z.eqb_spec k k') as [->|Hne].
    + constructor; [|exact Hd]. cbn [fst snd] in *.
      apply Forall_app. split; [exact Hkv|]. constructor; [exact Hv|constructor].
    + constructor; [exact Hkv|exact IH].
Qed.

Lemma merged_dict_get (k : Z) (d : list (Z * list rect)) (r : rect) :
  In r (dict_get k (map (fun kv => (fst kv, merged_lines_of (snd kv))) d)) ->
  exists vs, In (k, vs) d /\ In r (merged_lines_of vs).
Proof.
  induction d as [|[k' vs] d IH]; cbn [map dict_get fst snd]; [intros []|].
  destruct (Z.eqb_spec k k') as [->|Hne]; intros Hin.
  - exists vs. split; [left; reflexivity|exact Hin].
  - destruct (IH Hin) as (vs' & Hd & Hr). exists vs'. split; [right|]; auto.
Qed.

(** A merged rule is flat and lies at the height of one of the rules it
    was merged from. *)
Lemma merge_lines_in (ls : list rect) :
  forall open r,
    In r (merge_lines ls open) ->
    ry1 r = ry0 r
    /\ ((exists l, In l ls /\ ry0 r = ry0 l)
        \/ exists a b, open = Some (ry0 r, a, b)).
Proof.
  induction ls as [|next rest IH]; intros open r Hin; cbn [merge_lines] in Hin.
  - destruct open as [[[y a] b]|]; [|destruct Hin].
    destruct Hin as [<-|[]]. cbn [ry0 ry1]. split; [reflexivity|].
    right. eauto.
  - destruct open as [[[y a] b]|].
    + destruct (Qle_bool (Qabs (ry0 next - y)) 2).
      * apply IH in Hin as [E [(l & Hl & El)|(a' & b' & Eo)]];
          (split; [exact E|]).
        -- left. exists l. split; [right; exact Hl|exact El].
        -- inversion Eo; subst. right. eauto.
      * destruct Hin as [<-|Hin].
        -- cbn [ry0 ry1]. split; [reflexivity|]. right. eauto.
        -- apply IH in Hin as [E [(l & Hl & El)|(a' & b' & Eo)]];
             (split; [exact E|]); left.
           ++ exists l. split; [right; exact Hl|exact El].
           ++ inversion Eo as [Ey]. exists next.
              split; [left; reflexivity|]. congruence.
    + apply IH in Hin as [E [(l & Hl & El)|(a' & b' & Eo)]];
        (split; [exact E|]); left.
      * exists l. split; [right; exact Hl|exact El].
      * inversion Eo as [Ey]. exists next.
        split; [left; reflexivity|]. congruence.
Qed.

Lemma merged_lines_of_in (lines : list rect) (r : rect) :
  In r (merged_lines_of lines) ->
  ry1 r = ry0 r /\ exists l, In l lines /\ ry0 r = ry0 l.
Proof.
  unfold merged_lines_of. intros Hin.
  apply merge_lines_in in Hin as [E [(l & Hl & El)|(a & b & Eo)]];
    [|discriminate].
  split; [exact E|]. exists l. split; [|exact El].
  apply sorted_in in Hl. exact Hl.
Qed.

(** A group of rules is never empty, and all its rules lie strictly below
    the caption they are grouped under. *)
Lemma boxes_of_page_in (page_lines : list rect) (n : Z)
      (tables : list table_coord) (g : list rect * Z) :
  In g (boxes_of_page page_lines n tables) ->
  snd g = n /\ fst g <> []
  /\ forall r, In r (fst g) ->
               In r page_lines
               /\ exists t, In t tables /\ (caption_y t < ry0 r)%Q.
Proof.
  induction tables as [|t rest IH]; cbn [boxes_of_page]; [intros []|].
  cbv zeta.
  destruct (filter _ page_lines) as [|r0 rs] eqn:E; intros Hin.
  - destruct (IH Hin) as (H1 & H2 & H3). split; [exact H1|].
    split; [exact H2|]. intros r Hr. destruct (H3 r Hr) as (Hl & t' & Ht & Hy).
    split; [exact Hl|]. exists t'. split; [right; exact Ht|exact Hy].
  - destruct Hin as [<-|Hin].
    + cbn [fst snd]. split; [reflexivity|]. split; [discriminate|].
      intros r Hr. rewrite <- E in Hr. apply filter_In in Hr as [Hr Hc].
      apply andb_true_iff in Hc as [Hc _]. apply Qltb_true in Hc.
      split; [exact Hr|]. exists t. split; [left; reflexivity|exact Hc].
    + destruct (IH Hin) as (H1 & H2 & H3). split; [exact H1|].
      split; [exact H2|]. intros r Hr.
      destruct (H3 r Hr) as (Hl & t' & Ht & Hy).
      split; [exact Hl|]. exists t'. split; [right; exact Ht|exact Hy].
Qed.

Lemma group_table_elements_in (lines : list (rect * Z))
      (tables : list table_coord) (g : list rect * Z) :
  In g (group_table_elements lines tables) ->
  fst g <> []
  /\ forall r, In r (fst g) ->
               ry1 r = ry0 r
               /\ (exists l, In l lines /\ ry0 r = ry0 (fst l))
               /\ exists t, In t tables /\ caption_page t = snd g
                            /\ (caption_y t < ry0 r)%Q.
Proof.
  unfold group_table_elements. cbv zeta. intros Hin.
  apply in_flat_map in Hin as ([k ts] & Hkv & Hg). cbn [fst snd] in Hg.
  apply boxes_of_page_in in Hg as (Hn & Hne & Hr).
  split; [exact Hne|]. intros r Hin.
  destruct (Hr r Hin) as (Hl & t & Ht & Hy).
  apply merged_dict_get in Hl as (vs & Hvs & Hm).
  apply merged_lines_of_in in Hm as (Eflat & l0 & Hl0 & El0).
  split; [exact Eflat|]. split.
  - assert (Hall : Forall (fun kv : Z * list rect =>
                             Forall (fun v => exists l, In l lines
                                                        /\ fst l = v)
                                    (snd kv))
                          (fold_left (fun d ln => dict_append (snd ln) (fst ln) d)
                                     lines [])).
    { apply fold_left_invariant; [|constructor].
      intros d ln Hln Hd.
      apply (dict_append_values
               (fun (_ : Z) v => exists l, In l lines /\ fst l = v));
        [|exact Hd].
      exists ln. split; [exact Hln|reflexivity]. }
    rewrite Forall_forall in Hall. specialize (Hall _ Hvs). cbn [snd] in Hall.
    rewrite Forall_forall in Hall. destruct (Hall _ Hl0) as (l & Hl & <-).
    exists l. split; [exact Hl|exact El0].
  - assert (Hall : Forall (fun kv : Z * list table_coord =>
                             Forall (fun t => In t tables
                                              /\ caption_page t = fst kv)
                                    (snd kv))
                          (fold_left (fun d t => dict_append (caption_page t) t d)
                                     tables [])).
    { apply fold_left_invariant; [|constructor].
      intros d t0 Ht0 Hd.
      apply (dict_append_values
               (fun k t => In t tables /\ caption_page t = k));
        [|exact Hd].
      split; [exact Ht0|reflexivity]. }
    rewrite Forall_forall in Hall. specialize (Hall _ Hkv). cbn [fst snd] in Hall.
    rewrite Forall_forall in Hall. apply sorted_in in Ht.
    destruct (Hall _ Ht) as (Ht' & Ek).
    exists t. split; [exact Ht'|]. split; [congruence|exact Hy].
Qed.

(** The groups of [create_table_bounding_boxes]: the first group starts
    with the first rectangle, and every group starts with one of the
    rectangles. *)
Lemma group_rectangles_facts (rects : list rect) :
  forall (c : rect) (tl : list rect) (grouped : list (list rect)),
  exists tl' gs,
    group_rectangles rects (c :: tl) grouped = grouped ++ ((c :: tl') :: gs)
    /\ Forall (fun g => exists r rest, g = r :: rest
                                       /\ In r ((c :: tl) ++ rects))
              ((c :: tl') :: gs).
Proof.
  induction rects as [|r rest IH]; intros c tl grouped.
  - exists tl, []. split; [reflexivity|].
    constructor; [|constructor]. exists c, tl. split; [reflexivity|].
    left. reflexivity.
  - cbn [group_rectangles].
    destruct (Qle_bool _ 3).
    + destruct (IH c (tl ++ [r]) grouped) as (tl' & gs & E & Hall).
      exists tl', gs. split; [exact E|].
      eapply Forall_impl; [|exact Hall]. cbn.
      intros g (r0 & rest0 & Eg & Hin). exists r0, rest0.
      split; [exact Eg|].
      change (In r0 ((c :: tl) ++ r :: rest)).
      change (In r0 ((c :: tl ++ [r]) ++ rest)) in Hin.
      rewrite app_comm_cons in Hin. rewrite <- app_assoc in Hin. exact Hin.
    + destruct (IH r [] (grouped ++ [c :: tl])) as (tl' & gs & E & Hall).
      exists tl, ((r :: tl') :: gs). split.
      * rewrite E, <- app_assoc. reflexivity.
      * constructor.
        -- exists c, tl. split; [reflexivity|]. left. reflexivity.
        -- eapply Forall_impl; [|exact Hall]. cbn.
           intros g (r0 & rest0 & Eg & Hin). exists r0, rest0.
           split; [exact Eg|]. right. apply in_or_app. right. exact Hin.
Qed.

Lemma last_in {A : Type} (l : list A) (d : A) : l <> [] -> In (List.last l d) l.
Proof.
  induction l as [|a l IH]; [congruence|]. intros _.
  destruct l as [|b l]; [left; reflexivity|].
  right. apply IH. discriminate.
Qed.

Lemma rect_key_le_total (a b : rect) :
  rect_key_le a b = false -> rect_key_le b a = true.
Proof.
  unfold rect_key_le. intros H.
  apply orb_false_iff in H as [H1 H2]. apply Qltb_false in H1.
  destruct (Qlt_le_dec (ry0 b) (ry0 a)) as [Hlt|Hle].
  - apply Qltb_true in Hlt. rewrite Hlt. reflexivity.
  - assert (Heq : (ry0 a == ry0 b)%Q) by (apply Qle_antisym; assumption).
    apply orb_true_iff. right.
    assert (E1 : Qeq_bool (ry0 a) (ry0 b) = true) by (apply Qeq_bool_iff; exact Heq).
    rewrite E1 in H2. cbn [andb] in H2.
    apply andb_true_iff. split.
    + apply Qeq_bool_iff. symmetry. exact Heq.
    + apply Qle_bool_iff. apply Qlt_le_weak. apply Qnot_le_lt.
      intros Hc. apply Qle_bool_iff in Hc. congruence.
Qed.

Lemma rect_key_le_height (a b : rect) :
  rect_key_le a b = true -> (ry0 a <= ry0 b)%Q.
Proof.
  unfold rect_key_le. intros H. apply orb_true_iff in H as [H|H].
  - apply Qltb_true in H. apply Qlt_le_weak. exact H.
  - apply andb_true_iff in H as [H _]. apply Qeq_bool_iff in H.
    rewrite H. apply Qle_refl.
Qed.

Lemma ordered_head_least (a : rect) (l : list rect) :
  ordered rect_key_le (a :: l) ->
  forall x, In x (a :: l) -> (ry0 a <= ry0 x)%Q.
Proof.
  revert a. induction l as [|b l IH]; intros a Ho x Hin.
  - destruct Hin as [<-|[]]. apply Qle_refl.
  - cbn [ordered] in Ho. destruct Ho as [Hab Ho].
    destruct Hin as [<-|Hin]; [apply Qle_refl|].
    eapply Qle_trans; [apply rect_key_le_height; exact Hab|].
    apply IH; assumption.
Qed.

(** With no empty group, [create_table_bounding_boxes] returns; each box
    spans from one rectangle of a group down to a second one that is not
    higher up. *)
Lemma create_table_bounding_boxes_facts (rs : list (list rect * Z)) :
  Forall (fun g => fst g <> []) rs ->
  exists boxes,
    create_table_bounding_boxes rs = Ok boxes
    /\ Forall (fun entry =>
                 exists g g0 gl,
                   In g rs /\ In g0 (fst g) /\ In gl (fst g)
                   /\ (ry0 g0 <= ry0 gl)%Q
                   /\ entry = Box (Rect (rx0 g0) (ry0 g0) (rx1 g0) (ry0 gl))
                                  (Some (snd g)))
              boxes.
Proof.
  induction 1 as [|[rects n] rs Hne Hrs IH].
  - exists []. split; [reflexivity|constructor].
  - destruct IH as (tail & Et & Ht).
    assert (Ht' : Forall (fun entry =>
                 exists g g0 gl,
                   In g ((rects, n) :: rs) /\ In g0 (fst g) /\ In gl (fst g)
                   /\ (ry0 g0 <= ry0 gl)%Q
                   /\ entry = Box (Rect (rx0 g0) (ry0 g0) (rx1 g0) (ry0 gl))
                                  (Some (snd g))) tail).
    { eapply Forall_impl; [|exact Ht]. cbn.
      intros entry (g & g0 & gl & Hg & H). exists g, g0, gl.
      split; [right; exact Hg|exact H]. }
    cbn [create_table_bounding_boxes fst] in *.
    pose proof (sorted_ordered rect_key_le rect_key_le_total rects) as Hord.
    pose proof (fun y => sorted_in rect_key_le y rects) as Hmem.
    destruct (sorted rect_key_le rects) as [|first others] eqn:Es.
    { exfalso. apply Hne. destruct rects as [|r0 rects']; [reflexivity|].
      destruct (proj2 (Hmem r0) (or_introl eq_refl)). }
    rewrite Et. cbn [bind].
    destruct (group_rectangles_facts others first [] [])
      as (tl' & gs & Eg & Hheads).
    rewrite Eg. cbn [app].
    assert (Hlast : In (List.last ((first :: tl') :: gs) [])
                       ((first :: tl') :: gs))
      by (apply last_in; discriminate).
    destruct (List.last ((first :: tl') :: gs) []) as [|gl gtl] eqn:El.
    + exists tail. split; [reflexivity|exact Ht'].
    + eexists. split; [reflexivity|].
      constructor; [|exact Ht'].
      rewrite Forall_forall in Hheads.
      destruct (Hheads _ Hlast) as (r & rest & Er & Hr).
      inversion Er; subst r rest. cbn [app] in Hr.
      exists (rects, n), first, gl. cbn [fst snd].
      split; [left; reflexivity|].
      split; [apply Hmem; left; reflexivity|].
      split; [apply Hmem; exact Hr|].
      split; [apply (ordered_head_least Hord); exact Hr|reflexivity].
Qed.

Lemma group_table_elements_nonempty (lines : list (rect * Z))
      (tables : list table_coord) :
  Forall (fun g => fst g <> []) (group_table_elements lines tables).
Proof.
  apply Forall_forall. intros g Hg.
  apply group_table_elements_in in Hg as [Hne _]. exact Hne.
Qed.

(** [X22] [extract_tables] never raises: a group of rules handed to
    [create_table_bounding_boxes] is never empty, so the index error of
    its first rectangle cannot occur. *)
Theorem extract_tables_never_raises
        (fullmatch : string -> bool) (pg : page) :
  exists tables, extract_tables fullmatch pg = Ok tables.
Proof.
  unfold extract_tables.
  destruct (extract_table_data fullmatch pg) as [[[|lines] tables]|].
  - eexists. reflexivity.
  - destruct (create_table_bounding_boxes_facts
                (group_table_elements_nonempty lines tables))
      as (boxes & E & _).
    rewrite E. eexists. reflexivity.
  - eexists. reflexivity.
Qed.

(** The boxes of a page that is not rotated. *)
Lemma flat_page_boxes (fullmatch : string -> bool) (pg : page) :
  count_dir 0 (-1) (text_spans pg) <= count_dir 1 0 (text_spans pg) ->
  exists tables,
    extract_tables fullmatch pg = Ok tables
    /\ forall boxes,
        tables = Some boxes ->
        Forall (fun entry =>
                  exists r,
                    entry = Box r (Some (page_number pg))
                    /\ (50 < ry0 r)%Q /\ (ry0 r <= ry1 r)%Q /\ (ry1 r < 720)%Q
                    /\ exists cap,
                        In cap (captions fullmatch (text_spans pg))
                        /\ (ry0 (span_bbox (snd cap)) < ry0 r)%Q)
               boxes.
Proof.
  intros Hdir. unfold extract_tables, extract_table_data.
  destruct (negb (contains "Table" (page_raw_text pg)));
    [exists None; split; [reflexivity|discriminate]|].
  rewrite scan_page_spec.
  cbn [horizontal_count vertical_count table_coordinates].
  destruct (Z.ltb_spec (count_dir 1 0 (text_spans pg))
                       (count_dir 0 (-1) (text_spans pg))); [lia|].
  remember (map (fun ds => TableCoord (span_text (snd ds))
                                     (ry0 (span_bbox (snd ds)))
                                     (page_number pg))
                (captions fullmatch (text_spans pg))) as tables eqn:Etab.
  destruct tables as [|t ts] eqn:Et;
    [exists None; split; [reflexivity|discriminate]|].
  rewrite <- Et in *.
  destruct (scan_drawings pg) as [|l ls] eqn:El;
    [exists None; split; [reflexivity|discriminate]|].
  rewrite <- El.
  destruct (create_table_bounding_boxes_facts
              (group_table_elements_nonempty (scan_drawings pg) tables))
    as (boxes' & E & Hall).
  rewrite E. cbn [bind]. exists (Some boxes'). split; [reflexivity|].
  intros boxes Hb. inversion Hb; subst boxes'.
  eapply Forall_impl; [|exact Hall]. cbn.
  intros entry (g & g0 & gl & Hg & Hg0 & Hgl & Hle & ->).
  apply group_table_elements_in in Hg as [_ Hr].
  destruct (Hr g0 Hg0) as (_ & (l0 & Hl0 & E0) & (t0 & Ht0 & Ep0 & Hy0)).
  destruct (Hr gl Hgl) as (_ & (l1 & Hl1 & E1) & _).
  apply scan_drawings_in in Hl0 as (Hlo & _ & _).
  apply scan_drawings_in in Hl1 as (_ & Hhi & _).
  rewrite Etab in Ht0. apply in_map_iff in Ht0 as (cap & <- & Hcap).
  cbn [caption_page caption_y] in *.
  eexists. split; [rewrite <- Ep0; reflexivity|].
  cbn [ry0 ry1]. rewrite E0, E1 in *.
  split; [exact Hlo|].
  split; [exact Hle|]. split; [exact Hhi|].
  exists cap. split; [exact Hcap|]. exact Hy0.
Qed.

(** [X23] On a page that is not rotated, every table box that
    [extract_tables] returns carries the number of the page; its first
    vertical coordinate is above 50, its second one below 720 and not
    smaller than the first, and the first one is strictly greater than
    the vertical coordinate of a caption of the page. *)
Theorem table_boxes_lie_below_captions
        (fullmatch : string -> bool) (pg : page) (boxes : list table_entry) :
  count_dir 0 (-1) (text_spans pg) <= count_dir 1 0 (text_spans pg) ->
  extract_tables fullmatch pg = Ok (Some boxes) ->
  Forall (fun entry =>
            exists r,
              entry = Box r (Some (page_number pg))
              /\ (50 < ry0 r)%Q /\ (ry0 r <= ry1 r)%Q /\ (ry1 r < 720)%Q
              /\ exists cap,
                  In cap (captions fullmatch (text_spans pg))
                  /\ (ry0 (span_bbox (snd cap)) < ry0 r)%Q)
         boxes.
Proof.
  intros Hdir H.
  destruct (flat_page_boxes fullmatch pg Hdir) as (tables & E & Hall).
  rewrite E in H. inversion H. apply Hall. assumption.
Qed.

Lemma table_boxes_lie_below_captions_witness :
  Forall (fun entry =>
            exists r,
              entry = Box r (Some 3)
              /\ (50 < ry0 r)%Q /\ (ry0 r <= ry1 r)%Q /\ (ry1 r < 720)%Q
              /\ exists cap,
                  In cap (captions table_pattern_fullmatch
                                   (text_spans ruled_page))
                  /\ (ry0 (span_bbox (snd cap)) < ry0 r)%Q)
         [Box (Rect 49 119 401 299) (Some 3);
          Box (Rect 39 449 301 599) (Some 3)].
Proof.
  apply (@table_boxes_lie_below_captions table_pattern_fullmatch ruled_page).
  - vm_compute. discriminate.
  - vm_compute. reflexivity.
Defined.

Lemma boxes_are_entries (tables : list table_entry) :
  Forall (fun entry => exists r p, entry = Box r p) tables ->
  exists boxes, tables = entries boxes.
Proof.
  induction 1 as [|entry tables (r & p & ->) _ (boxes & ->)].
  - exists []. reflexivity.
  - exists ((r, p) :: boxes). reflexivity.
Qed.

Lemma filter_with_boxes (words : list word) (boxes : list (rect * option Z))
      (min_y max_y : Q) :
  exists kept_texts,
    process_page_with_tables words (entries boxes) min_y max_y = Ok kept_texts.
Proof.
  induction words as [|w words (tail & IH)]; [eexists; reflexivity|].
  cbn [process_page_with_tables]. rewrite is_word_inside_boxes.
  cbn [bind]. rewrite IH. cbn [bind]. eexists. reflexivity.
Qed.

Lemma marker_raises (words : list word) (w h min_y max_y : Q) (n : Z)
      (e : exn) :
  process_page_with_tables words [Box (Rect 0 0 w h) None; Num n] min_y max_y
  = Raise e ->
  e = TypeError "'int' object is not subscriptable"
  /\ exists wd, In wd words /\ inside_box wd (Rect 0 0 w h) = false.
Proof.
  induction words as [|wd words IH]; [discriminate|].
  cbn [process_page_with_tables is_word_inside_any_table].
  fold (inside_box wd (Rect 0 0 w h)).
  destruct (inside_box wd (Rect 0 0 w h)) eqn:E.
  - cbn [bind].
    destruct (process_page_with_tables words _ min_y max_y) as [tail|e'] eqn:Et;
      cbn [bind]; [discriminate|].
    intros H. inversion H; subst e'.
    destruct (IH eq_refl) as (He & wd' & Hin & Hout).
    split; [exact He|]. exists wd'. split; [right; exact Hin|exact Hout].
  - cbn [bind]. intros H. inversion H.
    split; [reflexivity|]. exists wd. split; [left; reflexivity|exact E].
Qed.

(** [X24] [process_page] raises on rotated pages only: when it raises,
    the page has strictly more vertical than horizontal spans, the
    exception is the [TypeError] of subscripting the page number, and some
    word of the page does not lie strictly inside the page rectangle. *)
Theorem only_rotated_page_raises (pg : page) (words : list word) (e : exn) :
  process_page pg words = Raise e ->
  e = TypeError "'int' object is not subscriptable"
  /\ count_dir 1 0 (text_spans pg) < count_dir 0 (-1) (text_spans pg)
  /\ exists w,
      In w words
      /\ inside_box w (Rect 0 0 (page_width pg) (page_height pg)) = false.
Proof.
  unfold process_page.
  destruct (Z.lt_ge_cases (count_dir 1 0 (text_spans pg))
                          (count_dir 0 (-1) (text_spans pg))) as [Hrot|Hflat].
  - unfold extract_tables, extract_table_data.
    destruct (negb (contains "Table" (page_raw_text pg)));
      [cbn [bind]; discriminate|].
    rewrite scan_page_spec.
    cbn [horizontal_count vertical_count table_coordinates].
    destruct (Z.ltb_spec (count_dir 1 0 (text_spans pg))
                         (count_dir 0 (-1) (text_spans pg))); [|lia].
    destruct (map _ (captions table_pattern_fullmatch (text_spans pg)));
      [cbn [bind]; discriminate|].
    cbn [bind]. intros Hraise. apply marker_raises in Hraise as (He & Hw).
    split; [exact He|]. split; [exact Hrot|exact Hw].
  - destruct (flat_page_boxes table_pattern_fullmatch pg ltac:(lia))
      as ([boxes|] & E & Hall); rewrite E; cbn [bind]; [|discriminate].
    assert (Hshape : Forall (fun entry => exists r p, entry = Box r p) boxes).
    { eapply Forall_impl; [|exact (Hall boxes eq_refl)]. cbn.
      intros entry (r & -> & _). eauto. }
    destruct (boxes_are_entries Hshape) as (bs & ->).
    destruct bs as [|b bs]; [discriminate|].
    change (Box (fst b) (snd b) :: entries bs) with (entries (b :: bs)).
    destruct (filter_with_boxes words (b :: bs)
                (min_y_of (page_height pg)) (max_y_of (page_height pg)))
      as (kept_texts & ->).
    discriminate.
Qed.

Lemma only_rotated_page_raises_witness :
  count_dir 1 0 (text_spans rotated_page_with_edge_word)
  < count_dir 0 (-1) (text_spans rotated_page_with_edge_word).
Proof.
  exact (proj1 (proj2 (@only_rotated_page_raises rotated_page_with_edge_word
                         (page_words rotated_page_with_edge_word)
                         (TypeError "'int' object is not subscriptable")
                         ltac:(vm_compute; reflexivity)))).
Defined.

End TableFacts.

(** ** The end of the abstract *)

Module AbstractMore.
Import AbstractExtractor TextExtractor Samples Reading AbstractFacts.
Local Open Scope Z_scope.

Lemma bbox_scan_spec (d : word) (bbox : list word) :
  forall i0,
    match bbox_scan bbox i0 with
    | Some i =>
        i0 <= i < i0 + Z.of_nat (List.length bbox) - 1
        /\ (forall j, (j < Z.to_nat (i - i0))%nat ->
                      discontinuity (nth j bbox d) (nth (S j) bbox d) = false)
        /\ discontinuity (nth (Z.to_nat (i - i0)) bbox d)
                         (nth (S (Z.to_nat (i - i0))) bbox d) = true
    | None =>
        forall j, (S j < List.length bbox)%nat ->
                  discontinuity (nth j bbox d) (nth (S j) bbox d) = false
    end.
Proof.
  induction bbox as [|a l IH]; intros i0.
  - cbn. intros j Hj. lia.
  - destruct l as [|b rest].
    + cbn. intros j Hj. lia.
    + rewrite bbox_scan_step. destruct (discontinuity a b) eqn:E.
      * replace (i0 - i0) with 0 by lia. cbn [Z.to_nat nth List.length].
        split; [lia|]. split; [intros j Hj; lia|exact E].
      * specialize (IH (i0 + 1)).
        destruct (bbox_scan (b :: rest) (i0 + 1)) as [i|].
        -- destruct IH as (Hr & Hbefore & Hat).
           cbn [List.length] in *.
           replace (Z.to_nat (i - i0)) with (S (Z.to_nat (i - (i0 + 1))))
             by lia.
           split; [lia|]. split.
           ++ intros [|j] Hj; [exact E|].
              change (nth (S j) (a :: b :: rest) d) with (nth j (b :: rest) d).
              change (nth (S (S j)) (a :: b :: rest) d)
                with (nth (S j) (b :: rest) d).
              apply Hbefore. lia.
           ++ exact Hat.
        -- intros [|j] Hj; [exact E|].
           change (nth (S j) (a :: b :: rest) d) with (nth j (b :: rest) d).
           change (nth (S (S j)) (a :: b :: rest) d)
             with (nth (S j) (b :: rest) d).
           apply IH. cbn [List.length] in *. lia.
Qed.

(** [X25] [bbox_calculator] returns the index of the first word that is
    followed by a discontinuity (more than 20 units between its right edge
    and the left edge of the next word, and more than 5 units between its
    bottom edge and the top edge of the next word); without such a word it
    returns the index of the last word, which is -1 exactly for an empty
    list. *)
Theorem bbox_calculator_is_first_discontinuity (d : word) (bbox : list word) :
  let i := bbox_calculator bbox in
  let n := Z.of_nat (List.length bbox) in
  -1 <= i <= n - 1
  /\ (i = -1 <-> bbox = [])
  /\ (forall j, Z.of_nat j < i ->
                discontinuity (nth j bbox d) (nth (S j) bbox d) = false)
  /\ (i < n - 1 ->
      discontinuity (nth (Z.to_nat i) bbox d) (nth (S (Z.to_nat i)) bbox d)
      = true).
Proof.
  cbv zeta. unfold bbox_calculator.
  pose proof (bbox_scan_spec d bbox 0) as H.
  destruct (bbox_scan bbox 0) as [i|].
  - destruct H as (Hr & Hbefore & Hat).
    rewrite Z.sub_0_r in Hbefore, Hat.
    split; [lia|]. split; [|split].
    + split; [lia|]. intros ->. cbn in Hr. lia.
    + intros j Hj. apply Hbefore. lia.
    + intros _. exact Hat.
  - split; [lia|]. split; [|split].
    + destruct bbox; [split; reflexivity|].
      cbn [List.length]. split; [lia|discriminate].
    + intros j Hj. apply H. lia.
    + lia.
Qed.

Lemma bbox_calculator_is_first_discontinuity_witness :
  bbox_calculator (body_front ++ [body_tenth; spaced_header])
  = Z.of_nat (List.length body_front)
  /\ discontinuity body_tenth spaced_header = true.
Proof.
  split; [vm_compute; reflexivity|].
  exact (proj2 (proj2 (proj2
           (bbox_calculator_is_first_discontinuity heading
              (body_front ++ [body_tenth; spaced_header]))))
           ltac:(vm_compute; reflexivity)).
Defined.

End AbstractMore.
